(** * go-notify-server: a shallow embedding of the delivery core

    The development follows the Go sources file by file:
    - db.go: the SQLite store ([UpsertSubscription],
      [GetSubscriptionsByTopic], [DeleteSubscriptionByID], [LogDelivery],
      [PurgeDeliveryLog]) over the two tables of [migrate];
    - handlers.go: the purge handler and its duration parser
      ([parseDuration]), and [HandleNotify];
    - vapid.go: [GenerateVAPIDKeys] and [ParseVAPIDKeys], with the pieces
      of Go's standard library they rest on;
    - push.go: [pushPayload], [sendToSubscriptions] and
      [SendNotifications].  The goroutines of a fan-out are run by an
      explicit schedule, one atomic action at a time, so that statements
      about a fan-out hold for every interleaving;
    - the other handlers of handlers.go with [requireAuth], the router and
      middleware of server.go, and the start-up of main.go.

    Go strings are byte strings and are embedded as [string]; Go's [int],
    [int64] and [time.Duration] are embedded as [Z], with the 64-bit
    wrap-around written out where the code multiplies or negates; byte
    slices are lists of [Z] in the range 0..255; a JSON blob is embedded as
    the value a reader gets back from it.  Definitions come first, then
    sample data, then the properties. *)

From Stdlib Require Import ZArith String Ascii List Lia Permutation Bool.
From stdpp Require Import base option list strings gmap.
Import ListNotations.
Local Open Scope string_scope.
Local Open Scope list_scope.
Local Open Scope Z_scope.

(** ** Errors and results

    Go functions returning [(T, error)] are embedded as functions into
    [result T]. *)

Inductive error : Type :=
| StorageError (msg : string)          (* a failed db.Exec / db.Query *)
| ConstraintError (msg : string)       (* SQLite constraint violation   *)
| ErrNoRows                            (* sql.ErrNoRows from QueryRow   *)
| InvalidDuration (s : string)         (* "invalid duration %q ..."     *)
| InvalidDurationUnit (u : string)     (* "invalid duration unit %q"    *)
| InvalidKeyFormat (msg : string)      (* ParseVAPIDKeys failures       *)
| Panic (msg : string)                 (* a run-time panic              *)
| Wrapped (ctx : string) (e : error).  (* fmt.Errorf("ctx: %w", e)      *)

Inductive result (A : Type) : Type :=
| Ok (a : A)
| Err (e : error).
Arguments Ok {A} a.
Arguments Err {A} e.

Definition is_ok {A} (r : result A) : bool :=
  match r with Ok _ => true | Err _ => false end.

(** ** Machine integers *)

Definition MaxInt64 : Z := 2 ^ 63 - 1.
Definition MinInt64 : Z := - 2 ^ 63.

(** Two's-complement reduction of a mathematical integer to [int64]. *)
Definition wrap64 (z : Z) : Z := (z + 2 ^ 63) mod 2 ^ 64 - 2 ^ 63.

(** Go's [*] on [int64]. *)
Definition mul64 (a b : Z) : Z := wrap64 (a * b).

(** ** The store (db.go)

    Timestamps written by SQLite's [datetime('now')] are texts of the form
    [YYYY-MM-DD HH:MM:SS] in UTC, and the only operation the code performs on
    them is the text comparison [sent_at < ?] against a Go time formatted
    with the layout [2006-01-02 15:04:05].  For years 0000..9999 that
    fixed-width text orders exactly as the whole second it denotes, so a
    [datetime] is embedded as that second count since the Unix epoch.  Go's
    [time.Time] keeps nanoseconds and is embedded as a nanosecond count. *)

Definition datetime := Z.     (* whole seconds since the epoch, UTC *)
Definition gotime := Z.       (* nanoseconds since the epoch        *)

Definition Nanosecond : Z := 1.
Definition Second : Z := 1000000000.
Definition Minute : Z := 60 * Second.
Definition Hour : Z := 60 * Minute.

(** [datetime('now')] and [t.Format("2006-01-02 15:04:05")]: both drop the
    sub-second part of the instant. *)
Definition Format (t : gotime) : datetime := t / Second.
Definition datetime_now (now : gotime) : datetime := Format now.

Record Subscription : Type := {
  ID : string;
  Topic : string;
  Endpoint : string;
  KeyP256dh : string;
  KeyAuth : string;
  CreatedAt : datetime
}.

Record DeliveryLog : Type := {
  log_id : Z;
  subscription_id : string;
  sent_at : datetime;
  status_code : Z;
  log_error : string
}.

(** The [*sql.DB] handle: the two tables in rowid order, the AUTOINCREMENT
    counter of [delivery_log], and the health of the handle.  [fault = Some
    msg] stands for a handle on which every statement fails with the driver
    error [msg] (closed database, I/O error, lock timeout). *)
Record DB : Type := {
  subscriptions : list Subscription;
  delivery_log : list DeliveryLog;
  delivery_log_seq : Z;
  fault : option string
}.

Definition set_subscriptions (db : DB) (rows : list Subscription) : DB :=
  {| subscriptions := rows;
     delivery_log := delivery_log db;
     delivery_log_seq := delivery_log_seq db;
     fault := fault db |}.

Definition set_delivery_log (db : DB) (rows : list DeliveryLog) (seq : Z) : DB :=
  {| subscriptions := subscriptions db;
     delivery_log := rows;
     delivery_log_seq := seq;
     fault := fault db |}.

(** The state [migrate] leaves on a fresh file. *)
Definition empty_db : DB :=
  {| subscriptions := []; delivery_log := []; delivery_log_seq := 0; fault := None |}.

(** The schema's constraints on [subscriptions]: [id TEXT PRIMARY KEY] and
    [UNIQUE(endpoint)]. *)
Definition schema_ok (rows : list Subscription) : Prop :=
  List.NoDup (map ID rows) /\ List.NoDup (map Endpoint rows).

(** *** randomID *)

Definition hexdigit (n : Z) : ascii :=
  match n with
  | 0 => "0" | 1 => "1" | 2 => "2" | 3 => "3" | 4 => "4" | 5 => "5" | 6 => "6"
  | 7 => "7" | 8 => "8" | 9 => "9" | 10 => "a" | 11 => "b" | 12 => "c"
  | 13 => "d" | 14 => "e" | _ => "f"
  end%char.

(** [hex.EncodeToString]. *)
Fixpoint hex_EncodeToString (b : list Z) : string :=
  match b with
  | [] => EmptyString
  | x :: rest => String (hexdigit (x / 16)) (String (hexdigit (x mod 16)) (hex_EncodeToString rest))
  end.

(** [randomID]: the 16 bytes read from [crypto/rand] are an input. *)
Definition randomID (entropy : list Z) : string := hex_EncodeToString entropy.

(** *** UpsertSubscription *)

Definition upsert_row (topic p256dh auth : string) (r : Subscription) : Subscription :=
  {| ID := ID r; Topic := topic; Endpoint := Endpoint r;
     KeyP256dh := p256dh; KeyAuth := auth; CreatedAt := CreatedAt r |}.

(** The statement
    [INSERT INTO subscriptions (id, topic, endpoint, key_p256dh, key_auth)
     VALUES (?,?,?,?,?) ON CONFLICT(endpoint) DO UPDATE SET topic =
     excluded.topic, key_p256dh = excluded.key_p256dh, key_auth =
     excluded.key_auth].
    It yields the new table and the number of rows affected.  A clash on the
    conflict target [endpoint] runs the DO UPDATE, which does not assign the
    id: SQLite examines the constraint of a DO UPDATE clause before the
    others.  A clash on the primary key alone aborts the statement. *)
Definition exec_upsert (rows : list Subscription) (now : gotime)
    (newID topic endpoint p256dh auth : string) : result (list Subscription * Z) :=
  if existsb (fun r => String.eqb (Endpoint r) endpoint) rows then
    Ok (map (fun r => if String.eqb (Endpoint r) endpoint
                      then upsert_row topic p256dh auth r else r) rows, 1)
  else if existsb (fun r => String.eqb (ID r) newID) rows then
    Err (ConstraintError "UNIQUE constraint failed: subscriptions.id")
  else
    Ok (rows ++ [ {| ID := newID; Topic := topic; Endpoint := endpoint;
                     KeyP256dh := p256dh; KeyAuth := auth;
                     CreatedAt := datetime_now now |} ], 1).

(** [SELECT id FROM subscriptions WHERE endpoint = ?] through [QueryRow]. *)
Definition query_id_by_endpoint (rows : list Subscription) (endpoint : string) : result string :=
  match find (fun r => String.eqb (Endpoint r) endpoint) rows with
  | Some r => Ok (ID r)
  | None => Err ErrNoRows
  end.

Definition UpsertSubscription (db : DB) (entropy : list Z) (now : gotime)
    (topic endpoint p256dh auth : string) : DB * result (string * bool) :=
  let newID := randomID entropy in
  match fault db with
  | Some msg => (db, Err (Wrapped "upsert subscription" (StorageError msg)))
  | None =>
    match exec_upsert (subscriptions db) now newID topic endpoint p256dh auth with
    | Err e => (db, Err (Wrapped "upsert subscription" e))
    | Ok (rows', rows) =>
      let db' := set_subscriptions db rows' in
      match query_id_by_endpoint rows' endpoint with
      | Err e => (db', Err (Wrapped "lookup subscription id" e))
      | Ok actualID =>
        let created := String.eqb actualID newID && (0 <? rows) in
        (db', Ok (actualID, created))
      end
    end
  end.

(** *** Queries and deletions *)

Definition GetSubscriptionsByTopic (db : DB) (topic : string) : result (list Subscription) :=
  match fault db with
  | Some msg => Err (Wrapped "query subscriptions" (StorageError msg))
  | None =>
    if String.eqb topic "" then Ok (subscriptions db)
    else Ok (List.filter (fun r => String.eqb (Topic r) topic) (subscriptions db))
  end.

(** The admin listing selects no key column: the scanned records keep Go's
    zero value in [KeyP256dh] and [KeyAuth]. *)
Definition redact (r : Subscription) : Subscription :=
  {| ID := ID r; Topic := Topic r; Endpoint := Endpoint r;
     KeyP256dh := ""; KeyAuth := ""; CreatedAt := CreatedAt r |}.

Definition ListSubscriptionsAdmin (db : DB) (topic : string) : result (list Subscription) :=
  match fault db with
  | Some msg => Err (Wrapped "query subscriptions" (StorageError msg))
  | None =>
    if String.eqb topic "" then Ok (map redact (subscriptions db))
    else Ok (map redact (List.filter (fun r => String.eqb (Topic r) topic) (subscriptions db)))
  end.

Definition DeleteSubscriptionByEndpoint (db : DB) (endpoint : string) : DB * option error :=
  match fault db with
  | Some msg => (db, Some (StorageError msg))
  | None =>
    (set_subscriptions db
       (List.filter (fun r => negb (String.eqb (Endpoint r) endpoint)) (subscriptions db)), None)
  end.

Definition DeleteSubscriptionByID (db : DB) (id : string) : DB * option error :=
  match fault db with
  | Some msg => (db, Some (StorageError msg))
  | None =>
    (set_subscriptions db
       (List.filter (fun r => negb (String.eqb (ID r) id)) (subscriptions db)), None)
  end.

(** [INSERT INTO delivery_log (subscription_id, status_code, error)]: the
    row id comes from the AUTOINCREMENT counter and [sent_at] from the
    column default [datetime('now')]. *)
Definition LogDelivery (db : DB) (now : gotime) (subscriptionID : string)
    (statusCode : Z) (errMsg : string) : DB * option error :=
  match fault db with
  | Some msg => (db, Some (StorageError msg))
  | None =>
    let id := delivery_log_seq db + 1 in
    (set_delivery_log db
       (delivery_log db ++ [ {| log_id := id; subscription_id := subscriptionID;
                                sent_at := datetime_now now;
                                status_code := statusCode; log_error := errMsg |} ])
       id, None)
  end.

(** Go's unary minus on [int64]: the least value is its own negation. *)
Definition neg64 (d : Z) : Z := wrap64 (- d).

(** [time.Now().UTC().Add(-olderThan)]: the negation is that of the
    [int64] behind [time.Duration]; [Add] itself is exact, a [time.Time]
    reaching far beyond what a duration can span. *)
Definition purge_cutoff (now : gotime) (olderThan : Z) : gotime := now + neg64 olderThan.

(** [PurgeDeliveryLog]: [cutoff] is [time.Now().UTC().Add(-olderThan)]
    formatted to the second; the statement is
    [DELETE FROM delivery_log WHERE sent_at < ?]. *)
Definition PurgeDeliveryLog (db : DB) (now : gotime) (olderThan : Z) : DB * result Z :=
  let cutoff := Format (purge_cutoff now olderThan) in
  match fault db with
  | Some msg => (db, Err (StorageError msg))
  | None =>
    let kept := List.filter (fun e => negb (sent_at e <? cutoff)) (delivery_log db) in
    let deleted := List.filter (fun e => sent_at e <? cutoff) (delivery_log db) in
    (set_delivery_log db kept (delivery_log_seq db), Ok (Z.of_nat (length deleted)))
  end.

(** ** The purge handler (handlers.go) *)

Definition is_digit (c : ascii) : bool :=
  let n := Z.of_nat (nat_of_ascii c) in (48 <=? n) && (n <=? 57).

Definition digit_value (c : ascii) : Z := Z.of_nat (nat_of_ascii c) - 48.

(** The longest prefix of ASCII digits, and what follows it. *)
Fixpoint span_digits (s : string) : string * string :=
  match s with
  | EmptyString => (EmptyString, EmptyString)
  | String c rest =>
    if is_digit c then
      let (ds, tl) := span_digits rest in (String c ds, tl)
    else (EmptyString, s)
  end.

Definition is_unit (c : ascii) : bool :=
  (Ascii.eqb c "d" || Ascii.eqb c "h" || Ascii.eqb c "m")%char.

(** The text is empty or begins with something else than a digit. *)
Definition starts_without_digit (s : string) : Prop :=
  match s with
  | EmptyString => True
  | String c _ => is_digit c = false
  end.

(** [durationRe.FindStringSubmatch(s)] for
    [durationRe = regexp.MustCompile(`^(\d+)([dhm])$`)]: the two capture
    groups of the only possible match, or [None] for Go's [nil].  In Go's
    syntax [\d] is an ASCII digit and [$] without the [m] flag is the end of
    the text, so a match is a maximal non-empty run of digits, one of the
    three unit letters, and nothing more. *)
Definition durationRe_FindStringSubmatch (s : string) : option (string * string) :=
  match span_digits s with
  | (EmptyString, _) => None
  | (ds, String u EmptyString) =>
    if is_unit u then Some (ds, String u EmptyString) else None
  | (_, _) => None
  end.

(** The value of a string of decimal digits, most significant first. *)
Fixpoint decimal (acc : Z) (s : string) : Z :=
  match s with
  | EmptyString => acc
  | String c rest => decimal (acc * 10 + digit_value c) rest
  end.

Fixpoint all_digits (s : string) : bool :=
  match s with
  | EmptyString => true
  | String c rest => is_digit c && all_digits rest
  end.

Inductive NumError : Type := ErrSyntax | ErrRange.

(** [strconv.Atoi] on a 64-bit platform: an optional sign and decimal digits;
    a value outside [int] comes back as the nearest bound together with
    [ErrRange]. *)
Definition Atoi (s : string) : Z * option NumError :=
  let '(neg, body) :=
    match s with
    | String c rest =>
      if Ascii.eqb c "-" then (true, rest)
      else if Ascii.eqb c "+" then (false, rest)
      else (false, s)
    | EmptyString => (false, s)
    end in
  match body with
  | EmptyString => (0, Some ErrSyntax)
  | _ =>
    if all_digits body then
      let v := decimal 0 body in
      if neg then
        if 2 ^ 63 <? v then (MinInt64, Some ErrRange) else (- v, None)
      else
        if MaxInt64 <? v then (MaxInt64, Some ErrRange) else (v, None)
    else (0, Some ErrSyntax)
  end.

(** [parseDuration]; the error of [Atoi] is dropped, as in [n, _ := ...],
    and the products are [int64] products. *)
Definition parseDuration (s : string) : result Z :=
  match durationRe_FindStringSubmatch s with
  | None => Err (InvalidDuration s)
  | Some (m1, m2) =>
    let n := fst (Atoi m1) in
    if String.eqb m2 "d" then Ok (mul64 (mul64 n 24) Hour)
    else if String.eqb m2 "h" then Ok (mul64 n Hour)
    else if String.eqb m2 "m" then Ok (mul64 n Minute)
    else Err (InvalidDurationUnit m2)
  end.

(** The reading of a purge-age token in the words of the interface: a
    non-empty run of decimal digits [ds] followed by one unit letter [u]. *)
Definition duration_token (s ds : string) (u : ascii) : Prop :=
  s = (ds ++ String u EmptyString)%string /\
  ds <> EmptyString /\ all_digits ds = true /\ is_unit u = true.

(** Nanoseconds in one day, hour or minute, by unit letter. *)
Definition unit_ns (u : ascii) : Z :=
  if Ascii.eqb u "d" then 24 * Hour
  else if Ascii.eqb u "h" then Hour
  else Minute.

(** [NotifyResult] (push.go): the aggregate returned by a fan-out. *)
Record NotifyResult : Type := {
  Sent : Z;
  Failed : Z;
  StaleRemoved : Z
}.

(** HTTP responses written by the handlers: the status and the JSON body. *)
Inductive body : Type :=
| ErrorBody (msg : string)        (* {"error": msg}                  *)
| ErrorOf (e : error)             (* {"error": e.Error()}            *)
| DeletedBody (n : Z)             (* {"deleted": n}                  *)
| NotifyBody (r : NotifyResult).  (* sent / failed / stale_removed   *)

Record response : Type := { status : Z; payload_body : body }.

Definition StatusOK : Z := 200.
Definition StatusBadRequest : Z := 400.
Definition StatusNotFound : Z := 404.
Definition StatusGone : Z := 410.
Definition StatusInternalServerError : Z := 500.

(** [HandlePurgeDeliveryLog]; [older_than] is the query parameter, empty
    when absent. *)
Definition HandlePurgeDeliveryLog (db : DB) (now : gotime) (older_than : string)
    : DB * response :=
  let olderThan := if String.eqb older_than "" then "30d" else older_than in
  match parseDuration olderThan with
  | Err e => (db, {| status := StatusBadRequest; payload_body := ErrorOf e |})
  | Ok dur =>
    match PurgeDeliveryLog db now dur with
    | (db', Err _) =>
      (db', {| status := StatusInternalServerError;
               payload_body := ErrorBody "failed to purge delivery log" |})
    | (db', Ok deleted) =>
      (db', {| status := StatusOK; payload_body := DeletedBody deleted |})
    end
  end.

(** ** VAPID keys (vapid.go)

    The functions of Go's standard library that [vapid.go] calls are
    embedded from their documented behaviour: [base64.RawURLEncoding],
    [big.Int.FillBytes] and [SetBytes], [elliptic.Marshal] and
    [elliptic.Unmarshal] on P-256. *)

(** *** encoding/base64, [RawURLEncoding] *)

(** The URL-safe alphabet [A-Z a-z 0-9 - _]. *)
Definition encodeURL (n : Z) : ascii :=
  if n <? 26 then ascii_of_nat (Z.to_nat (n + 65))
  else if n <? 52 then ascii_of_nat (Z.to_nat (n - 26 + 97))
  else if n <? 62 then ascii_of_nat (Z.to_nat (n - 52 + 48))
  else if n =? 62 then "-"%char
  else "_"%char.

(** The decode map of the encoding; [None] is its [0xff] entry. *)
Definition decodeURL (c : ascii) : option Z :=
  let n := Z.of_nat (nat_of_ascii c) in
  if (65 <=? n) && (n <=? 90) then Some (n - 65)
  else if (97 <=? n) && (n <=? 122) then Some (n - 97 + 26)
  else if (48 <=? n) && (n <=? 57) then Some (n - 48 + 52)
  else if n =? 45 then Some 62
  else if n =? 95 then Some 63
  else None.

(** [EncodeToString]: three bytes give four characters; a tail of one or
    two bytes gives two or three characters, and no padding is written. *)
Fixpoint EncodeToString (src : list Z) : string :=
  match src with
  | b0 :: b1 :: b2 :: rest =>
    let val := Z.lor (Z.lor (Z.shiftl b0 16) (Z.shiftl b1 8)) b2 in
    String (encodeURL (Z.land (Z.shiftr val 18) 63))
      (String (encodeURL (Z.land (Z.shiftr val 12) 63))
        (String (encodeURL (Z.land (Z.shiftr val 6) 63))
          (String (encodeURL (Z.land val 63)) (EncodeToString rest))))
  | [b0; b1] =>
    let val := Z.lor (Z.shiftl b0 16) (Z.shiftl b1 8) in
    String (encodeURL (Z.land (Z.shiftr val 18) 63))
      (String (encodeURL (Z.land (Z.shiftr val 12) 63))
        (String (encodeURL (Z.land (Z.shiftr val 6) 63)) EmptyString))
  | [b0] =>
    let val := Z.shiftl b0 16 in
    String (encodeURL (Z.land (Z.shiftr val 18) 63))
      (String (encodeURL (Z.land (Z.shiftr val 12) 63)) EmptyString)
  | [] => EmptyString
  end.

(** The decoder skips carriage returns and line feeds and rejects every
    other character outside the alphabet (the padding character included,
    since the raw encoding has none). *)
Fixpoint decode_chars (s : string) : option (list Z) :=
  match s with
  | EmptyString => Some []
  | String c rest =>
    match decodeURL c with
    | Some v => option_map (cons v) (decode_chars rest)
    | None =>
      if (Ascii.eqb c "010" || Ascii.eqb c "013")%char then decode_chars rest
      else None
    end
  end.

Definition byte (z : Z) : Z := Z.land z 255.

(** Quanta of four sextets give three bytes; a final quantum of two or three
    sextets gives one or two bytes (left-over bits are dropped: the encoding
    is not strict); a final quantum of a single sextet is corrupt input. *)
Fixpoint decode_quanta (d : list Z) : option (list Z) :=
  match d with
  | d0 :: d1 :: d2 :: d3 :: rest =>
    let val := Z.lor (Z.lor (Z.lor (Z.shiftl d0 18) (Z.shiftl d1 12)) (Z.shiftl d2 6)) d3 in
    option_map (fun tl => byte (Z.shiftr val 16) :: byte (Z.shiftr val 8) :: byte val :: tl)
               (decode_quanta rest)
  | [d0; d1; d2] =>
    let val := Z.lor (Z.lor (Z.shiftl d0 18) (Z.shiftl d1 12)) (Z.shiftl d2 6) in
    Some [byte (Z.shiftr val 16); byte (Z.shiftr val 8)]
  | [d0; d1] =>
    let val := Z.lor (Z.shiftl d0 18) (Z.shiftl d1 12) in
    Some [byte (Z.shiftr val 16)]
  | [_] => None
  | [] => Some []
  end.

(** [DecodeString]; [None] is a [CorruptInputError]. *)
Definition DecodeString (s : string) : option (list Z) :=
  match decode_chars s with
  | Some d => decode_quanta d
  | None => None
  end.

(** *** math/big *)

(** [new(big.Int).SetBytes(buf)]: the big-endian unsigned value. *)
Definition SetBytes (buf : list Z) : Z :=
  fold_left (fun acc b => acc * 256 + b) buf 0.

(** The [n] low-order bytes of [x], big-endian. *)
Fixpoint be_bytes (n : nat) (x : Z) : list Z :=
  match n with
  | O => []
  | S k => (x / 256 ^ Z.of_nat k) mod 256 :: be_bytes k x
  end.

(** [x.FillBytes(make([]byte, n))] for [x >= 0]: panics ([None]) when the
    value does not fit. *)
Definition FillBytes (x : Z) (n : nat) : option (list Z) :=
  if x <? 256 ^ Z.of_nat n then Some (be_bytes n x) else None.

(** *** crypto/elliptic, P-256 *)

Definition P256_P : Z :=
  0xffffffff00000001000000000000000000000000ffffffffffffffffffffffff.
Definition P256_N : Z :=
  0xffffffff00000000ffffffffffffffffbce6faada7179e84f3b9cac2fc632551.
Definition P256_B : Z :=
  0x5ac635d8aa3a93e7b3ebbd55769886bc651d06b0cc53b0f63bce3c3e27d2604b.
Definition P256_Gx : Z :=
  0x6b17d1f2e12c4247f8bce6e563a440f277037d812deb33a0f4a13945d898c296.
Definition P256_Gy : Z :=
  0x4fe342e2fe1a7f9b8ee7eb4a7c0f9e162bce33576b315ececbb6406837bf51f5.

(** [IsOnCurve]: canonical coordinates satisfying y^2 = x^3 - 3x + b. *)
Definition IsOnCurve (x y : Z) : bool :=
  (0 <=? x) && (x <? P256_P) && (0 <=? y) && (y <? P256_P) &&
  ((y * y) mod P256_P =? (x * x * x - 3 * x + P256_B) mod P256_P).

(** [elliptic.Marshal(elliptic.P256(), x, y)]: [0x04 || X || Y]. *)
Definition elliptic_Marshal (x y : Z) : option (list Z) :=
  match FillBytes x 32, FillBytes y 32 with
  | Some xb, Some yb => Some (4 :: xb ++ yb)
  | _, _ => None
  end.

(** [elliptic.Unmarshal(elliptic.P256(), data)]: [None] is the [nil, nil]
    returned for anything but an uncompressed point on the curve. *)
Definition elliptic_Unmarshal (data : list Z) : option (Z * Z) :=
  match data with
  | 4 :: rest =>
    if (length rest =? 64)%nat then
      let x := SetBytes (firstn 32 rest) in
      let y := SetBytes (skipn 32 rest) in
      if IsOnCurve x y then Some (x, y) else None
    else None
  | _ => None
  end.

(** [ecdsa.PrivateKey] on P-256. *)
Record PrivateKey : Type := { X : Z; Y : Z; D : Z }.

(** [GenerateVAPIDKeys]; [generated] is what [ecdsa.GenerateKey(elliptic.P256(),
    rand.Reader)] returned. *)
Definition GenerateVAPIDKeys (generated : result PrivateKey) : result (string * string) :=
  match generated with
  | Err e => Err (Wrapped "generate ECDSA key" e)
  | Ok priv =>
    match elliptic_Marshal (X priv) (Y priv) with
    | None => Err (Panic "math/big: buffer too small to fit value")
    | Some pubBytes =>
      let publicKey := EncodeToString pubBytes in
      match FillBytes (D priv) 32 with
      | None => Err (Panic "math/big: buffer too small to fit value")
      | Some privBytes => Ok (publicKey, EncodeToString privBytes)
      end
    end
  end.

Definition ParseVAPIDKeys (publicKeyB64 privateKeyB64 : string) : result PrivateKey :=
  match DecodeString publicKeyB64 with
  | None => Err (Wrapped "decode VAPID public key" (InvalidKeyFormat "illegal base64 data"))
  | Some pubBytes =>
    match elliptic_Unmarshal pubBytes with
    | None => Err (InvalidKeyFormat "invalid VAPID public key (not a valid P-256 point)")
    | Some (x, y) =>
      match DecodeString privateKeyB64 with
      | None => Err (Wrapped "decode VAPID private key" (InvalidKeyFormat "illegal base64 data"))
      | Some privBytes => Ok {| X := x; Y := y; D := SetBytes privBytes |}
      end
    end
  end.

(** *** The key pair relation of ECDSA

    A private scalar [d] belongs to the public point [d * G].  The group law
    is the affine one; [None] is the point at infinity. *)

Fixpoint pow_mod_pos (a : Z) (e : positive) (m : Z) : Z :=
  match e with
  | xH => a mod m
  | xO e' => let r := pow_mod_pos a e' m in (r * r) mod m
  | xI e' => let r := pow_mod_pos a e' m in (r * r * a) mod m
  end.

Definition Fp_inv (a : Z) : Z :=
  match P256_P - 2 with
  | Zpos e => pow_mod_pos a e P256_P
  | _ => 0
  end.

Definition point := option (Z * Z).

Definition point_add (p q : point) : point :=
  match p, q with
  | None, _ => q
  | _, None => p
  | Some (x1, y1), Some (x2, y2) =>
    if (x1 =? x2) && ((y1 + y2) mod P256_P =? 0) then None
    else
      let l := if (x1 =? x2)
               then ((3 * x1 * x1 - 3) * Fp_inv (2 * y1)) mod P256_P
               else ((y2 - y1) * Fp_inv (x2 - x1)) mod P256_P in
      let x3 := (l * l - x1 - x2) mod P256_P in
      Some (x3, (l * (x1 - x3) - y1) mod P256_P)
  end.

Fixpoint point_mul_pos (k : positive) (p : point) : point :=
  match k with
  | xH => p
  | xO k' => let h := point_mul_pos k' p in point_add h h
  | xI k' => let h := point_mul_pos k' p in point_add p (point_add h h)
  end.

Definition ScalarBaseMult (d : Z) : point :=
  match d mod P256_N with
  | Zpos k => point_mul_pos k (Some (P256_Gx, P256_Gy))
  | _ => None
  end.

(** The private scalar of [k] is the one of its public point. *)
Definition key_pair_consistent (k : PrivateKey) : Prop :=
  ScalarBaseMult (D k) = Some (X k, Y k).

(** ** The fan-out (push.go) *)

Record NotifyRequest : Type := {
  ReqTopic : string;
  Title : string;
  Body : string;
  Icon : string;
  Badge : string;
  Tag : string;
  URL : string
}.

(** Go's [any] as far as [pushPayload] uses it: strings, an integer and
    string-keyed maps. *)
#[warnings="-register-all"] Inductive any : Type :=
| VString (s : string)
| VInt (n : Z)
| VMap (m : gmap string any).

(** *** encoding/json on strings

    [json.Marshal] writes a string as JSON text, which is Unicode: it walks
    the bytes with [utf8.DecodeRuneInString] and writes U+FFFD for every
    byte at which no valid encoding starts.  (Its escapes, of the quote, of
    control characters, of the HTML characters, are undone by every JSON
    reader and do not change the string that is read back.) *)

Definition byte_of (c : ascii) : Z := Z.of_nat (nat_of_ascii c).

(** The [first] table of unicode/utf8 with its [acceptRanges], for the
    bytes that start an encoding of two to four bytes: the size, and the
    range of the second byte. *)
Definition first (b : Z) : option (nat * Z * Z) :=
  if (0xC2 <=? b) && (b <=? 0xDF) then Some (2%nat, 0x80, 0xBF)
  else if b =? 0xE0 then Some (3%nat, 0xA0, 0xBF)
  else if (0xE1 <=? b) && (b <=? 0xEC) then Some (3%nat, 0x80, 0xBF)
  else if b =? 0xED then Some (3%nat, 0x80, 0x9F)
  else if (0xEE <=? b) && (b <=? 0xEF) then Some (3%nat, 0x80, 0xBF)
  else if b =? 0xF0 then Some (4%nat, 0x90, 0xBF)
  else if (0xF1 <=? b) && (b <=? 0xF3) then Some (4%nat, 0x80, 0xBF)
  else if b =? 0xF4 then Some (4%nat, 0x80, 0x8F)
  else None.

Definition between (lo hi : Z) (c : ascii) : bool :=
  (lo <=? byte_of c) && (byte_of c <=? hi).

(** [utf8.DecodeRuneInString]: the bytes of the encoding the string starts
    with and what follows them; [None] stands for [(RuneError, 1)], no valid
    encoding at the first byte (and for the empty string). *)
Definition DecodeRuneInString (s : string) : option (string * string) :=
  match s with
  | EmptyString => None
  | String c0 r0 =>
    if byte_of c0 <? 0x80 then Some (String c0 EmptyString, r0)
    else
      match first (byte_of c0), r0 with
      | Some (sz, lo, hi), String c1 r1 =>
        if between lo hi c1 then
          if (sz <=? 2)%nat then Some (String c0 (String c1 EmptyString), r1)
          else
            match r1 with
            | String c2 r2 =>
              if between 0x80 0xBF c2 then
                if (sz <=? 3)%nat
                then Some (String c0 (String c1 (String c2 EmptyString)), r2)
                else
                  match r2 with
                  | String c3 r3 =>
                    if between 0x80 0xBF c3
                    then Some (String c0 (String c1 (String c2 (String c3 EmptyString))), r3)
                    else None
                  | EmptyString => None
                  end
              else None
            | EmptyString => None
            end
        else None
      | _, _ => None
      end
  end.

(** U+FFFD in UTF-8. *)
Definition RuneError : string :=
  String (ascii_of_nat 239) (String (ascii_of_nat 191) (String (ascii_of_nat 189) EmptyString)).

(** The loop of the string encoder, which runs at most once per byte. *)
Fixpoint appendString (fuel : nat) (s : string) : string :=
  match fuel, s with
  | S fuel', String c rest =>
    match DecodeRuneInString s with
    | Some (rune, rest') => (rune ++ appendString fuel' rest')%string
    | None => (RuneError ++ appendString fuel' rest)%string
    end
  | _, _ => EmptyString
  end.

(** The string a JSON reader gets back from what [json.Marshal] wrote. *)
Definition json_string (s : string) : string := appendString (String.length s) s.



(** The value read back from the blob: strings as [json_string] gives
    them, integers as they are.  (Object keys, which in [pushPayload] are
    ASCII constants, are kept as they are.) *)
Fixpoint marshal_value (v : any) : any :=
  match v with
  | VString s => VString (json_string s)
  | VInt n => VInt n
  | VMap m => VMap (marshal_value <$> m)
  end.

(** [json.Marshal] has no error case on such values; the byte blob is
    represented by the value a JSON reader gets back from it. *)
Definition blob := any.
Definition json_Marshal (v : any) : result blob := Ok (marshal_value v).

Definition pushPayload (req : NotifyRequest) : result blob :=
  let notification : gmap string any := {[ "title" := VString (Title req) ]} in
  let notification :=
    if String.eqb (Body req) "" then notification
    else <["body" := VString (Body req)]> notification in
  let notification :=
    if String.eqb (Icon req) "" then notification
    else <["icon" := VString (Icon req)]> notification in
  let notification :=
    if String.eqb (Badge req) "" then notification
    else <["badge" := VString (Badge req)]> notification in
  let notification :=
    if String.eqb (Tag req) "" then notification
    else <["tag" := VString (Tag req)]> notification in
  let notification :=
    if String.eqb (URL req) "" then notification
    else <["data" := VMap {[ "url" := VString (URL req) ]}]> notification in
  let payload : gmap string any :=
    <["web_push" := VInt 8030]> {[ "notification" := VMap notification ]} in
  json_Marshal (VMap payload).

(** Member [k] of a JSON object, and the member at the end of a path. *)
Definition member (k : string) (v : any) : option any :=
  match v with
  | VMap m => m !! k
  | _ => None
  end.

Fixpoint at_path (path : list string) (v : any) : option any :=
  match path with
  | [] => Some v
  | k :: rest => match member k v with Some w => at_path rest w | None => None end
  end.

Definition pushConcurrency : nat := 10.

Record VAPID : Type := {
  vapidPublicKey : string;
  vapidPrivateKey : string;
  vapidContact : string
}.

(** The arguments of one [webpush.SendNotification] call. *)
Record PushCall : Type := {
  call_payload : blob;
  call_Endpoint : string;
  call_P256dh : string;
  call_Auth : string;
  call_VAPIDPublicKey : string;
  call_VAPIDPrivateKey : string;
  call_Subscriber : string;
  call_TTL : Z
}.

(** What the call returns: [err != nil], or a response with its status. *)
Inductive PushResponse : Type :=
| TransportError (msg : string)
| HTTPResponse (StatusCode : Z).

Definition statusCode (r : PushResponse) : Z :=
  match r with TransportError _ => 0 | HTTPResponse c => c end.

Definition errMsg (r : PushResponse) : string :=
  match r with TransportError msg => msg | HTTPResponse _ => "" end.

Definition err_nil (r : PushResponse) : bool :=
  match r with TransportError _ => false | HTTPResponse _ => true end.

(** [stale := statusCode == http.StatusNotFound || statusCode == http.StatusGone] *)
Definition stale (r : PushResponse) : bool :=
  (statusCode r =? StatusNotFound) || (statusCode r =? StatusGone).

(** [sent := err == nil && statusCode >= 200 && statusCode < 300] *)
Definition sent (r : PushResponse) : bool :=
  err_nil r && (200 <=? statusCode r) && (statusCode r <? 300).

(** The local [result] struct sent over the [results] channel. *)
Record dispatch : Type := { d_sent : bool; d_staleRemoved : bool }.

(** What the outside world sees of a fan-out, in order of occurrence. *)
Inductive event : Type :=
| EvWaitGroupAdd
| EvWaitGroupDone
| EvPush (i : nat) (call : PushCall)
| EvLogDelivery (i : nat) (id : string) (code : Z) (msg : string)
| EvDeleteSubscriptionByID (i : nat) (id : string)
| EvLogFetchError (e : error)
| EvLogPayloadError (e : error)
| EvLogLoggingError (id : string) (e : error)
| EvLogDeletingError (id : string) (e : error)
| EvPrintSummary (topic : string) (nr : NotifyResult).

(** Where the goroutine of one subscriber stands; the response is its local
    state ([statusCode], [errMsg], [err]). *)
Inductive phase : Type :=
| Waiting                        (* the range loop has not reached it  *)
| Spawned                        (* slot acquired, push call pending    *)
| Responded (r : PushResponse)   (* push call returned                  *)
| Logged (r : PushResponse)      (* LogDelivery returned                *)
| Cleaned (r : PushResponse)     (* stale check and deletion done       *)
| Finished (r : PushResponse).   (* result sent, slot released          *)

Record FanOut : Type := {
  fo_db : DB;
  fo_clock : gotime;
  fo_tasks : list (Subscription * phase);
  fo_next : nat;                     (* position of the range loop       *)
  fo_sem : nat;                      (* len(sem)                         *)
  fo_results : list dispatch;        (* the results channel, oldest first *)
  fo_trace : list event
}.

(** One scheduling decision: the main goroutine spawns the next worker, the
    worker of subscriber [i] runs to its next atomic action, or time passes. *)
Inductive choice : Type :=
| Spawn
| Run (i : nat)
| Tick (d : Z).

Definition mk_call (payload : blob) (v : VAPID) (s : Subscription) : PushCall :=
  {| call_payload := payload;
     call_Endpoint := Endpoint s;
     call_P256dh := KeyP256dh s;
     call_Auth := KeyAuth s;
     call_VAPIDPublicKey := vapidPublicKey v;
     call_VAPIDPrivateKey := vapidPrivateKey v;
     call_Subscriber := vapidContact v;
     call_TTL := 86400 |}.

Definition error_events (f : error -> event) (e : option error) : list event :=
  match e with Some e => [f e] | None => [] end.

Section FanOutSteps.
(** The push service: the outcome of the [i]-th worker's call. *)
Variable deliver : nat -> PushCall -> PushResponse.
Variable payload : blob.
Variable vapid : VAPID.

Definition advance (st : FanOut) (i : nat) (s : Subscription) (ph : phase)
    (db : DB) (evs : list event) : FanOut :=
  {| fo_db := db; fo_clock := fo_clock st;
     fo_tasks := <[i := (s, ph)]> (fo_tasks st);
     fo_next := fo_next st; fo_sem := fo_sem st;
     fo_results := fo_results st;
     fo_trace := fo_trace st ++ evs |}.

Definition fo_step (c : choice) (st : FanOut) : option FanOut :=
  match c with
  | Tick d =>
    Some {| fo_db := fo_db st; fo_clock := fo_clock st + d;
            fo_tasks := fo_tasks st; fo_next := fo_next st; fo_sem := fo_sem st;
            fo_results := fo_results st; fo_trace := fo_trace st |}
  | Spawn =>
    (* sem <- struct{}{}; go func(s Subscription) {...}(sub) *)
    if (fo_sem st <? pushConcurrency)%nat then
      match fo_tasks st !! fo_next st with
      | Some (s, Waiting) =>
        Some {| fo_db := fo_db st; fo_clock := fo_clock st;
                fo_tasks := <[fo_next st := (s, Spawned)]> (fo_tasks st);
                fo_next := S (fo_next st); fo_sem := S (fo_sem st);
                fo_results := fo_results st; fo_trace := fo_trace st |}
      | _ => None
      end
    else None
  | Run i =>
    match fo_tasks st !! i with
    | Some (s, Spawned) =>
      (* resp, err := webpush.SendNotification(payload, wpSub, &Options{...}) *)
      let call := mk_call payload vapid s in
      Some (advance st i s (Responded (deliver i call)) (fo_db st) [EvPush i call])
    | Some (s, Responded r) =>
      (* LogDelivery(db, s.ID, statusCode, errMsg) *)
      let '(db', e) := LogDelivery (fo_db st) (fo_clock st) (ID s) (statusCode r) (errMsg r) in
      Some (advance st i s (Logged r) db'
              (EvLogDelivery i (ID s) (statusCode r) (errMsg r)
                 :: error_events (EvLogLoggingError (ID s)) e))
    | Some (s, Logged r) =>
      (* if stale { DeleteSubscriptionByID(db, s.ID) } *)
      if stale r then
        let '(db', e) := DeleteSubscriptionByID (fo_db st) (ID s) in
        Some (advance st i s (Cleaned r) db'
                (EvDeleteSubscriptionByID i (ID s)
                   :: error_events (EvLogDeletingError (ID s)) e))
      else Some (advance st i s (Cleaned r) (fo_db st) [])
    | Some (s, Cleaned r) =>
      (* results <- result{sent, stale}; then the deferred <-sem *)
      Some {| fo_db := fo_db st; fo_clock := fo_clock st;
              fo_tasks := <[i := (s, Finished r)]> (fo_tasks st);
              fo_next := fo_next st; fo_sem := pred (fo_sem st);
              fo_results := fo_results st
                              ++ [ {| d_sent := sent r; d_staleRemoved := stale r |} ];
              fo_trace := fo_trace st |}
    | _ => None
    end
  end.

Fixpoint fo_run (sched : list choice) (st : FanOut) : option FanOut :=
  match sched with
  | [] => Some st
  | c :: rest =>
    match fo_step c st with
    | Some st' => fo_run rest st'
    | None => None
    end
  end.
End FanOutSteps.

Definition is_finished (t : Subscription * phase) : bool :=
  match snd t with Finished _ => true | _ => false end.

(** One turn of the collecting loop.  The counters are Go [int]s; they never
    exceed [len(subs)], itself an [int], so no wrap-around can occur. *)
Definition tally (nr : NotifyResult) (r : dispatch) : NotifyResult :=
  let nr :=
    if d_sent r then
      {| Sent := Sent nr + 1; Failed := Failed nr; StaleRemoved := StaleRemoved nr |}
    else if negb (d_staleRemoved r) then
      {| Sent := Sent nr; Failed := Failed nr + 1; StaleRemoved := StaleRemoved nr |}
    else nr in
  if d_staleRemoved r then
    {| Sent := Sent nr; Failed := Failed nr + 1; StaleRemoved := StaleRemoved nr + 1 |}
  else nr.

Definition NotifyResult_zero : NotifyResult :=
  {| Sent := 0; Failed := 0; StaleRemoved := 0 |}.

Definition collect (results : list dispatch) : NotifyResult :=
  fold_left tally results NotifyResult_zero.

(** What a call leaves behind: its return value, the store, the clock and
    the events it produced. *)
Record outcome : Type := {
  out_result : NotifyResult;
  out_db : DB;
  out_clock : gotime;
  out_trace : list event
}.

Definition fo_init (db : DB) (clock : gotime) (subs : list Subscription) : FanOut :=
  {| fo_db := db; fo_clock := clock;
     fo_tasks := map (fun s => (s, Waiting)) subs;
     fo_next := 0%nat; fo_sem := 0%nat; fo_results := []; fo_trace := [] |}.

(** [sendToSubscriptions] under the schedule [sched]: [None] when [sched]
    is not a complete run of the call (a worker is scheduled that cannot
    move, or workers are left unfinished). *)
Definition sendToSubscriptions (deliver : nat -> PushCall -> PushResponse)
    (sched : list choice) (db : DB) (clock : gotime) (subs : list Subscription)
    (req : NotifyRequest) (vapid : VAPID) : option outcome :=
  match pushPayload req with
  | Err e =>
    Some {| out_result := NotifyResult_zero; out_db := db; out_clock := clock;
            out_trace := [EvLogPayloadError e] |}
  | Ok payload =>
    match fo_run deliver payload vapid sched (fo_init db clock subs) with
    | None => None
    | Some st =>
      if forallb is_finished (fo_tasks st) then
        let nr := collect (fo_results st) in
        Some {| out_result := nr; out_db := fo_db st; out_clock := fo_clock st;
                out_trace := fo_trace st ++ [EvPrintSummary (ReqTopic req) nr] |}
      else None
    end
  end.

Definition SendNotifications (deliver : nat -> PushCall -> PushResponse)
    (sched : list choice) (db : DB) (clock : gotime)
    (req : NotifyRequest) (vapid : VAPID) : option outcome :=
  match GetSubscriptionsByTopic db (ReqTopic req) with
  | Err e =>
    Some {| out_result := NotifyResult_zero; out_db := db; out_clock := clock;
            out_trace := [EvWaitGroupAdd; EvLogFetchError e; EvWaitGroupDone] |}
  | Ok subs =>
    match sendToSubscriptions deliver sched db clock subs req vapid with
    | None => None
    | Some o =>
      Some {| out_result := out_result o; out_db := out_db o; out_clock := out_clock o;
              out_trace := EvWaitGroupAdd :: out_trace o ++ [EvWaitGroupDone] |}
    end
  end.

(** [HandleNotify]; [decoded] is the request body after JSON decoding,
    [None] when decoding failed. *)
Definition HandleNotify (deliver : nat -> PushCall -> PushResponse)
    (sched : list choice) (db : DB) (clock : gotime) (vapid : VAPID)
    (decoded : option NotifyRequest) : option (response * outcome) :=
  let idle := {| out_result := NotifyResult_zero; out_db := db; out_clock := clock;
                 out_trace := [] |} in
  match decoded with
  | None => Some ({| status := StatusBadRequest; payload_body := ErrorBody "invalid JSON" |}, idle)
  | Some req =>
    if String.eqb (Title req) "" then
      Some ({| status := StatusBadRequest; payload_body := ErrorBody "title is required" |}, idle)
    else
      match SendNotifications deliver sched db clock req vapid with
      | None => None
      | Some o => Some ({| status := StatusOK; payload_body := NotifyBody (out_result o) |}, o)
      end
  end.

(** The schedule that spawns each worker and runs it to completion before
    the next one. *)
Definition sequential (n : nat) : list choice :=
  flat_map (fun i => [Spawn; Run i; Run i; Run i; Run i]) (seq 0 n).

(** ** Decision procedures used on concrete tables *)

Definition mem (x : string) (l : list string) : bool := existsb (String.eqb x) l.

Fixpoint distinct (l : list string) : bool :=
  match l with
  | [] => true
  | x :: rest => negb (mem x rest) && distinct rest
  end.

Definition byte_ok (b : Z) : Prop := 0 <= b < 256.

(** What [ecdsa.GenerateKey] guarantees of the key it returns, as far as
    [vapid.go] depends on it: the public point is on the curve and the
    private scalar lies in [1, N-1]. *)
Definition generated_ok (priv : PrivateKey) : Prop :=
  IsOnCurve (X priv) (Y priv) = true /\ 1 <= D priv < P256_N.

(** ** Bookkeeping over the workers of a fan-out

    [iflat_from f k l] concatenates [f k x0, f (k+1) x1, ...]: what the
    workers at given phases account for, by position in the slice. *)

Fixpoint iflat_from {A B : Type} (f : nat -> A -> list B) (k : nat) (l : list A) : list B :=
  match l with
  | [] => []
  | x :: rest => f k x ++ iflat_from f (S k) rest
  end.

(** The response the worker at position [i] gets for subscriber [s]. *)
Definition answer (deliver : nat -> PushCall -> PushResponse)
    (payload : blob) (vapid : VAPID) (i : nat) (s : Subscription) : PushResponse :=
  deliver i (mk_call payload vapid s).

(** The outcome of every worker's call, in slice order. *)
Definition responses (deliver : nat -> PushCall -> PushResponse)
    (payload : blob) (vapid : VAPID) (subs : list Subscription) : list PushResponse :=
  iflat_from (fun i s => [answer deliver payload vapid i s]) 0 subs.

(** The calls made to the push service, by worker. *)
Definition pushes_of (trace : list event) : list (nat * PushCall) :=
  flat_map (fun e => match e with EvPush i c => [(i, c)] | _ => [] end) trace.

Definition dispatch_of (r : PushResponse) : dispatch :=
  {| d_sent := sent r; d_staleRemoved := stale r |}.

Definition results_at (_ : nat) (t : Subscription * phase) : list dispatch :=
  match snd t with
  | Finished r => [dispatch_of r]
  | _ => []
  end.

Definition log_key (e : DeliveryLog) : string * Z * string :=
  (subscription_id e, status_code e, log_error e).

Definition logged_at (_ : nat) (t : Subscription * phase) : list (string * Z * string) :=
  match snd t with
  | Logged r | Cleaned r | Finished r => [(ID (fst t), statusCode r, errMsg r)]
  | _ => []
  end.

Definition evicted_at (_ : nat) (t : Subscription * phase) : list string :=
  match snd t with
  | Cleaned r | Finished r => if stale r then [ID (fst t)] else []
  | _ => []
  end.

Definition pushed_at (payload : blob) (vapid : VAPID)
    (i : nat) (t : Subscription * phase) : list (nat * PushCall) :=
  match snd t with
  | Waiting | Spawned => []
  | _ => [(i, mk_call payload vapid (fst t))]
  end.

Definition phase_response (ph : phase) : option PushResponse :=
  match ph with
  | Waiting | Spawned => None
  | Responded r | Logged r | Cleaned r | Finished r => Some r
  end.

(** ** The three outcomes of a delivery, in the words of the interface *)

Definition successful (r : PushResponse) : bool :=
  match r with
  | HTTPResponse c => (200 <=? c) && (c <? 300)
  | TransportError _ => false
  end.

Definition gone (r : PushResponse) : bool :=
  match r with
  | HTTPResponse c => (c =? 404) || (c =? 410)
  | TransportError _ => false
  end.

Definition other_failure (r : PushResponse) : bool :=
  negb (successful r) && negb (gone r).

Definition count {A : Type} (p : A -> bool) (l : list A) : Z :=
  Z.of_nat (length (List.filter p l)).

(** ** Invariants of a fan-out, as predicates on its state *)

(** A worker's response is the one the push service gave to its call. *)
Definition responses_agree (deliver : nat -> PushCall -> PushResponse)
    (payload : blob) (vapid : VAPID) (st : FanOut) : Prop :=
  forall i s ph r,
    fo_tasks st !! i = Some (s, ph) -> phase_response ph = Some r ->
    r = deliver i (mk_call payload vapid s).

(** The results channel holds one result per finished worker. *)
Definition results_agree (st : FanOut) : Prop :=
  Permutation (fo_results st) (iflat_from results_at 0 (fo_tasks st)).

(** Every push call made so far belongs to a worker past its call. *)
Definition pushes_agree (payload : blob) (vapid : VAPID) (st : FanOut) : Prop :=
  Permutation (pushes_of (fo_trace st))
              (iflat_from (pushed_at payload vapid) 0 (fo_tasks st)).

(** On a healthy store, the log has grown by one entry per worker past
    its [LogDelivery], carrying the worker's subscriber id, status code and
    error text. *)
Definition log_agrees (db0 : DB) (st : FanOut) : Prop :=
  fault (fo_db st) = None /\
  exists appended,
    delivery_log (fo_db st) = delivery_log db0 ++ appended /\
    Permutation (map log_key appended) (iflat_from logged_at 0 (fo_tasks st)).

(** On a healthy store, the table holds the rows it held at the start
    except those of the workers that found their subscriber stale. *)
Definition subscriptions_agree (db0 : DB) (st : FanOut) : Prop :=
  fault (fo_db st) = None /\
  forall row,
    In row (subscriptions (fo_db st)) <->
    In row (subscriptions db0) /\
    ~ In (ID row) (iflat_from evicted_at 0 (fo_tasks st)).

(** Log-then-evict: a deletion is preceded, in the trace, by the log
    entry of the same worker for the same subscriber. *)
Definition log_then_evict (st : FanOut) : Prop :=
  (forall k i id,
     fo_trace st !! k = Some (EvDeleteSubscriptionByID i id) ->
     exists j code msg,
       (j < k)%nat /\ fo_trace st !! j = Some (EvLogDelivery i id code msg)) /\
  (forall i s r,
     fo_tasks st !! i = Some (s, Logged r) ->
     exists j, fo_trace st !! j = Some (EvLogDelivery i (ID s) (statusCode r) (errMsg r))).

(** A push call reached the endpoint of subscriber [s] during the run. *)
Definition dispatched_to (trace : list event) (s : Subscription) : Prop :=
  exists i call, In (EvPush i call) trace /\ call_Endpoint call = Endpoint s.





(** ** The remaining handlers (handlers.go) *)

(** The [Server] struct, without its database handle and wait group, which
    the embedding passes around explicitly. *)
Record Server : Type := {
  srv_VAPID : VAPID;         (* VAPIDPublicKey, VAPIDPrivateKey, VAPIDContact *)
  AdminKey : string;
  WelcomeMessage : string
}.

Definition StatusCreated : Z := 201.
Definition StatusNoContent : Z := 204.
Definition StatusUnauthorized : Z := 401.

(** What the handlers below write: a status and a JSON body, or no body. *)
Inductive content : Type :=
| JSONError (msg : string)                     (* {"error": msg}           *)
| JSONErrorOf (e : error)                      (* {"error": e.Error()}     *)
| JSONContentTypeError (ct : string)           (* {"error": "Content-Type must be ..., got <ct>"} *)
| JSONId (id : string)                         (* {"id": id}               *)
| JSONSubscriptions (subs : list Subscription) (* {"subscriptions": [...]} *)
| JSONVapidKey (key : string)                  (* {"vapidPublicKey": key}  *)
| JSONDeleted (n : Z)                          (* {"deleted": n}           *)
| JSONResult (r : NotifyResult)                (* sent / failed / stale_removed *)
| MuxText                                      (* the ServeMux's own 404 or 405 text *)
| NoBody.

Record reply : Type := { reply_status : Z; reply_content : content }.

(** [w.WriteHeader(status)] with nothing written after it. *)
Definition WriteHeader (st : Z) : reply := {| reply_status := st; reply_content := NoBody |}.

Definition writeJSON (st : Z) (c : content) : reply :=
  {| reply_status := st; reply_content := c |}.

Definition writeError (st : Z) (msg : string) : reply := writeJSON st (JSONError msg).

Definition HandleGetVAPIDPublicKey (s : Server) : reply :=
  writeJSON StatusOK (JSONVapidKey (vapidPublicKey (srv_VAPID s))).

(** The decoded body of [POST /subscriptions]. *)
Record SubscriptionBody : Type := {
  body_Topic : string;
  body_Endpoint : string;
  body_P256dh : string;
  body_Auth : string
}.

(** The goroutine [HandlePostSubscription] starts for the welcome message:
    after [s.WG.Add(1)] and one second of sleep it calls
    [sendToSubscriptions] on these arguments. *)
Record welcome : Type := {
  welcome_subs : list Subscription;
  welcome_req : NotifyRequest
}.

(** [HandlePostSubscription]; [decoded] is the body after JSON decoding,
    [None] when decoding failed.  The subscription handed to the welcome
    goroutine is built by the handler itself: its topic is Go's zero value,
    and so is its creation time, an empty text that the fan-out never
    reads and that is embedded as 0. *)
Definition HandlePostSubscription (s : Server) (db : DB) (entropy : list Z)
    (now : gotime) (decoded : option SubscriptionBody) : DB * reply * option welcome :=
  match decoded with
  | None => (db, writeError StatusBadRequest "invalid JSON", None)
  | Some b =>
    if String.eqb (body_Endpoint b) "" || String.eqb (body_P256dh b) ""
       || String.eqb (body_Auth b) "" then
      (db, writeError StatusBadRequest
             "subscription.endpoint, subscription.keys.p256dh, and subscription.keys.auth are required",
       None)
    else
      match UpsertSubscription db entropy now (body_Topic b) (body_Endpoint b)
              (body_P256dh b) (body_Auth b) with
      | (db', Err _) =>
        (db', writeError StatusInternalServerError "failed to save subscription", None)
      | (db', Ok (id, created)) =>
        let st := if created then StatusCreated else StatusOK in
        (db', writeJSON st (JSONId id),
         if created && negb (String.eqb (WelcomeMessage s) "") then
           Some {| welcome_subs :=
                     [ {| ID := id; Topic := ""; Endpoint := body_Endpoint b;
                          KeyP256dh := body_P256dh b; KeyAuth := body_Auth b;
                          CreatedAt := 0 |} ];
                   welcome_req :=
                     {| ReqTopic := ""; Title := WelcomeMessage s; Body := ""; Icon := "";
                        Badge := ""; Tag := ""; URL := "" |} |}
         else None)
      end
  end.

(** [HandleDeleteSubscriptionByEndpoint]; [decoded] is the [endpoint] field
    of the decoded body, [None] when decoding failed. *)
Definition HandleDeleteSubscriptionByEndpoint (db : DB) (decoded : option string)
    : DB * reply :=
  match decoded with
  | None => (db, writeError StatusBadRequest "invalid JSON")
  | Some endpoint =>
    if String.eqb endpoint "" then (db, writeError StatusBadRequest "endpoint is required")
    else
      match DeleteSubscriptionByEndpoint db endpoint with
      | (db', Some _) =>
        (db', writeError StatusInternalServerError "failed to delete subscription")
      | (db', None) => (db', WriteHeader StatusNoContent)
      end
  end.

(** [HandleListSubscriptions]; [topic] is the query parameter. *)
Definition HandleListSubscriptions (db : DB) (topic : string) : reply :=
  match ListSubscriptionsAdmin db topic with
  | Err _ => writeError StatusInternalServerError "failed to list subscriptions"
  | Ok subs => writeJSON StatusOK (JSONSubscriptions subs)
  end.

(** [HandleDeleteSubscriptionByID]; [id] is the path value. *)
Definition HandleDeleteSubscriptionByID (db : DB) (id : string) : DB * reply :=
  if String.eqb id "" then (db, writeError StatusBadRequest "subscription id is required")
  else
    match DeleteSubscriptionByID db id with
    | (db', Some _) =>
      (db', writeError StatusInternalServerError "failed to delete subscription")
    | (db', None) => (db', WriteHeader StatusNoContent)
    end.

(** [HandleTopicNotify]; [topic] is the path value and [decoded] the body
    after JSON decoding.  The path's topic replaces the body's. *)
Definition HandleTopicNotify (deliver : nat -> PushCall -> PushResponse)
    (sched : list choice) (db : DB) (clock : gotime) (vapid : VAPID)
    (topic : string) (decoded : option NotifyRequest) : option (response * outcome) :=
  let idle := {| out_result := NotifyResult_zero; out_db := db; out_clock := clock;
                 out_trace := [] |} in
  if String.eqb topic "" then
    Some ({| status := StatusBadRequest; payload_body := ErrorBody "topic is required" |}, idle)
  else
    match decoded with
    | None =>
      Some ({| status := StatusBadRequest; payload_body := ErrorBody "invalid JSON" |}, idle)
    | Some req =>
      if String.eqb (Title req) "" then
        Some ({| status := StatusBadRequest; payload_body := ErrorBody "title is required" |},
              idle)
      else
        let req := {| ReqTopic := topic; Title := Title req; Body := Body req;
                      Icon := Icon req; Badge := Badge req; Tag := Tag req;
                      URL := URL req |} in
        match SendNotifications deliver sched db clock req vapid with
        | None => None
        | Some o => Some ({| status := StatusOK; payload_body := NotifyBody (out_result o) |}, o)
        end
    end.

(** [strings.HasPrefix] and [strings.TrimPrefix]. *)
Definition HasPrefix (s prefix : string) : bool := String.prefix prefix s.

Definition TrimPrefix (s prefix : string) : string :=
  if HasPrefix s prefix
  then String.substring (String.length prefix) (String.length s - String.length prefix) s
  else s.

(** [requireAuth]: [auth] is the [Authorization] header; the wrapped handler
    runs, giving [next], only past the check. *)
Definition requireAuth {A : Type} (s : Server) (auth : string) (next : A) : reply + A :=
  if negb (HasPrefix auth "Bearer ")
     || negb (String.eqb (TrimPrefix auth "Bearer ") (AdminKey s))
  then inl (writeError StatusUnauthorized "unauthorized")
  else inr next.

(** ** The router and its middleware (server.go)

    What [http.ServeMux] does with the method and the path is not embedded:
    a request comes with the pattern that matched it, and with what the
    handler of that pattern reads from the request (the decoded body, a path
    value, a query parameter). *)

Definition StatusUnsupportedMediaType : Z := 415.
Definition MethodOptions : string := "OPTIONS".
Definition MethodPost : string := "POST".
Definition MethodDelete : string := "DELETE".

Inductive route : Type :=
| GetVapidPublicKey                                   (* GET /vapid-public-key      *)
| PostSubscriptions (decoded : option SubscriptionBody) (* POST /subscriptions      *)
| DeleteSubscriptions (decoded : option string)       (* DELETE /subscriptions      *)
| GetSubscriptions (topic : string)                   (* GET /subscriptions         *)
| DeleteSubscriptionsID (id : string)                 (* DELETE /subscriptions/{id} *)
| PostNotify (decoded : option NotifyRequest)         (* POST /notify               *)
| DeleteDeliveryLog (older_than : string)             (* DELETE /delivery-log       *)
| Unmatched (st : Z).                                 (* no pattern: 404 or 405     *)

Record Request : Type := {
  Method : string;
  Path : string;              (* r.URL.Path                                  *)
  ContentLength : Z;          (* r.ContentLength, -1 when the length is unknown *)
  ContentType : string;       (* r.Header.Get("Content-Type")                *)
  Authorization : string;     (* r.Header.Get("Authorization")               *)
  matched : route
}.

(** What a handler does not get from the request: random bytes, the
    clock, the push service and the interleaving of a fan-out. *)
Record World : Type := {
  w_entropy : list Z;
  w_now : gotime;
  w_deliver : nat -> PushCall -> PushResponse;
  w_sched : list choice
}.

(** What serving a request leaves behind: the headers set by the
    middleware, the response, the store, the welcome delivery started, the
    fan-out of a notify, and the lines of the access log (method, path,
    status). *)
Record Exchange : Type := {
  ex_headers : list (string * string);
  ex_reply : reply;
  ex_db : DB;
  ex_welcome : option welcome;
  ex_fanout : option outcome;
  ex_log : list (string * string * Z)
}.

(** An [http.Handler]; [None] when the schedule of a fan-out is not a
    complete run. *)
Definition Handler : Type := Request -> DB -> option Exchange.

Definition respond (rep : reply) (db : DB) : option Exchange :=
  Some {| ex_headers := []; ex_reply := rep; ex_db := db; ex_welcome := None;
          ex_fanout := None; ex_log := [] |}.

Definition reply_of (resp : response) : reply :=
  {| reply_status := status resp;
     reply_content := match payload_body resp with
                      | ErrorBody msg => JSONError msg
                      | ErrorOf e => JSONErrorOf e
                      | DeletedBody n => JSONDeleted n
                      | NotifyBody r => JSONResult r
                      end |}.

(** A pattern registered with [s.requireAuth(...)]. *)
Definition guarded {A : Type} (s : Server) (r : Request) (db : DB) (next : A)
    (k : A -> option Exchange) : option Exchange :=
  match requireAuth s (Authorization r) next with
  | inl rep => respond rep db
  | inr a => k a
  end.

(** The patterns [NewRouter] registers, each with its handler. *)
Definition ServeMux (s : Server) (w : World) : Handler := fun r db =>
  match matched r with
  | GetVapidPublicKey => respond (HandleGetVAPIDPublicKey s) db
  | PostSubscriptions decoded =>
    let '(db', rep, wl) := HandlePostSubscription s db (w_entropy w) (w_now w) decoded in
    Some {| ex_headers := []; ex_reply := rep; ex_db := db'; ex_welcome := wl;
            ex_fanout := None; ex_log := [] |}
  | DeleteSubscriptions decoded =>
    let '(db', rep) := HandleDeleteSubscriptionByEndpoint db decoded in respond rep db'
  | GetSubscriptions topic =>
    guarded s r db (HandleListSubscriptions db topic) (fun rep => respond rep db)
  | DeleteSubscriptionsID id =>
    guarded s r db (HandleDeleteSubscriptionByID db id) (fun '(db', rep) => respond rep db')
  | PostNotify decoded =>
    guarded s r db
      (HandleNotify (w_deliver w) (w_sched w) db (w_now w) (srv_VAPID s) decoded)
      (fun res =>
         match res with
         | None => None
         | Some (resp, o) =>
           Some {| ex_headers := []; ex_reply := reply_of resp; ex_db := out_db o;
                   ex_welcome := None; ex_fanout := Some o; ex_log := [] |}
         end)
  | DeleteDeliveryLog older_than =>
    guarded s r db (HandlePurgeDeliveryLog db (w_now w) older_than)
      (fun '(db', resp) => respond (reply_of resp) db')
  | Unmatched st => respond {| reply_status := st; reply_content := MuxText |} db
  end.

(** [contentTypeMiddleware] *)
Definition contentTypeMiddleware (next : Handler) : Handler := fun r db =>
  if (String.eqb (Method r) MethodPost || String.eqb (Method r) MethodDelete)
     && (0 <? ContentLength r) then
    if negb (HasPrefix (ContentType r) "application/json") then
      respond (writeJSON StatusUnsupportedMediaType (JSONContentTypeError (ContentType r))) db
    else next r db
  else next r db.

(** [loggingMiddleware]: one line after the wrapped handler returns, with
    the status it wrote (the duration is not embedded). *)
Definition loggingMiddleware (next : Handler) : Handler := fun r db =>
  match next r db with
  | None => None
  | Some ex =>
    Some {| ex_headers := ex_headers ex; ex_reply := ex_reply ex; ex_db := ex_db ex;
            ex_welcome := ex_welcome ex; ex_fanout := ex_fanout ex;
            ex_log := ex_log ex ++ [(Method r, Path r, reply_status (ex_reply ex))] |}
  end.

Definition cors_headers (origin : string) : list (string * string) :=
  [ ("Access-Control-Allow-Origin", origin);
    ("Access-Control-Allow-Methods", "GET, POST, DELETE, OPTIONS");
    ("Access-Control-Allow-Headers", "Content-Type, Authorization") ].

(** [corsMiddleware] *)
Definition corsMiddleware (origin : string) (next : Handler) : Handler := fun r db =>
  if String.eqb (Method r) MethodOptions then
    Some {| ex_headers := cors_headers origin; ex_reply := WriteHeader StatusNoContent;
            ex_db := db; ex_welcome := None; ex_fanout := None; ex_log := [] |}
  else
    match next r db with
    | None => None
    | Some ex =>
      Some {| ex_headers := cors_headers origin ++ ex_headers ex; ex_reply := ex_reply ex;
              ex_db := ex_db ex; ex_welcome := ex_welcome ex; ex_fanout := ex_fanout ex;
              ex_log := ex_log ex |}
    end.

(** [NewRouter]: CORS, then logging, then the content type check, then
    the mux. *)
Definition NewRouter (s : Server) (corsOrigin : string) (w : World) : Handler :=
  corsMiddleware corsOrigin (loggingMiddleware (contentTypeMiddleware (ServeMux s w))).

(** The patterns registered behind [requireAuth]. *)
Definition admin_route (rt : route) : bool :=
  match rt with
  | GetSubscriptions _ | DeleteSubscriptionsID _ | PostNotify _ | DeleteDeliveryLog _ => true
  | _ => false
  end.

(** ** Start-up (main.go)

    [main] up to the point where the HTTP server is built.  The environment
    is a function of the variable name ([os.Getenv] gives the empty string
    for an unset variable); the outcome of [ecdsa.GenerateKey] and the
    function [OpenDB], which works on the file system, are inputs. *)

Inductive startup : Type :=
| PrintedKeys (publicKey privateKey : string)   (* the generate-vapid subcommand *)
| Fatal (msg : string)                         (* log.Fatal / log.Fatalf        *)
| Serving (srv : Server) (db : DB) (addr : string) (corsOrigin : string).

Definition main (args : list string) (getenv : string -> string)
    (generated : result PrivateKey) (OpenDB : string -> result DB) : startup :=
  let subcommand :=
    match args with
    | _ :: a :: _ => String.eqb a "generate-vapid"
    | _ => false
    end in
  if subcommand then
    match GenerateVAPIDKeys generated with
    | Err _ => Fatal "failed to generate VAPID keys"
    | Ok (pub, priv) => PrintedKeys pub priv
    end
  else
    let vapidPublicKey := getenv "VAPID_PUBLIC_KEY" in
    let vapidPrivateKey := getenv "VAPID_PRIVATE_KEY" in
    let vapidContact := getenv "VAPID_CONTACT" in
    let adminKey := getenv "ADMIN_KEY" in
    let dbPath := getenv "DB_PATH" in
    let port := getenv "PORT" in
    let corsOrigin := getenv "CORS_ORIGIN" in
    let dbPath := if String.eqb dbPath "" then "./data/notify.db" else dbPath in
    let port := if String.eqb port "" then "8080" else port in
    let corsOrigin := if String.eqb corsOrigin "" then "*" else corsOrigin in
    if String.eqb vapidPublicKey "" || String.eqb vapidPrivateKey "" then
      Fatal "VAPID_PUBLIC_KEY and VAPID_PRIVATE_KEY are required. Run 'go-notify-server generate-vapid' to generate a keypair."
    else if String.eqb vapidContact "" then
      Fatal "VAPID_CONTACT is required (e.g. mailto:admin@example.com)"
    else if String.eqb adminKey "" then
      Fatal "ADMIN_KEY is required"
    else
      match ParseVAPIDKeys vapidPublicKey vapidPrivateKey with
      | Err _ => Fatal "invalid VAPID keys"
      | Ok _ =>
        match OpenDB dbPath with
        | Err _ => Fatal "failed to open database"
        | Ok db =>
          Serving {| srv_VAPID := {| vapidPublicKey := vapidPublicKey;
                                     vapidPrivateKey := vapidPrivateKey;
                                     vapidContact := vapidContact |};
                     AdminKey := adminKey;
                     WelcomeMessage := "" |}
                  db (":" ++ port)%string corsOrigin
        end
      end.

(** ** More bookkeeping *)

(** A worker holds a slot of the semaphore. *)
Definition in_flight (t : Subscription * phase) : bool :=
  match snd t with
  | Spawned | Responded _ | Logged _ | Cleaned _ => true
  | Waiting | Finished _ => false
  end.

Definition in_flight_at (_ : nat) (t : Subscription * phase) : list unit :=
  if in_flight t then [tt] else [].

(** The number of workers in flight. *)
Definition workers_in_flight (st : FanOut) : nat :=
  length (iflat_from in_flight_at 0 (fo_tasks st)).

(** The semaphore counts the workers in flight and never exceeds its
    capacity. *)
Definition semaphore_ok (st : FanOut) : Prop :=
  fo_sem st = workers_in_flight st /\ (fo_sem st <= pushConcurrency)%nat.

(** The ids of the delivery log are positive and increase along the table,
    and none exceeds the AUTOINCREMENT counter. *)
Fixpoint ids_increase (bound : Z) (l : list Z) : bool :=
  match l with
  | [] => true
  | x :: rest => (bound <? x) && ids_increase x rest
  end.

Definition log_ok (db : DB) : Prop :=
  ids_increase 0 (map log_id (delivery_log db)) = true /\
  Forall (fun e => log_id e <= delivery_log_seq db) (delivery_log db) /\
  0 <= delivery_log_seq db.

(** The range loop spawns the workers in slice order: those before
    [fo_next] have left [Waiting], the others have not. *)
Definition spawned_in_order (st : FanOut) : Prop :=
  (fo_next st <= length (fo_tasks st))%nat /\
  forall i s ph, fo_tasks st !! i = Some (s, ph) ->
                 (ph = Waiting <-> (fo_next st <= i)%nat).

(** The ids [start + 1], ..., [start + n]. *)
Definition ids_from (start : Z) (n : nat) : list Z :=
  map (fun k => start + Z.of_nat k) (seq 1 n).

(** The ids of the subscribers whose push answer was 404 or 410. *)
Definition evicted_ids (deliver : nat -> PushCall -> PushResponse)
    (payload : blob) (vapid : VAPID) (subs : list Subscription) : list string :=
  iflat_from (fun i s => if stale (answer deliver payload vapid i s) then [ID s] else [])
             0 subs.

(** The rows that do not carry one of the given ids, in table order. *)
Definition rows_without (ids : list string) (rows : list Subscription) : list Subscription :=
  List.filter (fun row => negb (mem (ID row) ids)) rows.

(** On a healthy store, the table is the one of the start without the
    rows evicted so far, in the same order. *)
Definition table_exact (db0 : DB) (st : FanOut) : Prop :=
  fault (fo_db st) = None /\
  subscriptions (fo_db st)
  = rows_without (iflat_from evicted_at 0 (fo_tasks st)) (subscriptions db0).

(** On a healthy store, the entries appended so far carry consecutive ids
    that continue the AUTOINCREMENT counter. *)
Definition log_numbered (db0 : DB) (st : FanOut) : Prop :=
  fault (fo_db st) = None /\
  exists appended,
    delivery_log (fo_db st) = delivery_log db0 ++ appended /\
    map log_id appended = ids_from (delivery_log_seq db0) (length appended) /\
    delivery_log_seq (fo_db st) = delivery_log_seq db0 + Z.of_nat (length appended).

(** A fan-out trace holds no wait-group event and no summary line: those
    are written around it. *)
Definition worker_event (e : event) : bool :=
  match e with
  | EvPush _ _ | EvLogDelivery _ _ _ _ | EvDeleteSubscriptionByID _ _
  | EvLogLoggingError _ _ | EvLogDeletingError _ _ => true
  | _ => false
  end.

(** A failing handle stays as it is, and every failed [LogDelivery] is
    reported. *)
Definition failures_reported (db0 : DB) (msg : string) (st : FanOut) : Prop :=
  fo_db st = db0 /\
  forall i s ph r,
    fo_tasks st !! i = Some (s, ph) ->
    (ph = Logged r \/ ph = Cleaned r \/ ph = Finished r) ->
    In (EvLogLoggingError (ID s) (StorageError msg)) (fo_trace st).

(** [s] is made of lowercase hexadecimal digits. *)
Definition is_hex (c : ascii) : bool :=
  let n := Z.of_nat (nat_of_ascii c) in
  ((48 <=? n) && (n <=? 57)) || ((97 <=? n) && (n <=? 102)).

Fixpoint all_hex (s : string) : bool :=
  match s with
  | EmptyString => true
  | String c rest => is_hex c && all_hex rest
  end.

(** [s] is made of characters of the URL-safe base64 alphabet. *)
Fixpoint all_base64url (s : string) : bool :=
  match s with
  | EmptyString => true
  | String c rest =>
    match decodeURL c with Some _ => all_base64url rest | None => false end
  end.

(** ** Sample data *)

Definition sub_alice : Subscription :=
  {| ID := "00a1"; Topic := "alerts"; Endpoint := "https://push.example.com/alice";
     KeyP256dh := "pk-alice"; KeyAuth := "auth-alice"; CreatedAt := 1700000000 |}.

Definition sub_bob : Subscription :=
  {| ID := "00b2"; Topic := ""; Endpoint := "https://push.example.com/bob";
     KeyP256dh := "pk-bob"; KeyAuth := "auth-bob"; CreatedAt := 1700000100 |}.

Definition sub_carol : Subscription :=
  {| ID := "00c3"; Topic := "other"; Endpoint := "https://push.example.com/carol";
     KeyP256dh := "pk-carol"; KeyAuth := "auth-carol"; CreatedAt := 1700000200 |}.

Definition sub_dave : Subscription :=
  {| ID := "00d4"; Topic := "alerts"; Endpoint := "https://push.example.com/dave";
     KeyP256dh := "pk-dave"; KeyAuth := "auth-dave"; CreatedAt := 1700000300 |}.

Definition sample_db : DB :=
  {| subscriptions := [sub_alice; sub_bob; sub_carol; sub_dave];
     delivery_log := []; delivery_log_seq := 0; fault := None |}.

Definition sample_entropy : list Z :=
  [222; 173; 190; 239; 0; 1; 2; 3; 4; 5; 6; 7; 8; 9; 10; 11].

(** 2023-11-14 22:13:20.5 UTC *)
Definition sample_now : gotime := 1700000000500000000.

(** Three log entries written 10, 29 and 31 days before [sample_now]. *)
Definition entry_aged (id days : Z) : DeliveryLog :=
  {| log_id := id; subscription_id := "00a1";
     sent_at := datetime_now sample_now - days * 86400;
     status_code := 201; log_error := "" |}.

Definition aged_db : DB :=
  {| subscriptions := [sub_alice];
     delivery_log := [entry_aged 1 10; entry_aged 2 29; entry_aged 3 31];
     delivery_log_seq := 3; fault := None |}.

(** One entry written at 22:12:20, sixty seconds and a half before
    [sample_now]. *)
Definition minute_old_entry : DeliveryLog :=
  {| log_id := 1; subscription_id := "00a1"; sent_at := 1699999940;
     status_code := 201; log_error := "" |}.

Definition minute_old_db : DB :=
  {| subscriptions := [sub_alice]; delivery_log := [minute_old_entry];
     delivery_log_seq := 1; fault := None |}.

(** A push service answering the four sample subscribers with 201, a
    transport error, 410 and 400. *)
Definition sample_deliver (i : nat) (_ : PushCall) : PushResponse :=
  match i with
  | 0%nat => HTTPResponse 201
  | 1%nat => TransportError "dial tcp: i/o timeout"
  | 2%nat => HTTPResponse 410
  | _ => HTTPResponse 400
  end.

Definition sample_req : NotifyRequest :=
  {| ReqTopic := ""; Title := "Deploy finished"; Body := "All green"; Icon := "";
     Badge := ""; Tag := "deploy"; URL := "https://example.com/builds/42" |}.

Definition sample_vapid : VAPID :=
  {| vapidPublicKey := "BPub"; vapidPrivateKey := "Priv";
     vapidContact := "mailto:admin@example.com" |}.

(** The key pair of the scalar 1: its public point is the generator. *)
Definition sample_key : PrivateKey := {| X := P256_Gx; Y := P256_Gy; D := 1 |}.

(** Its public key string, and two private key strings of the scalar 2:
    the 32 bytes a generated key has, and the single byte 2. *)
Definition sample_public : string :=
  Eval vm_compute in EncodeToString (4 :: be_bytes 32 P256_Gx ++ be_bytes 32 P256_Gy).
Definition private_of_two : string :=
  Eval vm_compute in EncodeToString (be_bytes 32 2).
Definition private_one_byte : string := "Ag".

Definition alerts_req : NotifyRequest :=
  {| ReqTopic := "alerts"; Title := "Disk almost full"; Body := ""; Icon := "";
     Badge := ""; Tag := ""; URL := "" |}.

(** The sample store behind a handle whose statements fail. *)
Definition broken_db : DB :=
  {| subscriptions := subscriptions sample_db; delivery_log := [];
     delivery_log_seq := 0; fault := Some "database is locked" |}.

(** A store in which one record carries the id [randomID] draws from
    [sample_entropy]. *)
Definition sub_erin : Subscription :=
  {| ID := "deadbeef000102030405060708090a0b"; Topic := "news";
     Endpoint := "https://push.example.com/erin";
     KeyP256dh := "pk-erin"; KeyAuth := "auth-erin"; CreatedAt := 1700000400 |}.

Definition clash_db : DB :=
  {| subscriptions := [sub_alice; sub_bob; sub_erin];
     delivery_log := []; delivery_log_seq := 0; fault := None |}.

(** A second draw of sixteen random bytes. *)
Definition other_entropy : list Z :=
  [1; 35; 69; 103; 137; 171; 205; 239; 16; 50; 84; 118; 152; 186; 220; 254].

Definition new_endpoint : string := "https://push.example.com/erin".

(** * Properties *)

(** ** Machine integers *)

Lemma wrap64_small z : MinInt64 <= z <= MaxInt64 -> wrap64 z = z.
Proof.
  unfold wrap64, MinInt64, MaxInt64. intros H.
  rewrite Z.mod_small by lia. lia.
Qed.

Lemma wrap64_range z : MinInt64 <= wrap64 z <= MaxInt64.
Proof.
  unfold wrap64, MinInt64, MaxInt64.
  pose proof (Z.mod_pos_bound (z + 2 ^ 63) (2 ^ 64) ltac:(lia)). lia.
Qed.

(** ** The subscription store *)

Section ListFacts.
Context {A : Type}.
Variable test : A -> bool.

Lemma existsb_false_In (l : list A) :
  existsb test l = false <-> (forall x, In x l -> test x = false).
Proof.
  induction l as [|a l IH]; simpl.
  - split; [intros _ x [] | reflexivity].
  - rewrite orb_false_iff, IH. split.
    + intros [Ha Hl] x [<-|Hx]; auto.
    + intros H. split; [apply H; now left | intros x Hx; apply H; now right].
Qed.

Lemma find_app_skip (pre l : list A) :
  (forall x, In x pre -> test x = false) -> find test (pre ++ l) = find test l.
Proof.
  induction pre as [|a pre IH]; simpl; intros H; [reflexivity|].
  rewrite (H a) by now left. apply IH. intros x Hx. apply H. now right.
Qed.

Lemma map_if_skip (g : A -> A) (l : list A) :
  (forall x, In x l -> test x = false) ->
  map (fun x => if test x then g x else x) l = l.
Proof.
  induction l as [|a l IH]; simpl; intros H; [reflexivity|].
  rewrite (H a) by now left. f_equal. apply IH. intros x Hx. apply H. now right.
Qed.

Lemma filter_all (l : list A) :
  (forall x, In x l -> test x = true) -> List.filter test l = l.
Proof.
  induction l as [|a l IH]; simpl; intros H; [reflexivity|].
  rewrite (H a) by now left. f_equal. apply IH. intros x Hx. apply H. now right.
Qed.
End ListFacts.

Lemma NoDup_app_snoc {A : Type} (l : list A) (x : A) :
  List.NoDup l -> ~ In x l -> List.NoDup (l ++ [x]).
Proof.
  induction l as [|a l IH]; simpl; intros Hnd Hx.
  - constructor; [intros [] | constructor].
  - inversion Hnd as [|? ? Ha Hl]; subst. constructor.
    + rewrite in_app_iff. simpl. intros [H|[H|[]]]; [auto | subst; auto].
    + apply IH; auto.
Qed.

(** A row with a given endpoint splits a well-formed table around itself:
    no other row carries that endpoint. *)
Lemma endpoint_split (rows : list Subscription) (r : Subscription) :
  List.NoDup (map Endpoint rows) -> In r rows ->
  exists pre post, rows = pre ++ r :: post /\
    (forall x, In x pre -> String.eqb (Endpoint x) (Endpoint r) = false) /\
    (forall x, In x post -> String.eqb (Endpoint x) (Endpoint r) = false).
Proof.
  intros Hnd Hin. destruct (in_split _ _ Hin) as (pre & post & ->).
  exists pre, post. split; [reflexivity|].
  rewrite map_app in Hnd. simpl in Hnd.
  apply NoDup_remove_2 in Hnd. rewrite in_app_iff in Hnd.
  split; intros x Hx; apply String.eqb_neq; intros Heq; apply Hnd;
    [left | right]; rewrite <- Heq; now apply in_map.
Qed.

Lemma upsert_row_ID topic p256dh auth r : ID (upsert_row topic p256dh auth r) = ID r.
Proof. reflexivity. Qed.

Lemma upsert_row_Endpoint topic p256dh auth r :
  Endpoint (upsert_row topic p256dh auth r) = Endpoint r.
Proof. reflexivity. Qed.

(** Every operation on [subscriptions] keeps the schema's constraints. *)
Lemma schema_ok_filter (f : Subscription -> bool) rows :
  schema_ok rows -> schema_ok (List.filter f rows).
Proof.
  assert (Hgen : forall (B : Type) (g : Subscription -> B),
             List.NoDup (map g rows) -> List.NoDup (map g (List.filter f rows))).
  { intros B g. induction rows as [|a l IH]; simpl; intros H; [constructor|].
    inversion H as [|? ? Hnotin Hl]; subst.
    destruct (f a); simpl; [constructor|]; auto.
    intros Hin. apply Hnotin. apply in_map_iff in Hin as (x & <- & Hx).
    apply in_map. apply filter_In in Hx. tauto. }
  intros [H1 H2]. split; apply Hgen; assumption.
Qed.

Lemma DeleteSubscriptionByID_schema db id :
  schema_ok (subscriptions db) ->
  schema_ok (subscriptions (fst (DeleteSubscriptionByID db id))).
Proof.
  intros H. unfold DeleteSubscriptionByID. destruct (fault db); simpl; [assumption|].
  now apply schema_ok_filter.
Qed.

Lemma DeleteSubscriptionByEndpoint_schema db endpoint :
  schema_ok (subscriptions db) ->
  schema_ok (subscriptions (fst (DeleteSubscriptionByEndpoint db endpoint))).
Proof.
  intros H. unfold DeleteSubscriptionByEndpoint. destruct (fault db); simpl; [assumption|].
  now apply schema_ok_filter.
Qed.

Lemma hexdigit_inj a b : 0 <= a < 16 -> 0 <= b < 16 -> hexdigit a = hexdigit b -> a = b.
Proof.
  intros Ha Hb.
  assert (Hcases : forall x, 0 <= x < 16 ->
            x = 0 \/ x = 1 \/ x = 2 \/ x = 3 \/ x = 4 \/ x = 5 \/ x = 6 \/ x = 7 \/
            x = 8 \/ x = 9 \/ x = 10 \/ x = 11 \/ x = 12 \/ x = 13 \/ x = 14 \/ x = 15) by lia.
  destruct (Hcases a Ha) as [->|[->|[->|[->|[->|[->|[->|[->|[->|[->|[->|[->|[->|[->|[->| ->]]]]]]]]]]]]]]];
  destruct (Hcases b Hb) as [->|[->|[->|[->|[->|[->|[->|[->|[->|[->|[->|[->|[->|[->|[->| ->]]]]]]]]]]]]]]];
  simpl; intros H; try reflexivity; discriminate H.
Qed.

Lemma randomID_length (entropy : list Z) :
  String.length (randomID entropy) = (2 * length entropy)%nat.
Proof.
  unfold randomID. induction entropy as [|x l IH]; simpl; [reflexivity | rewrite IH; lia].
Qed.

Lemma randomID_inj (entropy entropy' : list Z) :
  Forall byte_ok entropy -> Forall byte_ok entropy' ->
  randomID entropy = randomID entropy' -> entropy = entropy'.
Proof.
  unfold randomID. revert entropy'.
  induction entropy as [|x l IH]; intros [|y l'] H1 H2 Heq; simpl in Heq;
    try discriminate; [reflexivity|].
  inversion H1 as [|? ? Hx Hl]; inversion H2 as [|? ? Hy Hl']; subst.
  injection Heq as Hhi Hlo Hrest. unfold byte_ok in Hx, Hy.
  apply hexdigit_inj in Hhi; [| Z.div_mod_to_equations; lia | Z.div_mod_to_equations; lia].
  apply hexdigit_inj in Hlo; [| Z.div_mod_to_equations; lia | Z.div_mod_to_equations; lia].
  f_equal; [Z.div_mod_to_equations; lia | now apply IH].
Qed.

(** C2 (amended).  On a healthy store that satisfies the schema.  The id
    [randomID] draws is the hexadecimal writing of the random bytes, two
    digits per byte, and different bytes give different ids.  When no record
    has the endpoint and the drawn id is not the id of a stored record,
    [UpsertSubscription] appends a record carrying the new id and returns
    that id with [created = true]; when no record has the endpoint and the
    drawn id is in use, the insert is refused by the primary key, the call
    fails and the store is unchanged.  When a record [r] has the endpoint,
    that record alone is rewritten in place with the new topic and keys,
    keeping its id, endpoint and creation time, and the call returns [r]'s
    id, with [created = false] whenever the drawn id is not [r]'s id.  In
    every case the table still satisfies the schema, so no endpoint occurs
    twice, and the delivery log is untouched. *)
Theorem UpsertSubscription_spec (db : DB) (entropy : list Z) (now : gotime)
    (topic endpoint p256dh auth : string) :
  fault db = None ->
  schema_ok (subscriptions db) ->
  let '(db', res) := UpsertSubscription db entropy now topic endpoint p256dh auth in
  String.length (randomID entropy) = (2 * length entropy)%nat /\
  (forall entropy', Forall byte_ok entropy -> Forall byte_ok entropy' ->
     randomID entropy = randomID entropy' -> entropy = entropy') /\
  ((forall r, In r (subscriptions db) -> Endpoint r <> endpoint) ->
     (~ In (randomID entropy) (map ID (subscriptions db)) ->
        res = Ok (randomID entropy, true) /\
        subscriptions db' =
          subscriptions db ++
            [ {| ID := randomID entropy; Topic := topic; Endpoint := endpoint;
                 KeyP256dh := p256dh; KeyAuth := auth; CreatedAt := datetime_now now |} ]) /\
     (In (randomID entropy) (map ID (subscriptions db)) ->
        res = Err (Wrapped "upsert subscription"
                     (ConstraintError "UNIQUE constraint failed: subscriptions.id")) /\
        db' = db)) /\
  (forall r, In r (subscriptions db) -> Endpoint r = endpoint ->
     (exists created, res = Ok (ID r, created)) /\
     (ID r <> randomID entropy -> res = Ok (ID r, false)) /\
     exists pre post,
       subscriptions db = pre ++ r :: post /\
       subscriptions db' =
         pre ++ {| ID := ID r; Topic := topic; Endpoint := endpoint;
                   KeyP256dh := p256dh; KeyAuth := auth; CreatedAt := CreatedAt r |} :: post) /\
  schema_ok (subscriptions db') /\
  List.NoDup (map Endpoint (subscriptions db')) /\
  delivery_log db' = delivery_log db.
Proof.
  intros Hfault [Hids Heps].
  pose proof (randomID_length entropy) as Hlen.
  pose proof (randomID_inj entropy) as Hinj.
  unfold UpsertSubscription. rewrite Hfault. unfold exec_upsert.
  set (newID := randomID entropy) in *.
  destruct (existsb (fun r => String.eqb (Endpoint r) endpoint) (subscriptions db)) eqn:Hex.
  - (* the endpoint is already registered *)
    apply existsb_exists in Hex as (r0 & Hin0 & Heq0). apply String.eqb_eq in Heq0.
    destruct (endpoint_split _ _ Heps Hin0) as (pre & post & Hrows & Hpre & Hpost).
    rewrite Heq0 in Hpre, Hpost.
    assert (Hmap : map (fun r => if String.eqb (Endpoint r) endpoint
                                 then upsert_row topic p256dh auth r else r)
                       (subscriptions db)
                   = pre ++ upsert_row topic p256dh auth r0 :: post).
    { rewrite Hrows, map_app. simpl. rewrite Heq0, String.eqb_refl.
      now rewrite !map_if_skip by assumption. }
    rewrite Hmap. unfold query_id_by_endpoint.
    rewrite find_app_skip by assumption. simpl.
    rewrite Heq0, String.eqb_refl. simpl.
    assert (Hsame : forall (B : Type) (g : Subscription -> B),
               g (upsert_row topic p256dh auth r0) = g r0 ->
               map g (pre ++ upsert_row topic p256dh auth r0 :: post)
               = map g (subscriptions db)).
    { intros B g Hg. rewrite Hrows, !map_app. simpl. now rewrite Hg. }
    assert (Hschema : schema_ok (pre ++ upsert_row topic p256dh auth r0 :: post)).
    { split; rewrite Hsame by reflexivity; assumption. }
    split; [exact Hlen|]. split; [exact Hinj|].
    split; [|split; [|split; [|split]]].
    + intros Hnone. exfalso. now apply (Hnone r0).
    + intros r Hin Hep.
      assert (r = r0) as ->.
      { rewrite Hrows in Hin. apply in_app_iff in Hin as [Hin|[Hin|Hin]].
        - apply Hpre in Hin. apply String.eqb_neq in Hin. contradiction.
        - now symmetry.
        - apply Hpost in Hin. apply String.eqb_neq in Hin. contradiction. }
      split; [eauto|]. split.
      * intros Hne. apply String.eqb_neq in Hne. now rewrite Hne.
      * exists pre, post. split; [assumption|]. unfold upsert_row. now rewrite Heq0.
    + exact Hschema.
    + apply Hschema.
    + reflexivity.
  - (* a new endpoint *)
    pose proof (proj1 (existsb_false_In _ _) Hex) as Hnone.
    destruct (existsb (fun r => String.eqb (ID r) newID) (subscriptions db)) eqn:Hid.
    + (* the drawn id is in use *)
      split; [exact Hlen|]. split; [exact Hinj|].
    split; [|split; [|split; [|split]]].
      * intros _. split; [|split; [reflexivity | now destruct db]].
        intros Hfresh. exfalso. apply Hfresh.
        apply existsb_exists in Hid as (x & Hx & E). apply String.eqb_eq in E.
        rewrite <- E. now apply in_map.
      * intros r Hin Hep. apply Hnone in Hin. apply String.eqb_neq in Hin. contradiction.
      * now split.
      * assumption.
      * reflexivity.
    + pose proof (proj1 (existsb_false_In _ _) Hid) as Hfree.
      unfold query_id_by_endpoint.
      rewrite find_app_skip by assumption. simpl.
      rewrite !String.eqb_refl. simpl.
      assert (Hschema : schema_ok (subscriptions db ++
                [ {| ID := newID; Topic := topic; Endpoint := endpoint;
                     KeyP256dh := p256dh; KeyAuth := auth; CreatedAt := datetime_now now |} ])).
      { split; rewrite map_app; simpl.
        - apply NoDup_app_snoc; [assumption|].
          intros Hin. apply in_map_iff in Hin as (x & Hx & Hxin).
          apply Hfree in Hxin. apply String.eqb_neq in Hxin. contradiction.
        - apply NoDup_app_snoc; [assumption|].
          intros Hin. apply in_map_iff in Hin as (x & Hx & Hxin).
          apply Hnone in Hxin. apply String.eqb_neq in Hxin. contradiction. }
      split; [exact Hlen|]. split; [exact Hinj|].
    split; [|split; [|split; [|split]]].
      * intros _. split; [intros _; split; reflexivity|].
        intros Hin. exfalso. apply in_map_iff in Hin as (x & Hx & Hxin).
        apply Hfree in Hxin. apply String.eqb_neq in Hxin. contradiction.
      * intros r Hin Hep. apply Hnone in Hin. apply String.eqb_neq in Hin. contradiction.
      * exact Hschema.
      * apply Hschema.
      * reflexivity.
Qed.

Lemma mem_In (x : string) (l : list string) : mem x l = true <-> In x l.
Proof.
  unfold mem. rewrite existsb_exists. split.
  - intros (y & Hy & E). apply String.eqb_eq in E. now subst.
  - intros H. exists x. split; [assumption | apply String.eqb_refl].
Qed.

Lemma mem_false (x : string) (l : list string) : mem x l = false -> ~ In x l.
Proof. intros H Hin. apply mem_In in Hin. congruence. Qed.

Lemma distinct_NoDup (l : list string) : distinct l = true -> List.NoDup l.
Proof.
  induction l as [|a l IH]; simpl; intros H; [constructor|].
  apply andb_true_iff in H as [Ha Hl]. constructor; [|auto].
  apply mem_false. now apply negb_true_iff.
Qed.

Lemma sample_db_schema_ok : schema_ok (subscriptions sample_db).
Proof. split; apply distinct_NoDup; reflexivity. Qed.

Lemma UpsertSubscription_spec_witness :
  snd (UpsertSubscription sample_db sample_entropy sample_now
         "news" (Endpoint sub_bob) "pk-rotated" "auth-rotated")
  = Ok (ID sub_bob, false).
Proof.
  pose proof (UpsertSubscription_spec sample_db sample_entropy sample_now
                "news" (Endpoint sub_bob) "pk-rotated" "auth-rotated"
                eq_refl sample_db_schema_ok) as H.
  destruct (UpsertSubscription sample_db sample_entropy sample_now
              "news" (Endpoint sub_bob) "pk-rotated" "auth-rotated") as [db' res].
  destruct H as (_ & _ & _ & H & _). simpl.
  destruct (H sub_bob) as (_ & Hres & _); [simpl; tauto | reflexivity |].
  apply Hres. discriminate.
Defined.

(** C2, as first stated, fails when the id drawn by [randomID] is already
    the id of a stored record.  With no record for the endpoint, nothing is
    created: the insert is refused by the primary key and the call fails.
    With the record of that very id holding the endpoint, the record is
    updated and keeps its id, and the call reports [created = true]. *)
Lemma UpsertSubscription_clash_counterexample :
  randomID sample_entropy = ID sub_erin /\
  fault clash_db = None /\
  (forall r, In r (subscriptions clash_db) -> Endpoint r <> "https://push.example.com/frank") /\
  UpsertSubscription clash_db sample_entropy sample_now
    "news" "https://push.example.com/frank" "pk-frank" "auth-frank"
  = (clash_db, Err (Wrapped "upsert subscription"
                      (ConstraintError "UNIQUE constraint failed: subscriptions.id"))) /\
  In sub_erin (subscriptions clash_db) /\
  snd (UpsertSubscription clash_db sample_entropy sample_now
         "sports" (Endpoint sub_erin) "pk-rotated" "auth-rotated")
  = Ok (ID sub_erin, true) /\
  length (subscriptions (fst (UpsertSubscription clash_db sample_entropy sample_now
                                "sports" (Endpoint sub_erin) "pk-rotated" "auth-rotated")))
  = length (subscriptions clash_db).
Proof.
  split; [reflexivity|]. split; [reflexivity|]. split.
  { intros r [<-|[<-|[<-|[]]]]; discriminate. }
  split; [reflexivity|]. split; [simpl; tauto|]. split; reflexivity.
Qed.

(** ** The purge-age parser *)

Lemma is_unit_not_digit u : is_unit u = true -> is_digit u = false.
Proof.
  unfold is_unit. intros H.
  destruct (Ascii.eqb_spec u "d"); [subst; reflexivity|].
  destruct (Ascii.eqb_spec u "h"); [subst; reflexivity|].
  destruct (Ascii.eqb_spec u "m"); [subst; reflexivity|].
  discriminate.
Qed.

Lemma span_digits_append ds tl :
  all_digits ds = true -> starts_without_digit tl ->
  span_digits (ds ++ tl)%string = (ds, tl).
Proof.
  induction ds as [|c ds IH]; simpl; intros Hds Htl.
  - destruct tl as [|c tl]; simpl in *; [reflexivity | now rewrite Htl].
  - apply andb_true_iff in Hds as [Hc Hds]. rewrite Hc, IH; auto.
Qed.

Lemma span_digits_spec s :
  s = (fst (span_digits s) ++ snd (span_digits s))%string /\
  all_digits (fst (span_digits s)) = true /\
  starts_without_digit (snd (span_digits s)).
Proof.
  induction s as [|c s (IH1 & IH2 & IH3)]; simpl; [auto|].
  destruct (is_digit c) eqn:Hc.
  - destruct (span_digits s) as [ds tl]. simpl in *.
    rewrite Hc. repeat split; auto. rewrite IH1 at 1. reflexivity.
  - simpl. auto.
Qed.

(** The matcher accepts exactly the tokens, and its groups are the digits
    and the unit. *)
Lemma durationRe_match_iff s m1 m2 :
  durationRe_FindStringSubmatch s = Some (m1, m2) <->
  exists u, m2 = String u EmptyString /\ duration_token s m1 u.
Proof.
  unfold durationRe_FindStringSubmatch, duration_token. split.
  - pose proof (span_digits_spec s) as (H1 & H2 & H3).
    destruct (span_digits s) as [ds tl]. simpl in *.
    destruct ds as [|c ds]; [discriminate|].
    destruct tl as [|u [|? ?]]; try discriminate.
    destruct (is_unit u) eqn:Hu; [|discriminate].
    intros [= <- <-]. exists u. repeat split; auto.
  - intros (u & -> & -> & Hne & Hds & Hu).
    rewrite span_digits_append; auto.
    + destruct m1; [contradiction|]. now rewrite Hu.
    + simpl. now apply is_unit_not_digit.
Qed.

Lemma durationRe_no_match s :
  durationRe_FindStringSubmatch s = None <-> ~ exists ds u, duration_token s ds u.
Proof.
  split.
  - intros H (ds & u & Htok).
    assert (durationRe_FindStringSubmatch s = Some (ds, String u EmptyString)) as E.
    { apply durationRe_match_iff. eauto. }
    congruence.
  - intros H. destruct (durationRe_FindStringSubmatch s) as [[m1 m2]|] eqn:E; [|reflexivity].
    apply durationRe_match_iff in E as (u & _ & Htok). exfalso. eauto.
Qed.

Lemma digit_value_range c : is_digit c = true -> 0 <= digit_value c <= 9.
Proof.
  unfold is_digit, digit_value. intros H.
  apply andb_true_iff in H as [H1 H2]. lia.
Qed.

Lemma decimal_nonneg s : forall acc, all_digits s = true -> 0 <= acc -> acc <= decimal acc s.
Proof.
  induction s as [|c s IH]; simpl; intros acc H Hacc; [lia|].
  apply andb_true_iff in H as [Hc Hs]. pose proof (digit_value_range c Hc).
  specialize (IH (acc * 10 + digit_value c) Hs). lia.
Qed.

(** [Atoi] on a plain run of digits: the value, clamped at the largest
    [int]. *)
Lemma Atoi_digits ds :
  ds <> EmptyString -> all_digits ds = true ->
  fst (Atoi ds) = Z.min (decimal 0 ds) MaxInt64.
Proof.
  intros Hne Hds. unfold Atoi.
  destruct ds as [|c ds]; [contradiction|].
  pose proof Hds as Hds'. simpl in Hds'. apply andb_true_iff in Hds' as [Hc _].
  destruct (Ascii.eqb_spec c "-"); [subst; discriminate|].
  destruct (Ascii.eqb_spec c "+"); [subst; discriminate|].
  rewrite Hds.
  destruct (MaxInt64 <? decimal 0 (String c ds)) eqn:E; cbn [fst].
  - apply Z.ltb_lt in E. lia.
  - apply Z.ltb_ge in E. lia.
Qed.

Lemma unit_ns_pos u : 1 <= unit_ns u.
Proof.
  unfold unit_ns, Hour, Minute, Second.
  destruct (Ascii.eqb u "d"), (Ascii.eqb u "h"); lia.
Qed.

(** The value [parseDuration] computes on a token, overflow included. *)
Lemma parseDuration_token s ds u :
  duration_token s ds u ->
  parseDuration s =
    Ok (if Ascii.eqb u "d" then mul64 (mul64 (Z.min (decimal 0 ds) MaxInt64) 24) Hour
        else mul64 (Z.min (decimal 0 ds) MaxInt64) (unit_ns u)).
Proof.
  intros Htok. pose proof Htok as (Hs & Hne & Hds & Hu).
  unfold parseDuration.
  assert (durationRe_FindStringSubmatch s = Some (ds, String u EmptyString)) as ->.
  { apply durationRe_match_iff. eauto. }
  rewrite Atoi_digits by assumption. unfold unit_ns.
  unfold is_unit in Hu.
  destruct (Ascii.eqb_spec u "d") as [->|Hd]; [reflexivity|].
  destruct (Ascii.eqb_spec u "h") as [->|Hh]; [reflexivity|].
  destruct (Ascii.eqb_spec u "m") as [->|Hm]; [reflexivity|].
  discriminate.
Qed.

(** What [parseDuration] does on every string.  It succeeds exactly on a
    non-empty run of decimal digits followed by one of [d], [h], [m].  On
    such a token it returns that many days, hours or minutes whenever the
    product fits the signed 64-bit nanosecond count of a [time.Duration].
    Every other string fails with the invalid-duration error, and the purge
    handler given such a parameter answers 400 and leaves the store as it
    was. *)
Theorem parseDuration_spec (s : string) :
  (is_ok (parseDuration s) = true <-> exists ds u, duration_token s ds u) /\
  (forall ds u, duration_token s ds u ->
     decimal 0 ds * unit_ns u <= MaxInt64 ->
     parseDuration s = Ok (decimal 0 ds * unit_ns u)) /\
  ((~ exists ds u, duration_token s ds u) ->
     parseDuration s = Err (InvalidDuration s) /\
     (s <> EmptyString -> forall db now,
        HandlePurgeDeliveryLog db now s =
          (db, {| status := StatusBadRequest;
                  payload_body := ErrorOf (InvalidDuration s) |}))).
Proof.
  split; [|split].
  - split.
    + intros H. unfold parseDuration in H.
      destruct (durationRe_FindStringSubmatch s) as [[m1 m2]|] eqn:E; [|discriminate].
      apply durationRe_match_iff in E as (u & _ & Htok). eauto.
    + intros (ds & u & Htok). now rewrite (parseDuration_token _ _ _ Htok).
  - intros ds u Htok Hfit. rewrite (parseDuration_token _ _ _ Htok).
    destruct Htok as (_ & _ & Hds & _).
    pose proof (decimal_nonneg ds 0 Hds ltac:(lia)) as Hv.
    revert Hfit. unfold unit_ns, mul64.
    destruct (Ascii.eqb u "d"); [|destruct (Ascii.eqb u "h")];
      unfold Hour, Minute, Second, MaxInt64; intros Hfit;
      rewrite Z.min_l by lia;
      rewrite !wrap64_small by (unfold MinInt64, MaxInt64; try rewrite wrap64_small;
                                unfold MinInt64, MaxInt64; lia);
      f_equal; lia.
  - intros Hno. apply durationRe_no_match in Hno.
    assert (parseDuration s = Err (InvalidDuration s)) as Hp.
    { unfold parseDuration. now rewrite Hno. }
    split; [exact Hp|].
    intros Hne db now. unfold HandlePurgeDeliveryLog.
    destruct (String.eqb_spec s ""); [contradiction|]. now rewrite Hp.
Qed.

Lemma parseDuration_spec_witness :
  parseDuration "30d" = Ok (30 * (24 * Hour)) /\
  parseDuration "1h30m" = Err (InvalidDuration "1h30m").
Proof.
  pose proof (parseDuration_spec "30d") as (_ & Hval & _).
  pose proof (parseDuration_spec "1h30m") as (Hok & _ & Herr).
  split.
  - apply (Hval "30" "d"%char); [repeat split; discriminate | vm_compute; discriminate].
  - apply Herr. intros Htok. apply Hok in Htok. discriminate Htok.
Defined.

(** C5.  The token [106752d] is a number of days, and [parseDuration]
    accepts it, but what it returns is not 106752 days: the product
    [time.Duration(n) * 24 * time.Hour] exceeds the largest [int64], is not
    checked and wraps around to a negative duration.  The purge handler then
    takes a cut-off that lies in the future and deletes the whole log, the
    entries of the last ten days included. *)
Theorem parseDuration_overflow :
  duration_token "106752d" "106752" "d" /\
  decimal 0 "106752" * unit_ns "d" = 106752 * (24 * Hour) /\
  MaxInt64 < 106752 * (24 * Hour) /\
  parseDuration "106752d" = Ok (-9223371273709551616) /\
  parseDuration "106752d" <> Ok (106752 * (24 * Hour)) /\
  HandlePurgeDeliveryLog aged_db sample_now "106752d" =
    (set_delivery_log aged_db [] 3,
     {| status := StatusOK; payload_body := DeletedBody 3 |}).
Proof.
  split; [repeat split; discriminate|].
  split; [reflexivity|]. split; [reflexivity|].
  split; [reflexivity|]. split; [vm_compute; discriminate | reflexivity].
Qed.

(** ** Delivery log retention *)

Lemma filter_partition {A : Type} (f : A -> bool) (l : list A) :
  Permutation l (List.filter f l ++ List.filter (fun x => negb (f x)) l).
Proof.
  induction l as [|a l IH]; simpl; [constructor|].
  destruct (f a); simpl.
  - now constructor.
  - now apply Permutation_cons_app.
Qed.

Lemma filter_sublist {A : Type} (f : A -> bool) (l : list A) :
  sublist (List.filter f l) l.
Proof.
  induction l as [|a l IH]; simpl; [constructor|].
  destruct (f a); now constructor.
Qed.

(** A stored second lies before the formatted cut-off exactly when that
    whole second has elapsed at the cut-off instant. *)
Lemma before_Format (t : datetime) (c : gotime) :
  t < Format c <-> (t + 1) * Second <= c.
Proof.
  unfold Format, Second. split; intros H.
  - assert (t + 1 <= c / 1000000000) as H' by lia.
    pose proof (Z.mul_div_le c 1000000000 ltac:(lia)). nia.
  - assert (t + 1 <= c / 1000000000); [|lia].
    apply Z.div_le_lower_bound; lia.
Qed.

(** For every duration but the least one the cut-off lies that duration
    before the present. *)
Lemma purge_cutoff_exact (now : gotime) (olderThan : Z) :
  MinInt64 < olderThan <= MaxInt64 -> purge_cutoff now olderThan = now - olderThan.
Proof.
  intros H. unfold purge_cutoff, neg64.
  rewrite wrap64_small by (unfold MinInt64, MaxInt64 in *; lia). lia.
Qed.

(** C6 (amended).  On a healthy store and for every duration other than
    the least [int64], [PurgeDeliveryLog] splits the log in two: the deleted
    entries are exactly those whose [sent_at] is strictly before
    [now - olderThan] truncated to whole seconds, the others stay in the log
    unchanged and in order, the subscriptions are untouched, and the returned
    count is the number of deleted entries.  With entries aged 10, 29 and 31
    days, purging with the token [30d] deletes the 31-day entry only and
    reports one deletion. *)
Theorem PurgeDeliveryLog_spec :
  (forall (db : DB) (now : gotime) (olderThan : Z),
     fault db = None ->
     MinInt64 < olderThan <= MaxInt64 ->
     let '(db', res) := PurgeDeliveryLog db now olderThan in
     exists deleted,
       Permutation (delivery_log db) (deleted ++ delivery_log db') /\
       Forall (fun e => sent_at e < Format (now - olderThan)) deleted /\
       Forall (fun e => ~ sent_at e < Format (now - olderThan)) (delivery_log db') /\
       sublist (delivery_log db') (delivery_log db) /\
       res = Ok (Z.of_nat (length deleted)) /\
       subscriptions db' = subscriptions db) /\
  HandlePurgeDeliveryLog aged_db sample_now "30d" =
    (set_delivery_log aged_db [entry_aged 1 10; entry_aged 2 29] 3,
     {| status := StatusOK; payload_body := DeletedBody 1 |}).
Proof.
  split; [|reflexivity].
  intros db now olderThan Hfault Hrange. unfold PurgeDeliveryLog. rewrite Hfault.
  rewrite (purge_cutoff_exact now olderThan Hrange).
  set (cutoff := Format (now - olderThan)).
  exists (List.filter (fun e => sent_at e <? cutoff) (delivery_log db)). simpl.
  repeat split.
  - apply filter_partition.
  - apply List.Forall_forall. intros e He. apply filter_In in He as [_ He].
    now apply Z.ltb_lt.
  - apply List.Forall_forall. intros e He. apply filter_In in He as [_ He].
    apply negb_true_iff in He. now apply Z.ltb_ge in He; lia.
  - apply filter_sublist.
Qed.

Lemma PurgeDeliveryLog_spec_witness :
  exists deleted,
    Permutation (delivery_log aged_db)
                (deleted ++ delivery_log (fst (PurgeDeliveryLog aged_db sample_now (30 * (24 * Hour))))) /\
    snd (PurgeDeliveryLog aged_db sample_now (30 * (24 * Hour))) = Ok (Z.of_nat (length deleted)).
Proof.
  pose proof (proj1 PurgeDeliveryLog_spec aged_db sample_now (30 * (24 * Hour)) eq_refl) as H.
  assert (Hrange : MinInt64 < 30 * (24 * Hour) <= MaxInt64)
    by (split; [reflexivity | discriminate]).
  specialize (H Hrange).
  destruct (PurgeDeliveryLog aged_db sample_now (30 * (24 * Hour))) as [db' res].
  destruct H as (deleted & Hperm & _ & _ & _ & Hres & _).
  exists deleted. split; assumption.
Defined.

(** C6, as first stated, fails below the second: an entry stamped 22:12:20
    is strictly before the instant 22:12:20.5 that lies one minute before
    [sample_now], yet purging with [1m] keeps it, because the cut-off is
    compared after being formatted to the second.  It also fails at the
    least [int64], the duration of the token [140737488355328d]: every entry
    of the sample log is strictly before [now - olderThan], and none is
    deleted, because the negation of that duration is the duration itself. *)
Lemma PurgeDeliveryLog_subsecond_counterexample :
  parseDuration "1m" = Ok (60 * Second) /\
  sent_at minute_old_entry * Second < sample_now - 60 * Second /\
  PurgeDeliveryLog minute_old_db sample_now (60 * Second) = (minute_old_db, Ok 0) /\
  HandlePurgeDeliveryLog minute_old_db sample_now "1m" =
    (minute_old_db, {| status := StatusOK; payload_body := DeletedBody 0 |}) /\
  parseDuration "140737488355328d" = Ok MinInt64 /\
  Forall (fun e => sent_at e * Second < sample_now - MinInt64) (delivery_log aged_db) /\
  PurgeDeliveryLog aged_db sample_now MinInt64 = (aged_db, Ok 0).
Proof.
  repeat split; try reflexivity.
  repeat constructor.
Qed.

(** ** VAPID keys *)

(** *** Bit operations as arithmetic *)

Lemma lor_disjoint (a lo k : Z) :
  0 <= k -> a mod 2 ^ k = 0 -> 0 <= lo < 2 ^ k -> Z.lor a lo = a + lo.
Proof.
  intros Hk Ha Hlo. symmetry. apply Z.add_nocarry_lor.
  apply Z.bits_inj'. intros n Hn. rewrite Z.land_spec, Z.bits_0.
  destruct (Z.lt_ge_cases n k) as [Hlt|Hge].
  - rewrite <- (Z.mod_pow2_bits_low a k n) by lia.
    rewrite Ha, Z.bits_0. reflexivity.
  - rewrite <- (Z.mod_small lo (2 ^ k)) by lia.
    rewrite Z.mod_pow2_bits_high by lia. apply andb_false_r.
Qed.

Lemma land_63 x : Z.land x 63 = x mod 64.
Proof. change 63 with (Z.ones 6). now rewrite Z.land_ones by lia. Qed.

Lemma byte_mod x : byte x = x mod 256.
Proof. unfold byte. change 255 with (Z.ones 8). now rewrite Z.land_ones by lia. Qed.

Lemma pack3 b0 b1 b2 :
  byte_ok b0 -> byte_ok b1 -> byte_ok b2 ->
  Z.lor (Z.lor (Z.shiftl b0 16) (Z.shiftl b1 8)) b2 = b0 * 65536 + b1 * 256 + b2.
Proof.
  unfold byte_ok. intros H0 H1 H2. rewrite !Z.shiftl_mul_pow2 by lia.
  change (2 ^ 16) with 65536. change (2 ^ 8) with 256.
  rewrite (lor_disjoint (b0 * 65536) (b1 * 256) 16); [| lia | | lia].
  - apply (lor_disjoint _ b2 8); [lia | | lia].
    change (2 ^ 8) with 256. Z.div_mod_to_equations. lia.
  - change (2 ^ 16) with 65536. Z.div_mod_to_equations. lia.
Qed.

Lemma pack4 d0 d1 d2 d3 :
  0 <= d0 < 64 -> 0 <= d1 < 64 -> 0 <= d2 < 64 -> 0 <= d3 < 64 ->
  Z.lor (Z.lor (Z.lor (Z.shiftl d0 18) (Z.shiftl d1 12)) (Z.shiftl d2 6)) d3
  = d0 * 262144 + d1 * 4096 + d2 * 64 + d3.
Proof.
  intros H0 H1 H2 H3. rewrite !Z.shiftl_mul_pow2 by lia.
  change (2 ^ 18) with 262144. change (2 ^ 12) with 4096. change (2 ^ 6) with 64.
  rewrite (lor_disjoint (d0 * 262144) (d1 * 4096) 18); [| lia | | lia].
  - rewrite (lor_disjoint _ (d2 * 64) 12); [| lia | | lia].
    + apply (lor_disjoint _ d3 6); [lia | | lia].
      change (2 ^ 6) with 64. Z.div_mod_to_equations. lia.
    + change (2 ^ 12) with 4096. Z.div_mod_to_equations. lia.
  - change (2 ^ 18) with 262144. Z.div_mod_to_equations. lia.
Qed.

Lemma sextet_range x : 0 <= Z.land x 63 < 64.
Proof. rewrite land_63. apply Z.mod_pos_bound. lia. Qed.

Lemma decodeURL_encodeURL n : 0 <= n < 64 -> decodeURL (encodeURL n) = Some n.
Proof.
  intros H. assert (Hn : n = Z.of_nat (Z.to_nat n)) by lia.
  assert (Hk : (Z.to_nat n < 64)%nat) by lia.
  revert Hn Hk. generalize (Z.to_nat n) as k. intros k -> Hk.
  do 64 (destruct k as [|k]; [reflexivity|]). lia.
Qed.

Ltac arith_bits :=
  rewrite ?byte_mod, ?land_63, ?Z.shiftr_div_pow2 by lia;
  change (2 ^ 18) with 262144; change (2 ^ 16) with 65536;
  change (2 ^ 12) with 4096; change (2 ^ 8) with 256; change (2 ^ 6) with 64.

(** *** base64 round trip *)

Lemma DecodeString_Encode3 b0 b1 b2 rest :
  byte_ok b0 -> byte_ok b1 -> byte_ok b2 ->
  DecodeString (EncodeToString (b0 :: b1 :: b2 :: rest)) =
  option_map (fun tl => b0 :: b1 :: b2 :: tl) (DecodeString (EncodeToString rest)).
Proof.
  intros H0 H1 H2. unfold DecodeString. cbn [EncodeToString decode_chars].
  rewrite pack3 by assumption.
  rewrite !decodeURL_encodeURL by apply sextet_range.
  destruct (decode_chars (EncodeToString rest)) as [d|]; cbn [option_map]; [|reflexivity].
  cbn [decode_quanta]. rewrite pack4 by apply sextet_range.
  destruct (decode_quanta d); cbn [option_map]; [|reflexivity].
  unfold byte_ok in *. arith_bits.
  f_equal. f_equal; [|f_equal; [|f_equal]]; Z.div_mod_to_equations; lia.
Qed.

Lemma DecodeString_Encode2 b0 b1 :
  byte_ok b0 -> byte_ok b1 ->
  DecodeString (EncodeToString [b0; b1]) = Some [b0; b1].
Proof.
  intros H0 H1. unfold DecodeString. cbn [EncodeToString decode_chars].
  rewrite <- (Z.lor_0_r (Z.lor _ _)).
  rewrite pack3 by (unfold byte_ok in *; auto; lia).
  rewrite !decodeURL_encodeURL by apply sextet_range.
  cbn [option_map decode_quanta].
  rewrite <- (Z.lor_0_r (Z.lor _ _)).
  rewrite pack4 by (try apply sextet_range; lia).
  unfold byte_ok in *. arith_bits.
  f_equal. f_equal; [|f_equal]; Z.div_mod_to_equations; lia.
Qed.

Lemma DecodeString_Encode1 b0 :
  byte_ok b0 -> DecodeString (EncodeToString [b0]) = Some [b0].
Proof.
  intros H0. unfold DecodeString. cbn [EncodeToString decode_chars].
  rewrite !decodeURL_encodeURL by apply sextet_range.
  cbn [option_map decode_quanta].
  rewrite (lor_disjoint _ _ 18) by
    (rewrite ?Z.shiftl_mul_pow2 by lia; arith_bits; try lia;
     Z.div_mod_to_equations; lia).
  rewrite !Z.shiftl_mul_pow2 by lia.
  unfold byte_ok in *. arith_bits.
  f_equal. f_equal. Z.div_mod_to_equations. lia.
Qed.

Lemma list_ind3 {A : Type} (P : list A -> Prop) :
  P [] -> (forall a, P [a]) -> (forall a b, P [a; b]) ->
  (forall a b c l, P l -> P (a :: b :: c :: l)) ->
  forall l, P l.
Proof.
  intros H0 H1 H2 H3 l.
  assert (P l /\ (forall a, P (a :: l)) /\ (forall a b, P (a :: b :: l))) as [H _].
  { induction l as [|x l (IH0 & IH1 & IH2)]; repeat split; auto. }
  exact H.
Qed.

(** Decoding undoes encoding on every byte slice. *)
Lemma DecodeString_EncodeToString (src : list Z) :
  Forall byte_ok src -> DecodeString (EncodeToString src) = Some src.
Proof.
  induction src as [| a | a b | a b c l IH] using list_ind3; intros H.
  - reflexivity.
  - inversion H; subst. now apply DecodeString_Encode1.
  - inversion H as [|? ? Ha Hb]; inversion Hb; subst. now apply DecodeString_Encode2.
  - inversion H as [|? ? Ha Hb]; inversion Hb as [|? ? Hb' Hc]; inversion Hc; subst.
    rewrite DecodeString_Encode3 by assumption. now rewrite IH.
Qed.

(** *** big-endian bytes *)

Lemma be_bytes_length n x : length (be_bytes n x) = n.
Proof. induction n; simpl; auto. Qed.

Lemma be_bytes_ok n x : Forall byte_ok (be_bytes n x).
Proof.
  induction n; simpl; constructor; auto.
  apply Z.mod_pos_bound. lia.
Qed.

Lemma fold_be_bytes n x acc :
  fold_left (fun a b => a * 256 + b) (be_bytes n x) acc
  = acc * 256 ^ Z.of_nat n + x mod 256 ^ Z.of_nat n.
Proof.
  revert acc. induction n as [|k IH]; intros acc.
  - simpl. rewrite Z.mod_1_r. lia.
  - cbn [be_bytes fold_left]. rewrite IH.
    replace (Z.of_nat (S k)) with (Z.of_nat k + 1) by lia.
    rewrite Z.pow_add_r, Z.pow_1_r by lia.
    assert (0 < 256 ^ Z.of_nat k) by (apply Z.pow_pos_nonneg; lia).
    rewrite (Z.rem_mul_r x (256 ^ Z.of_nat k) 256) by lia. ring.
Qed.

Lemma SetBytes_be_bytes n x :
  0 <= x < 256 ^ Z.of_nat n -> SetBytes (be_bytes n x) = x.
Proof.
  intros H. unfold SetBytes. rewrite fold_be_bytes, Z.mod_small by assumption. lia.
Qed.

Lemma FillBytes_fits x n :
  0 <= x < 256 ^ Z.of_nat n -> FillBytes x n = Some (be_bytes n x).
Proof.
  intros H. unfold FillBytes. destruct (Z.ltb_spec x (256 ^ Z.of_nat n)); [reflexivity | lia].
Qed.

Lemma P256_P_fits : P256_P < 256 ^ Z.of_nat 32.
Proof. reflexivity. Qed.

Lemma P256_N_fits : P256_N < 256 ^ Z.of_nat 32.
Proof. reflexivity. Qed.

Lemma IsOnCurve_range x y : IsOnCurve x y = true -> 0 <= x < P256_P /\ 0 <= y < P256_P.
Proof.
  unfold IsOnCurve. rewrite !andb_true_iff.
  intros ((((H1 & H2) & H3) & H4) & _). lia.
Qed.

(** *** points *)

Lemma Unmarshal_Marshal x y :
  IsOnCurve x y = true ->
  elliptic_Marshal x y = Some (4 :: be_bytes 32 x ++ be_bytes 32 y) /\
  elliptic_Unmarshal (4 :: be_bytes 32 x ++ be_bytes 32 y) = Some (x, y).
Proof.
  intros Hon. pose proof (IsOnCurve_range _ _ Hon) as [Hx Hy].
  pose proof P256_P_fits as Hp.
  unfold elliptic_Marshal, elliptic_Unmarshal.
  rewrite !FillBytes_fits by lia. split; [reflexivity|].
  rewrite length_app, !be_bytes_length. cbn [Nat.add Nat.eqb].
  pose proof (take_app_length (be_bytes 32 x) (be_bytes 32 y)) as Ht.
  pose proof (drop_app_length (be_bytes 32 x) (be_bytes 32 y)) as Hd.
  rewrite be_bytes_length in Ht, Hd. rewrite Ht, Hd.
  rewrite !SetBytes_be_bytes by lia. now rewrite Hon.
Qed.

(** C7.  Whatever key [ecdsa.GenerateKey] produced, [GenerateVAPIDKeys]
    returns two strings on which [ParseVAPIDKeys] succeeds; the parsed key is
    the generated one, and marshalling and encoding its public point again
    gives back the generated public key string. *)
Theorem VAPID_roundtrip (priv : PrivateKey) :
  generated_ok priv ->
  exists publicKey privateKey key,
    GenerateVAPIDKeys (Ok priv) = Ok (publicKey, privateKey) /\
    ParseVAPIDKeys publicKey privateKey = Ok key /\
    key = priv /\
    option_map EncodeToString (elliptic_Marshal (X key) (Y key)) = Some publicKey.
Proof.
  intros [Hon HD]. destruct (Unmarshal_Marshal _ _ Hon) as [Hm Hu].
  pose proof P256_N_fits as Hn.
  exists (EncodeToString (4 :: be_bytes 32 (X priv) ++ be_bytes 32 (Y priv))),
         (EncodeToString (be_bytes 32 (D priv))), priv.
  assert (Hbytes : Forall byte_ok (4 :: be_bytes 32 (X priv) ++ be_bytes 32 (Y priv))).
  { constructor; [unfold byte_ok; lia|]. apply Forall_app; split; apply be_bytes_ok. }
  split; [|split; [|split]].
  - unfold GenerateVAPIDKeys. rewrite Hm. now rewrite FillBytes_fits by lia.
  - unfold ParseVAPIDKeys.
    rewrite DecodeString_EncodeToString by assumption. rewrite Hu.
    rewrite DecodeString_EncodeToString by apply be_bytes_ok.
    rewrite SetBytes_be_bytes by lia. now destruct priv.
  - reflexivity.
  - now rewrite Hm.
Qed.

(** ** The fan-out *)

(** *** Positional bookkeeping *)

Section Iflat.
Context {A B : Type}.
Variable f : nat -> A -> list B.

Lemma iflat_from_insert (l : list A) : forall (k i : nat) (x y : A),
  l !! i = Some x ->
  exists pre post,
    iflat_from f k l = pre ++ f (k + i)%nat x ++ post /\
    iflat_from f k (<[i := y]> l) = pre ++ f (k + i)%nat y ++ post.
Proof.
  induction l as [|a l IH]; intros k i x y Hi; [discriminate|].
  destruct i as [|i]; simpl in *.
  - injection Hi as ->. exists [], (iflat_from f (S k) l).
    rewrite Nat.add_0_r. split; reflexivity.
  - destruct (IH (S k) i x y Hi) as (pre & post & E1 & E2).
    exists (f k a ++ pre), post. rewrite E1, E2.
    replace (k + S i)%nat with (S k + i)%nat by lia.
    rewrite <- !app_assoc. split; reflexivity.
Qed.

(** Replacing an entry that accounts for the same things changes nothing. *)
Lemma iflat_from_insert_same (l : list A) k i x y :
  l !! i = Some x -> f (k + i)%nat y = f (k + i)%nat x ->
  iflat_from f k (<[i := y]> l) = iflat_from f k l.
Proof.
  intros Hi Hf. destruct (iflat_from_insert l k i x y Hi) as (pre & post & E1 & E2).
  now rewrite E1, E2, Hf.
Qed.

(** Replacing an entry that accounted for nothing by one that accounts
    for [v] adds [v]. *)
Lemma iflat_from_insert_new (l : list A) k i x y v :
  l !! i = Some x -> f (k + i)%nat x = [] -> f (k + i)%nat y = [v] ->
  Permutation (iflat_from f k l ++ [v]) (iflat_from f k (<[i := y]> l)).
Proof.
  intros Hi Hx Hy. destruct (iflat_from_insert l k i x y Hi) as (pre & post & E1 & E2).
  rewrite E1, E2, Hx, Hy. simpl.
  rewrite <- app_assoc. apply Permutation_app_head.
  symmetry. apply Permutation_cons_append.
Qed.

Lemma iflat_from_ext (g : nat -> A -> list B) (l : list A) : forall k,
  (forall i x, l !! i = Some x -> f (k + i)%nat x = g (k + i)%nat x) ->
  iflat_from f k l = iflat_from g k l.
Proof.
  induction l as [|a l IH]; intros k H; simpl; [reflexivity|].
  rewrite <- (Nat.add_0_r k) at 1 3. rewrite (H 0%nat a eq_refl).
  rewrite Nat.add_0_r. f_equal. apply IH. intros i x Hi.
  replace (S k + i)%nat with (k + S i)%nat by lia. now apply H.
Qed.
End Iflat.

Lemma iflat_from_map {A B C : Type} (h : A -> C) (f : nat -> C -> list B) (l : list A) :
  forall k, iflat_from f k (map h l) = iflat_from (fun i x => f i (h x)) k l.
Proof. induction l as [|a l IH]; intros k; simpl; [reflexivity | now rewrite IH]. Qed.

Lemma iflat_from_singletons {A B : Type} (f : nat -> A -> B) (l : list A) :
  forall k, length (iflat_from (fun i x => [f i x]) k l) = length l.
Proof. induction l as [|a l IH]; intros k; simpl; [reflexivity | now rewrite IH]. Qed.

Lemma map_fst_insert {A B : Type} (l : list (A * B)) i a b b' :
  l !! i = Some (a, b) -> map fst (<[i := (a, b')]> l) = map fst l.
Proof.
  revert i. induction l as [|x l IH]; intros [|i] H; simpl in *; try discriminate.
  - now injection H as ->.
  - f_equal. now apply IH.
Qed.

Lemma pushes_of_app t1 t2 : pushes_of (t1 ++ t2) = pushes_of t1 ++ pushes_of t2.
Proof. apply flat_map_app. Qed.

Lemma pushes_of_error_events (f : error -> event) e :
  (forall x i c, f x <> EvPush i c) -> pushes_of (error_events f e) = [].
Proof.
  intros Hf. destruct e as [x|]; simpl; [|reflexivity].
  specialize (Hf x). destruct (f x); try reflexivity. now destruct (Hf i call).
Qed.

(** *** Invariants of a run *)

Section FanOutInvariants.
Variable deliver : nat -> PushCall -> PushResponse.
Variable payload : blob.
Variable vapid : VAPID.

Lemma fo_run_invariant (P : FanOut -> Prop) :
  (forall c st st', P st -> fo_step deliver payload vapid c st = Some st' -> P st') ->
  forall sched st st',
    P st -> fo_run deliver payload vapid sched st = Some st' -> P st'.
Proof.
  intros Hstep sched. induction sched as [|c sched IH]; simpl; intros st st' HP Hrun.
  - now injection Hrun as <-.
  - destruct (fo_step deliver payload vapid c st) as [st1|] eqn:E; [|discriminate].
    eapply IH; [|exact Hrun]. eapply Hstep; eauto.
Qed.

(** The seven ways a scheduling decision can move the state on: spawn,
    push, log, evict, skip the eviction, report, and the passing of
    time. *)
Ltac step_cases H i s r E db' e EL Hst :=
  match type of H with
  | fo_step _ _ _ ?c ?st = Some _ =>
    unfold fo_step in H;
    destruct c as [| i | ?d]; cbv beta iota in H;
    [ destruct (fo_sem st <? pushConcurrency)%nat; [|discriminate H];
      destruct (fo_tasks st !! fo_next st) as [[s [| | r | r | r | r]]|] eqn:E;
      try discriminate H
    | destruct (fo_tasks st !! i) as [[s [| | r | r | r | r]]|] eqn:E;
      try discriminate H;
      [ | destruct (LogDelivery (fo_db st) (fo_clock st) (ID s) (statusCode r) (errMsg r))
            as [db' e] eqn:EL
        | destruct (stale r) eqn:Hst;
          [ destruct (DeleteSubscriptionByID (fo_db st) (ID s)) as [db' e] eqn:EL | ]
        | ]
    | ];
    injection H as <-; cbn [advance fo_db fo_clock fo_tasks fo_next fo_sem fo_results fo_trace]
  end.

(** The workers keep their subscribers. *)
Lemma step_tasks c st st' :
  fo_step deliver payload vapid c st = Some st' ->
  map fst (fo_tasks st') = map fst (fo_tasks st).
Proof.
  intros H. step_cases H i s r E db' e EL Hst;
    try reflexivity; eapply map_fst_insert; eassumption.
Qed.

Lemma step_responses c st st' :
  responses_agree deliver payload vapid st -> fo_step deliver payload vapid c st = Some st' ->
  responses_agree deliver payload vapid st'.
Proof.
  intros Inv H. unfold responses_agree in *.
  step_cases H i s r E db' e EL Hst; try assumption;
    intros j s' ph' r' Hj Hph;
    (destruct (decide (j = i)) as [->|Hne] ||
     destruct (decide (j = fo_next st)) as [->|Hne]);
    try (rewrite list_lookup_insert_ne in Hj by congruence; eapply Inv; eassumption);
    rewrite list_lookup_insert_eq in Hj by (eapply lookup_lt_Some; eassumption);
    injection Hj as <- <-; simpl in Hph; try discriminate;
    injection Hph as <-; try reflexivity; eapply Inv; try eassumption; reflexivity.
Qed.

Lemma step_results c st st' :
  results_agree st -> fo_step deliver payload vapid c st = Some st' ->
  results_agree st'.
Proof.
  intros Inv H. unfold results_agree in *.
  step_cases H i s r E db' e EL Hst; try assumption;
    try (erewrite iflat_from_insert_same; [eassumption | eassumption | reflexivity]).
  etransitivity; [apply Permutation_app_tail; exact Inv|].
  eapply iflat_from_insert_new; [eassumption | reflexivity | reflexivity].
Qed.

Lemma step_pushes c st st' :
  pushes_agree payload vapid st -> fo_step deliver payload vapid c st = Some st' ->
  pushes_agree payload vapid st'.
Proof.
  intros Inv H. unfold pushes_agree in *.
  step_cases H i s r E db' e EL Hst; try assumption;
    rewrite ?pushes_of_app; cbn [pushes_of flat_map];
    rewrite ?pushes_of_error_events by discriminate;
    rewrite ?app_nil_r;
    try (erewrite iflat_from_insert_same; [eassumption | eassumption | reflexivity]).
  etransitivity; [apply Permutation_app_tail; exact Inv|].
  eapply iflat_from_insert_new; [eassumption | reflexivity | reflexivity].
Qed.

Lemma step_log db0 c st st' :
  log_agrees db0 st -> fo_step deliver payload vapid c st = Some st' ->
  log_agrees db0 st'.
Proof.
  intros (Hf & appended & Hlog & Hperm) H. unfold log_agrees.
  step_cases H i s r E db' e EL Hst;
    try (split; [assumption|]; exists appended; split; [assumption|];
         erewrite iflat_from_insert_same; [eassumption | eassumption | reflexivity]);
    try (split; [assumption|]; exists appended; split; assumption).
  - (* LogDelivery *)
    unfold LogDelivery in EL. rewrite Hf in EL. injection EL as <- <-.
    split; [assumption|]. cbn [delivery_log set_delivery_log].
    eexists. split; [rewrite Hlog, <- app_assoc; reflexivity|].
    rewrite map_app. cbn [map log_key subscription_id status_code log_error].
    etransitivity; [apply Permutation_app_tail; exact Hperm|].
    eapply iflat_from_insert_new; [eassumption | reflexivity | reflexivity].
  - (* DeleteSubscriptionByID *)
    unfold DeleteSubscriptionByID in EL. rewrite Hf in EL. injection EL as <- <-.
    split; [assumption|]. exists appended. split; [assumption|].
    erewrite iflat_from_insert_same; [eassumption | eassumption | reflexivity].
Qed.

Lemma step_subscriptions db0 c st st' :
  subscriptions_agree db0 st -> fo_step deliver payload vapid c st = Some st' ->
  subscriptions_agree db0 st'.
Proof.
  intros (Hf & Hrows) H. unfold subscriptions_agree.
  step_cases H i s r E db' e EL Hst;
    try (split; [assumption|];
         erewrite iflat_from_insert_same; [eassumption | eassumption | reflexivity]);
    try (split; assumption).
  - (* LogDelivery *)
    unfold LogDelivery in EL. rewrite Hf in EL. injection EL as <- <-.
    split; [assumption|]. cbn [subscriptions set_delivery_log].
    erewrite iflat_from_insert_same; [eassumption | eassumption | reflexivity].
  - (* DeleteSubscriptionByID *)
    unfold DeleteSubscriptionByID in EL. rewrite Hf in EL. injection EL as <- <-.
    split; [assumption|]. cbn [subscriptions set_subscriptions].
    intros row. rewrite filter_In, Hrows, negb_true_iff.
    assert (Hp : Permutation (iflat_from evicted_at 0 (fo_tasks st) ++ [ID s])
                   (iflat_from evicted_at 0 (<[i := (s, Cleaned r)]> (fo_tasks st)))).
    { eapply iflat_from_insert_new; [eassumption | reflexivity |].
      unfold evicted_at. simpl. now rewrite Hst. }
    split.
    + intros [[Hin Hnot] Hne]. split; [assumption|].
      intros Hev. apply (Permutation_in _ (Permutation_sym Hp)) in Hev.
      apply in_app_iff in Hev as [Hev|[Hev|[]]]; [contradiction|].
      apply String.eqb_neq in Hne. congruence.
    + intros [Hin Hnot]. split; [split; [assumption|]|].
      * intros Hev. apply Hnot. apply (Permutation_in _ Hp).
        apply in_app_iff. now left.
      * apply String.eqb_neq. intros Heq. apply Hnot. apply (Permutation_in _ Hp).
        apply in_app_iff. right. left. now symmetry.
  - (* not stale: nothing is deleted *)
    split; [assumption|].
    erewrite iflat_from_insert_same; [eassumption | eassumption |].
    unfold evicted_at. simpl. now rewrite Hst.
Qed.

Lemma lookup_error_events (f : error -> event) e k ev :
  error_events f e !! k = Some ev -> exists x, ev = f x.
Proof.
  destruct e as [x|]; simpl; [|discriminate].
  destruct k; simpl; [|discriminate]. intros [= <-]. eauto.
Qed.

Lemma step_log_then_evict c st st' :
  log_then_evict st -> fo_step deliver payload vapid c st = Some st' ->
  log_then_evict st'.
Proof.
  intros (Hord & Hlogged) H. unfold log_then_evict.
  assert (Hgrow : forall evs,
    (forall k i id, evs !! k = Some (EvDeleteSubscriptionByID i id) ->
       exists j code msg, (j < length (fo_trace st) + k)%nat /\
         (fo_trace st ++ evs) !! j = Some (EvLogDelivery i id code msg)) ->
    forall k i id, (fo_trace st ++ evs) !! k = Some (EvDeleteSubscriptionByID i id) ->
      exists j code msg, (j < k)%nat /\
        (fo_trace st ++ evs) !! j = Some (EvLogDelivery i id code msg)).
  { intros evs Hevs k i0 id Hk.
    destruct (Nat.lt_ge_cases k (length (fo_trace st))) as [Hlt|Hge].
    - rewrite lookup_app_l in Hk by assumption.
      destruct (Hord _ _ _ Hk) as (j & code & msg & Hj & Hjl).
      exists j, code, msg. split; [assumption|].
      rewrite lookup_app_l by lia. assumption.
    - rewrite lookup_app_r in Hk by assumption.
      destruct (Hevs _ _ _ Hk) as (j & code & msg & Hj & Hjl).
      exists j, code, msg. split; [lia | assumption]. }
  assert (Hkeep : forall evs i0 s0 r0,
    fo_tasks st !! i0 = Some (s0, Logged r0) ->
    exists j, (fo_trace st ++ evs) !! j
              = Some (EvLogDelivery i0 (ID s0) (statusCode r0) (errMsg r0))).
  { intros evs i0 s0 r0 Hi0. destruct (Hlogged _ _ _ Hi0) as (j & Hj).
    exists j. rewrite lookup_app_l; [assumption | eapply lookup_lt_Some; eassumption]. }
  assert (Hother : forall j i0 s0 r0 (t : Subscription * phase),
    j <> i0 -> <[j := t]> (fo_tasks st) !! i0 = Some (s0, Logged r0) ->
    fo_tasks st !! i0 = Some (s0, Logged r0)).
  { intros j i0 s0 r0 t Hne Hi0. now rewrite list_lookup_insert_ne in Hi0 by assumption. }
  step_cases H i s r E db' e EL Hst.
  - (* spawn *)
    split; [assumption|]. intros i0 s0 r0 Hi0.
    destruct (decide (fo_next st = i0)) as [<-|Hne].
    + rewrite list_lookup_insert_eq in Hi0 by (eapply lookup_lt_Some; eassumption).
      discriminate.
    + apply Hlogged. eapply Hother; eassumption.
  - (* push *)
    split.
    + apply Hgrow. intros [|k] i0 id Hk; simpl in Hk; discriminate.
    + intros i0 s0 r0 Hi0. destruct (decide (i = i0)) as [<-|Hne].
      * rewrite list_lookup_insert_eq in Hi0 by (eapply lookup_lt_Some; eassumption).
        discriminate.
      * apply Hkeep. eapply Hother; eassumption.
  - (* log *)
    split.
    + apply Hgrow. intros [|k] i0 id Hk; simpl in Hk; [discriminate|].
      apply lookup_error_events in Hk as (x & Hx). discriminate.
    + intros i0 s0 r0 Hi0. destruct (decide (i = i0)) as [<-|Hne].
      * rewrite list_lookup_insert_eq in Hi0 by (eapply lookup_lt_Some; eassumption).
        injection Hi0 as <- <-. exists (length (fo_trace st)).
        rewrite lookup_app_r by lia. now rewrite Nat.sub_diag.
      * apply Hkeep. eapply Hother; eassumption.
  - (* evict *)
    split.
    + apply Hgrow. intros [|k] i0 id Hk; simpl in Hk.
      * injection Hk as <- <-. destruct (Hlogged _ _ _ E) as (j & Hj).
        exists j, (statusCode r), (errMsg r).
        split; [apply lookup_lt_Some in Hj; lia|].
        rewrite lookup_app_l; [assumption | eapply lookup_lt_Some; eassumption].
      * apply lookup_error_events in Hk as (x & Hx). discriminate.
    + intros i0 s0 r0 Hi0. destruct (decide (i = i0)) as [<-|Hne].
      * rewrite list_lookup_insert_eq in Hi0 by (eapply lookup_lt_Some; eassumption).
        discriminate.
      * apply Hkeep. eapply Hother; eassumption.
  - (* no eviction *)
    rewrite app_nil_r. split; [assumption|].
    intros i0 s0 r0 Hi0. destruct (decide (i = i0)) as [<-|Hne].
    + rewrite list_lookup_insert_eq in Hi0 by (eapply lookup_lt_Some; eassumption).
      discriminate.
    + apply Hlogged. eapply Hother; eassumption.
  - (* report *)
    split; [assumption|].
    intros i0 s0 r0 Hi0. destruct (decide (i = i0)) as [<-|Hne].
    + rewrite list_lookup_insert_eq in Hi0 by (eapply lookup_lt_Some; eassumption).
      discriminate.
    + apply Hlogged. eapply Hother; eassumption.
  - (* tick *)
    split; assumption.
Qed.
End FanOutInvariants.

(** *** From the first state to the last *)

Lemma iflat_from_nil {A B : Type} (f : nat -> A -> list B) (l : list A) :
  forall k, (forall i x, In x l -> f i x = []) -> iflat_from f k l = [].
Proof.
  induction l as [|a l IH]; intros k H; simpl; [reflexivity|].
  rewrite (H k a) by now left. apply IH. intros i x Hx. apply H. now right.
Qed.

Lemma map_iflat_singletons {A B C : Type} (g : B -> C) (f : nat -> A -> B) (l : list A) :
  forall k, map g (iflat_from (fun i x => [f i x]) k l)
            = iflat_from (fun i x => [g (f i x)]) k l.
Proof. induction l as [|a l IH]; intros k; simpl; [reflexivity | now rewrite IH]. Qed.

Lemma lookup_waiting (subs : list Subscription) i s ph :
  map (fun s => (s, Waiting)) subs !! i = Some (s, ph) -> ph = Waiting.
Proof.
  revert i. induction subs as [|a l IH]; intros [|i] H; simpl in H; try discriminate.
  - now injection H as _ <-.
  - eapply IH; eassumption.
Qed.

Lemma waiting_accounts_for_nothing {B : Type} (f : nat -> Subscription * phase -> list B)
    (subs : list Subscription) :
  (forall i s, f i (s, Waiting) = []) ->
  iflat_from f 0 (map (fun s => (s, Waiting)) subs) = [].
Proof.
  intros H. apply iflat_from_nil. intros i x Hx.
  apply in_map_iff in Hx as (s & <- & _). apply H.
Qed.

Section FanOutRuns.
Variable deliver : nat -> PushCall -> PushResponse.
Variable payload : blob.
Variable vapid : VAPID.


(** Once all workers have finished, what they account for is determined
    by the slice of subscribers alone. *)
Lemma finished_accounts {B : Type} (f : nat -> Subscription * phase -> list B)
    (st : FanOut) :
  responses_agree deliver payload vapid st ->
  forallb is_finished (fo_tasks st) = true ->
  iflat_from f 0 (fo_tasks st)
  = iflat_from (fun i s => f i (s, Finished (answer deliver payload vapid i s))) 0 (map fst (fo_tasks st)).
Proof.
  intros Hresp Hfin. rewrite iflat_from_map. apply iflat_from_ext.
  intros i [s ph] Hi. simpl.
  assert (Hph : is_finished (s, ph) = true).
  { rewrite forallb_forall in Hfin. apply Hfin.
    apply list_elem_of_In. eapply list_elem_of_lookup_2. eassumption. }
  destruct ph; try discriminate.
  now rewrite (Hresp i s (Finished r) r Hi eq_refl).
Qed.

(** What a complete run leaves behind, whatever the schedule. *)
Lemma fo_run_complete (sched : list choice) (db : DB) (clock : gotime)
    (subs : list Subscription) (st : FanOut) :
  fo_run deliver payload vapid sched (fo_init db clock subs) = Some st ->
  forallb is_finished (fo_tasks st) = true ->
  Permutation (fo_results st) (map dispatch_of (responses deliver payload vapid subs)) /\
  Permutation (pushes_of (fo_trace st))
              (iflat_from (fun i s => [(i, mk_call payload vapid s)]) 0 subs) /\
  log_then_evict st /\
  (fault db = None ->
   fault (fo_db st) = None /\
   (exists appended,
      delivery_log (fo_db st) = delivery_log db ++ appended /\
      Permutation (map log_key appended)
        (iflat_from (fun i s => [(ID s, statusCode (answer deliver payload vapid i s), errMsg (answer deliver payload vapid i s))])
                    0 subs)) /\
   (forall row,
      In row (subscriptions (fo_db st)) <->
      In row (subscriptions db) /\
      ~ In (ID row)
           (iflat_from (fun i s => if stale (answer deliver payload vapid i s) then [ID s] else []) 0 subs))).
Proof.
  intros Hrun Hfin.
  assert (Htasks : map fst (fo_tasks st) = subs).
  { apply (fo_run_invariant deliver payload vapid
             (fun st => map fst (fo_tasks st) = subs)) in Hrun; [assumption| |].
    - intros c s1 s2 H1 H2. now rewrite (step_tasks _ _ _ _ _ _ H2).
    - simpl. rewrite map_map. simpl. apply map_id. }
  assert (Hresp : responses_agree deliver payload vapid st).
  { apply (fo_run_invariant deliver payload vapid
             (responses_agree deliver payload vapid)) in Hrun; [assumption| |].
    - intros c s1 s2. apply step_responses.
    - intros i s ph r Hi Hph. apply lookup_waiting in Hi. subst. discriminate. }
  pose proof (fun B f => @finished_accounts B f st Hresp Hfin) as Hacc.
  rewrite Htasks in Hacc.
  split; [|split; [|split]].
  - apply (fo_run_invariant deliver payload vapid results_agree) in Hrun.
    + unfold results_agree in Hrun. rewrite Hacc in Hrun.
      unfold responses. now rewrite map_iflat_singletons.
    + intros c s1 s2. apply step_results.
    + unfold results_agree. simpl. now rewrite waiting_accounts_for_nothing.
  - apply (fo_run_invariant deliver payload vapid (pushes_agree payload vapid)) in Hrun.
    + unfold pushes_agree in Hrun. now rewrite Hacc in Hrun.
    + intros c s1 s2. apply step_pushes.
    + unfold pushes_agree. simpl. now rewrite waiting_accounts_for_nothing.
  - apply (fo_run_invariant deliver payload vapid log_then_evict) in Hrun; [assumption| |].
    + intros c s1 s2. apply step_log_then_evict.
    + split; simpl.
      * intros k i id Hk. discriminate.
      * intros i s r Hi. apply lookup_waiting in Hi. discriminate.
  - intros Hhealthy. split; [|split].
    + apply (fo_run_invariant deliver payload vapid (log_agrees db)) in Hrun.
      * apply Hrun.
      * intros c s1 s2. apply step_log.
      * split; [assumption|]. exists []. simpl. rewrite app_nil_r.
        split; [reflexivity|]. now rewrite waiting_accounts_for_nothing.
    + apply (fo_run_invariant deliver payload vapid (log_agrees db)) in Hrun.
      * destruct Hrun as (_ & appended & Hlog & Hperm).
        exists appended. split; [assumption|]. now rewrite Hacc in Hperm.
      * intros c s1 s2. apply step_log.
      * split; [assumption|]. exists []. simpl. rewrite app_nil_r.
        split; [reflexivity|]. now rewrite waiting_accounts_for_nothing.
    + apply (fo_run_invariant deliver payload vapid (subscriptions_agree db)) in Hrun.
      * destruct Hrun as (_ & Hrows). intros row. rewrite Hrows, Hacc. reflexivity.
      * intros c s1 s2. apply step_subscriptions.
      * split; [assumption|]. intros row. simpl.
        rewrite waiting_accounts_for_nothing by reflexivity. simpl. tauto.
Qed.
End FanOutRuns.

Section FanOutEvictions.
Variable deliver : nat -> PushCall -> PushResponse.
Variable payload : blob.
Variable vapid : VAPID.


End FanOutEvictions.

(** *** A complete run exists *)

Lemma lookup_middle {A : Type} (pre post : list A) (x : A) :
  (pre ++ x :: post) !! length pre = Some x.
Proof. induction pre; simpl; auto. Qed.

Lemma insert_middle {A : Type} (pre post : list A) (x y : A) :
  <[length pre := y]> (pre ++ x :: post) = pre ++ y :: post.
Proof. induction pre as [|a pre IH]; simpl; [reflexivity | now rewrite IH]. Qed.

Section Sequential.
Variable deliver : nat -> PushCall -> PushResponse.
Variable payload : blob.
Variable vapid : VAPID.

Lemma fo_run_app (l1 l2 : list choice) (st : FanOut) :
  fo_run deliver payload vapid (l1 ++ l2) st =
  match fo_run deliver payload vapid l1 st with
  | Some st1 => fo_run deliver payload vapid l2 st1
  | None => None
  end.
Proof.
  revert st. induction l1 as [|c l1 IH]; intros st; simpl; [reflexivity|].
  destruct (fo_step deliver payload vapid c st); [apply IH | reflexivity].
Qed.

Lemma fo_run_cons (c : choice) (l : list choice) (st : FanOut) :
  fo_run deliver payload vapid (c :: l) st =
  match fo_step deliver payload vapid c st with
  | Some st1 => fo_run deliver payload vapid l st1
  | None => None
  end.
Proof. reflexivity. Qed.

Ltac middle := rewrite insert_middle.

Ltac fields :=
  unfold advance; cbn [fo_sem fo_tasks fo_next fo_db fo_clock fo_results fo_trace].

(** Spawning the next worker on a free semaphore and running it four times
    takes it from [Waiting] to [Finished] and frees the semaphore again. *)
Lemma run_worker (pre post : list (Subscription * phase)) (s : Subscription) (st : FanOut) :
  fo_tasks st = pre ++ (s, Waiting) :: post ->
  fo_next st = length pre -> fo_sem st = 0%nat ->
  exists st',
    fo_run deliver payload vapid
      [Spawn; Run (length pre); Run (length pre); Run (length pre); Run (length pre)] st
    = Some st' /\
    fo_tasks st' = pre ++ (s, Finished (answer deliver payload vapid (length pre) s)) :: post /\
    fo_next st' = S (length pre) /\ fo_sem st' = 0%nat.
Proof.
  intros Ht Hn Hs. destruct st as [db clk tasks next sem results trace].
  simpl in Ht, Hn, Hs. subst tasks next sem.
  rewrite fo_run_cons. unfold fo_step at 1. fields.
  change (0 <? pushConcurrency)%nat with true. cbv iota.
  rewrite lookup_middle. fields. middle.
  rewrite fo_run_cons. unfold fo_step at 1. fields.
  rewrite lookup_middle. fields. middle.
  rewrite fo_run_cons. unfold fo_step at 1. fields.
  rewrite lookup_middle.
  destruct (LogDelivery db clk (ID s) _ _) as [db1 e1]. fields. middle.
  rewrite fo_run_cons. unfold fo_step at 1. fields.
  rewrite lookup_middle. unfold answer.
  destruct (stale (deliver (length pre) (mk_call payload vapid s)));
    [destruct (DeleteSubscriptionByID db1 (ID s)) as [db2 e2]|];
    fields; middle;
    rewrite fo_run_cons; unfold fo_step at 1; fields;
    rewrite lookup_middle; fields; middle;
    eexists; (split; [reflexivity|]); repeat split.
Qed.

Lemma run_sequential (post : list Subscription) :
  forall (pre : list (Subscription * phase)) (st : FanOut),
    fo_tasks st = pre ++ map (fun s => (s, Waiting)) post ->
    fo_next st = length pre -> fo_sem st = 0%nat ->
    forallb is_finished pre = true ->
    exists st',
      fo_run deliver payload vapid
        (flat_map (fun i => [Spawn; Run i; Run i; Run i; Run i])
                  (seq (length pre) (length post))) st = Some st' /\
      forallb is_finished (fo_tasks st') = true.
Proof.
  induction post as [|s post IH]; intros pre st Ht Hn Hs Hfin.
  - simpl in *. exists st. split; [reflexivity|]. now rewrite Ht, app_nil_r.
  - simpl in Ht.
    destruct (run_worker pre _ s st Ht Hn Hs) as (st1 & Hrun & Ht1 & Hn1 & Hs1).
    destruct (IH (pre ++ [(s, Finished (answer deliver payload vapid (length pre) s))]) st1)
      as (st2 & Hrun2 & Hfin2).
    + now rewrite <- app_assoc.
    + rewrite length_app. simpl. lia.
    + assumption.
    + rewrite forallb_app, Hfin. reflexivity.
    + exists st2. split; [|assumption].
      cbn [length seq flat_map].
      rewrite fo_run_app, Hrun.
      rewrite length_app in Hrun2. simpl in Hrun2.
      now replace (length pre + 1)%nat with (S (length pre)) in Hrun2 by lia.
Qed.

(** The sequential schedule is a complete run of any fan-out. *)
Lemma sequential_completes (db : DB) (clock : gotime) (subs : list Subscription) :
  exists st,
    fo_run deliver payload vapid (sequential (length subs)) (fo_init db clock subs) = Some st /\
    forallb is_finished (fo_tasks st) = true.
Proof.
  apply (run_sequential subs [] (fo_init db clock subs)); reflexivity.
Qed.
End Sequential.

(** [pushPayload] cannot fail. *)
Lemma pushPayload_total (req : NotifyRequest) : exists payload, pushPayload req = Ok payload.
Proof. unfold pushPayload, json_Marshal. eauto. Qed.

Lemma sendToSubscriptions_returns deliver db clock subs req vapid :
  exists o,
    sendToSubscriptions deliver (sequential (length subs)) db clock subs req vapid = Some o.
Proof.
  unfold sendToSubscriptions. destruct (pushPayload req) as [payload|e]; [|eauto].
  destruct (sequential_completes deliver payload vapid db clock subs) as (st & -> & ->).
  eauto.
Qed.

(** Unfolding a complete call: its payload, its last state and its
    return value. *)
Lemma sendToSubscriptions_inv deliver sched db clock subs req vapid o :
  sendToSubscriptions deliver sched db clock subs req vapid = Some o ->
  exists payload st,
    pushPayload req = Ok payload /\
    fo_run deliver payload vapid sched (fo_init db clock subs) = Some st /\
    forallb is_finished (fo_tasks st) = true /\
    o = {| out_result := collect (fo_results st); out_db := fo_db st;
           out_clock := fo_clock st;
           out_trace := fo_trace st
                          ++ [EvPrintSummary (ReqTopic req) (collect (fo_results st))] |}.
Proof.
  unfold sendToSubscriptions. destruct (pushPayload_total req) as (payload & ->).
  destruct (fo_run deliver payload vapid sched (fo_init db clock subs)) as [st|] eqn:Hrun;
    [|discriminate].
  destruct (forallb is_finished (fo_tasks st)) eqn:Hfin; [|discriminate].
  intros [= <-]. exists payload, st. repeat split; assumption || reflexivity.
Qed.

(** *** Counting outcomes *)

Lemma count_perm {A : Type} (p : A -> bool) (l l' : list A) :
  Permutation l l' -> count p l = count p l'.
Proof.
  unfold count. intros H. f_equal.
  induction H as [| x l l' _ IH | x y l | l l' l'' _ IH1 _ IH2]; simpl.
  - reflexivity.
  - destruct (p x); simpl; now rewrite IH.
  - destruct (p x), (p y); reflexivity.
  - now rewrite IH1.
Qed.

Lemma count_map {A B : Type} (p : B -> bool) (g : A -> B) (l : list A) :
  count p (map g l) = count (fun x => p (g x)) l.
Proof.
  unfold count. f_equal. induction l as [|a l IH]; simpl; [reflexivity|].
  destruct (p (g a)); simpl; now rewrite IH.
Qed.

Lemma count_ext {A : Type} (p q : A -> bool) (l : list A) :
  (forall x, p x = q x) -> count p l = count q l.
Proof.
  intros H. unfold count. f_equal. induction l as [|a l IH]; simpl; [reflexivity|].
  rewrite H. destruct (q a); simpl; now rewrite IH.
Qed.

Lemma count_cons {A : Type} (p : A -> bool) (a : A) (l : list A) :
  count p (a :: l) = (if p a then 1 else 0) + count p l.
Proof. unfold count. simpl. destruct (p a); simpl; lia. Qed.

Lemma count_nonneg {A : Type} (p : A -> bool) (l : list A) : 0 <= count p l.
Proof. unfold count. lia. Qed.

(** The collecting loop counts the sent results, the stale ones, and adds
    the stale ones to those neither sent nor stale. *)
Lemma fold_tally (rs : list dispatch) : forall acc,
  fold_left tally rs acc =
  {| Sent := Sent acc + count d_sent rs;
     Failed := Failed acc
               + count (fun d => negb (d_sent d) && negb (d_staleRemoved d)) rs
               + count d_staleRemoved rs;
     StaleRemoved := StaleRemoved acc + count d_staleRemoved rs |}.
Proof.
  induction rs as [|[s g] rs IH]; intros [a b c]; simpl.
  - unfold count. simpl. f_equal; lia.
  - rewrite IH, !count_cons. unfold tally. simpl.
    destruct s, g; simpl; f_equal; lia.
Qed.

(** The code's two tests are the two outcomes named by the interface, and
    the three outcomes exclude one another. *)
Lemma sent_successful r : sent r = successful r.
Proof. destruct r; reflexivity. Qed.

Lemma stale_gone r : stale r = gone r.
Proof. destruct r; reflexivity. Qed.

Lemma one_outcome r :
  (successful r = true /\ gone r = false /\ other_failure r = false) \/
  (successful r = false /\ gone r = true /\ other_failure r = false) \/
  (successful r = false /\ gone r = false /\ other_failure r = true).
Proof.
  unfold other_failure. destruct r as [msg|c]; simpl; [tauto|].
  destruct (Z.leb_spec 200 c), (Z.ltb_spec c 300), (Z.eqb_spec c 404), (Z.eqb_spec c 410);
    simpl; try tauto; lia.
Qed.

Lemma outcomes_add_up (rs : list PushResponse) :
  count successful rs + count gone rs + count other_failure rs = Z.of_nat (length rs).
Proof.
  induction rs as [|r rs IH]; [reflexivity|].
  rewrite !count_cons. cbn [length].
  destruct (one_outcome r) as [(-> & -> & ->)|[(-> & -> & ->)|(-> & -> & ->)]]; lia.
Qed.

Lemma responses_length deliver payload vapid subs :
  length (responses deliver payload vapid subs) = length subs.
Proof. apply iflat_from_singletons. Qed.

(** C1.  [sendToSubscriptions] returns under the sequential schedule, and
    whatever complete schedule it runs under, its result counts the
    responses of the push service to the [M] subscribers as follows: every
    response is exactly one of successful (a status in [200,300) without
    transport error), stale (404 or 410) or another failure; [Sent] is the
    number of successful ones, [StaleRemoved] the number of stale ones,
    [Failed] the number of other failures plus the number of stale ones, and
    [Sent + Failed = M].  Four responses {2xx, transport error, 410, another
    4xx} give [1, 3, 1]; no subscriber gives [0, 0, 0]. *)
Theorem sendToSubscriptions_counts
    (deliver : nat -> PushCall -> PushResponse) (db : DB) (clock : gotime)
    (subs : list Subscription) (req : NotifyRequest) (vapid : VAPID) :
  (exists o, sendToSubscriptions deliver (sequential (length subs)) db clock subs req vapid
             = Some o) /\
  forall sched o,
    sendToSubscriptions deliver sched db clock subs req vapid = Some o ->
    exists payload,
      pushPayload req = Ok payload /\
      let rs := responses deliver payload vapid subs in
      let nr := out_result o in
      (forall r, In r rs ->
         (successful r = true /\ gone r = false /\ other_failure r = false) \/
         (successful r = false /\ gone r = true /\ other_failure r = false) \/
         (successful r = false /\ gone r = false /\ other_failure r = true)) /\
      Sent nr = count successful rs /\
      StaleRemoved nr = count gone rs /\
      Failed nr = count other_failure rs + count gone rs /\
      Sent nr + Failed nr = Z.of_nat (length subs) /\
      (forall c msg x,
         Permutation rs [HTTPResponse c; TransportError msg; HTTPResponse 410; HTTPResponse x] ->
         200 <= c < 300 -> 400 <= x < 500 -> x <> 404 -> x <> 410 ->
         nr = {| Sent := 1; Failed := 3; StaleRemoved := 1 |}) /\
      (subs = [] -> nr = {| Sent := 0; Failed := 0; StaleRemoved := 0 |}).
Proof.
  split; [apply sendToSubscriptions_returns|].
  intros sched o Hsend.
  destruct (sendToSubscriptions_inv _ _ _ _ _ _ _ _ Hsend)
    as (payload & st & Hpay & Hrun & Hfin & ->).
  exists payload. split; [assumption|]. cbn [out_result].
  destruct (fo_run_complete _ _ _ _ _ _ _ _ Hrun Hfin) as (Hres & _).
  set (rs := responses deliver payload vapid subs) in *.
  assert (Hnr : collect (fo_results st) =
                {| Sent := count successful rs;
                   Failed := count other_failure rs + count gone rs;
                   StaleRemoved := count gone rs |}).
  { unfold collect. rewrite fold_tally. cbn [Sent Failed StaleRemoved NotifyResult_zero].
    rewrite !(count_perm _ _ _ Hres), !count_map. cbn [dispatch_of d_sent d_staleRemoved].
    f_equal.
    - rewrite (count_ext _ successful) by apply sent_successful. lia.
    - rewrite (count_ext _ other_failure), (count_ext stale gone).
      + lia.
      + apply stale_gone.
      + intros r. unfold other_failure. now rewrite sent_successful, stale_gone.
    - rewrite (count_ext _ gone) by apply stale_gone. lia. }
  rewrite Hnr. cbn [Sent Failed StaleRemoved].
  pose proof (outcomes_add_up rs) as Hsum.
  unfold rs in Hsum at 4. rewrite responses_length in Hsum.
  split; [intros r _; apply one_outcome|].
  split; [reflexivity|]. split; [reflexivity|]. split; [reflexivity|].
  split; [lia|]. split.
  - intros c msg x Hperm Hc Hx H404 H410.
    rewrite !(count_perm _ _ _ Hperm), !count_cons.
    unfold other_failure. cbn [successful gone count].
    destruct (Z.leb_spec 200 c); [|lia]. destruct (Z.ltb_spec c 300); [|lia].
    destruct (Z.eqb_spec c 404); [lia|]. destruct (Z.eqb_spec c 410); [lia|].
    destruct (Z.leb_spec 200 x); [|lia]. destruct (Z.ltb_spec x 300); [lia|].
    destruct (Z.eqb_spec x 404); [lia|]. destruct (Z.eqb_spec x 410); [lia|].
    reflexivity.
  - intros Hnil. unfold rs. rewrite Hnil. reflexivity.
Qed.

Lemma sendToSubscriptions_counts_witness :
  exists o,
    sendToSubscriptions sample_deliver (sequential 4) sample_db sample_now
      (subscriptions sample_db) sample_req sample_vapid = Some o /\
    out_result o = {| Sent := 1; Failed := 3; StaleRemoved := 1 |}.
Proof.
  destruct (sendToSubscriptions_counts sample_deliver sample_db sample_now
              (subscriptions sample_db) sample_req sample_vapid) as [[o Ho] H].
  exists o. split; [exact Ho|].
  destruct (H _ _ Ho) as (payload & _ & _ & _ & _ & _ & _ & H4 & _).
  apply (H4 201 "dial tcp: i/o timeout" 400); [reflexivity | lia | lia | lia | lia].
Defined.

Lemma VAPID_roundtrip_witness :
  exists publicKey privateKey key,
    GenerateVAPIDKeys (Ok sample_key) = Ok (publicKey, privateKey) /\
    ParseVAPIDKeys publicKey privateKey = Ok key /\
    key = sample_key /\
    option_map EncodeToString (elliptic_Marshal (X key) (Y key)) = Some publicKey.
Proof.
  apply (VAPID_roundtrip sample_key).
  split; [vm_compute; reflexivity | unfold P256_N; simpl; lia].
Defined.

(** [ParseVAPIDKeys] looks at the private string only to decode it: with a
    public string that decodes to a point of the curve, every decodable
    private string is accepted, and the scalar is whatever its bytes say. *)
Lemma ParseVAPIDKeys_accepts publicKeyB64 privateKeyB64 pubBytes x y privBytes :
  DecodeString publicKeyB64 = Some pubBytes ->
  elliptic_Unmarshal pubBytes = Some (x, y) ->
  DecodeString privateKeyB64 = Some privBytes ->
  ParseVAPIDKeys publicKeyB64 privateKeyB64
  = Ok {| X := x; Y := y; D := SetBytes privBytes |}.
Proof. intros H1 H2 H3. unfold ParseVAPIDKeys. now rewrite H1, H2, H3. Qed.

Lemma generator_is_not_its_double :
  ScalarBaseMult 1 = Some (P256_Gx, P256_Gy) /\
  ScalarBaseMult 2 <> Some (P256_Gx, P256_Gy).
Proof. split; [reflexivity | vm_compute; discriminate]. Qed.

(** C10.  [ParseVAPIDKeys] checks the public component only.  Together with
    the public key of the key pair of scalar 1, it accepts the private key
    string of another key pair (scalar 2) and a private string of a single
    byte; in both cases the public point is on the curve and the returned
    private scalar is not the one of the public point. *)
Theorem ParseVAPIDKeys_private_unchecked :
  (exists key,
     ParseVAPIDKeys sample_public private_of_two = Ok key /\
     IsOnCurve (X key) (Y key) = true /\
     D key = 2 /\ key_pair_consistent {| X := X key; Y := Y key; D := 1 |} /\
     ~ key_pair_consistent key) /\
  (exists key,
     ParseVAPIDKeys sample_public private_one_byte = Ok key /\
     IsOnCurve (X key) (Y key) = true /\
     DecodeString private_one_byte = Some [2] /\
     ~ key_pair_consistent key).
Proof.
  destruct generator_is_not_its_double as [H1 H2].
  split; exists {| X := P256_Gx; Y := P256_Gy; D := 2 |}.
  - split; [vm_compute; reflexivity|]. split; [vm_compute; reflexivity|].
    split; [reflexivity|]. split; [exact H1 | exact H2].
  - split; [vm_compute; reflexivity|]. split; [vm_compute; reflexivity|].
    split; [vm_compute; reflexivity | exact H2].
Qed.

(** *** Membership in the bookkeeping lists *)

Lemma In_iflat_from {A B : Type} (f : nat -> A -> list B) (l : list A) (y : B) :
  forall k,
    In y (iflat_from f k l) <-> exists i x, l !! i = Some x /\ In y (f (k + i)%nat x).
Proof.
  induction l as [|a l IH]; intros k; simpl.
  - split; [intros [] | intros (i & x & H & _); discriminate].
  - rewrite in_app_iff, IH. split.
    + intros [H|(i & x & Hi & H)].
      * exists 0%nat, a. rewrite Nat.add_0_r. auto.
      * exists (S i), x. replace (k + S i)%nat with (S k + i)%nat by lia. auto.
    + intros ([|i] & x & Hi & H); simpl in Hi.
      * injection Hi as ->. rewrite Nat.add_0_r in H. now left.
      * right. exists i, x. replace (S k + i)%nat with (k + S i)%nat by lia. auto.
Qed.

Lemma In_pushes_of (trace : list event) i call :
  In (i, call) (pushes_of trace) <-> In (EvPush i call) trace.
Proof.
  unfold pushes_of. rewrite in_flat_map. split.
  - intros (e & He & Hin). destruct e; simpl in Hin; try contradiction.
    destruct Hin as [[= -> ->]|[]]. assumption.
  - intros H. exists (EvPush i call). split; [assumption | now left].
Qed.

Lemma pushes_of_wrapped (trace : list event) topic nr :
  pushes_of (EvWaitGroupAdd :: (trace ++ [EvPrintSummary topic nr]) ++ [EvWaitGroupDone])
  = pushes_of trace.
Proof.
  unfold pushes_of. cbn [flat_map app]. rewrite !flat_map_app. cbn [flat_map].
  now rewrite !app_nil_r.
Qed.

(** *** notify *)

(** A complete [SendNotifications] either failed to read the subscribers,
    or ran [sendToSubscriptions] on those the store returned. *)
Lemma SendNotifications_inv deliver sched db clock req vapid o :
  SendNotifications deliver sched db clock req vapid = Some o ->
  (exists e, GetSubscriptionsByTopic db (ReqTopic req) = Err e /\
             o = {| out_result := NotifyResult_zero; out_db := db; out_clock := clock;
                    out_trace := [EvWaitGroupAdd; EvLogFetchError e; EvWaitGroupDone] |}) \/
  (exists subs o',
     GetSubscriptionsByTopic db (ReqTopic req) = Ok subs /\
     sendToSubscriptions deliver sched db clock subs req vapid = Some o' /\
     o = {| out_result := out_result o'; out_db := out_db o'; out_clock := out_clock o';
            out_trace := EvWaitGroupAdd :: out_trace o' ++ [EvWaitGroupDone] |}).
Proof.
  unfold SendNotifications.
  destruct (GetSubscriptionsByTopic db (ReqTopic req)) as [subs|e].
  - destruct (sendToSubscriptions deliver sched db clock subs req vapid) as [o'|] eqn:E;
      [|discriminate].
    intros [= <-]. right. exists subs, o'. auto.
  - intros [= <-]. left. exists e. auto.
Qed.

(** Some schedule is a complete run of [SendNotifications]. *)
Lemma SendNotifications_returns deliver db clock req vapid :
  exists sched o, SendNotifications deliver sched db clock req vapid = Some o.
Proof.
  unfold SendNotifications.
  destruct (GetSubscriptionsByTopic db (ReqTopic req)) as [subs|e].
  - destruct (sendToSubscriptions_returns deliver db clock subs req vapid) as (o & Ho).
    exists (sequential (length subs)). rewrite Ho. eauto.
  - exists []. eauto.
Qed.

(** The push calls of a complete [SendNotifications]: one per subscriber
    the store returned, all carrying the payload built from the request. *)
Lemma SendNotifications_pushes deliver sched db clock req vapid o payload :
  pushPayload req = Ok payload ->
  SendNotifications deliver sched db clock req vapid = Some o ->
  forall i call,
    In (EvPush i call) (out_trace o) <->
    exists subs s,
      GetSubscriptionsByTopic db (ReqTopic req) = Ok subs /\
      subs !! i = Some s /\ call = mk_call payload vapid s.
Proof.
  intros Hpay Hsend i call.
  destruct (SendNotifications_inv _ _ _ _ _ _ _ Hsend)
    as [(e & Hget & ->)|(subs & o' & Hget & Hsub & ->)].
  - cbn [out_trace]. split.
    + intros [H|[H|[H|[]]]]; discriminate.
    + intros (subs & s & Hget' & _). congruence.
  - destruct (sendToSubscriptions_inv _ _ _ _ _ _ _ _ Hsub)
      as (payload' & st & Hpay' & Hrun & Hfin & ->).
    assert (payload' = payload) as -> by congruence.
    destruct (fo_run_complete _ _ _ _ _ _ _ _ Hrun Hfin) as (_ & Hpush & _).
    cbn [out_trace].
    assert (Hin : In (EvPush i call)
                    (EvWaitGroupAdd
                       :: (fo_trace st ++ [EvPrintSummary (ReqTopic req) (collect (fo_results st))])
                       ++ [EvWaitGroupDone])
                  <-> In (i, call) (pushes_of (fo_trace st))).
    { rewrite In_pushes_of. simpl. rewrite !in_app_iff. simpl.
      split; [intros [H|[[H|[H|[]]]|[H|[]]]]; (discriminate || assumption) | tauto]. }
    rewrite Hin. split.
    + intros H. apply (Permutation_in _ Hpush) in H.
      apply In_iflat_from in H as (j & s & Hj & [Heq|[]]).
      injection Heq as <- <-. exists subs, s. auto.
    + intros (subs' & s & Hget' & Hi & ->).
      assert (subs' = subs) as -> by congruence.
      apply (Permutation_in _ (Permutation_sym Hpush)).
      apply In_iflat_from. exists i, s. split; [assumption | now left].
Qed.

Lemma NoDup_map_In_inj {A B : Type} (g : A -> B) (l : list A) (a b : A) :
  List.NoDup (map g l) -> In a l -> In b l -> g a = g b -> a = b.
Proof.
  induction l as [|x l IH]; simpl; intros Hnd Ha Hb Hg; [contradiction|].
  inversion Hnd as [|? ? Hnot Hl]; subst.
  destruct Ha as [->|Ha], Hb as [->|Hb]; auto.
  - exfalso. apply Hnot. rewrite Hg. now apply in_map.
  - exfalso. apply Hnot. rewrite <- Hg. now apply in_map.
Qed.

Lemma count_none {A : Type} (p : A -> bool) (l : list A) :
  (forall x, In x l -> p x = false) -> count p l = 0.
Proof.
  intros H. induction l as [|x l IH]; [reflexivity|].
  rewrite count_cons, (H x) by now left. rewrite IH; [reflexivity|].
  intros y Hy. apply H. now right.
Qed.

Lemma count_unique {A : Type} (g : A -> string) (l : list A) (a : A) :
  List.NoDup (map g l) -> In a l ->
  count (fun x => String.eqb (g x) (g a)) l = 1.
Proof.
  induction l as [|x l IH]; simpl; intros Hnd Ha; [contradiction|].
  inversion Hnd as [|? ? Hnot Hl]; subst. rewrite count_cons.
  destruct Ha as [->|Ha].
  - rewrite String.eqb_refl.
    assert (count (fun x => String.eqb (g x) (g a)) l = 0) as ->; [|reflexivity].
    apply count_none. intros y Hy. apply String.eqb_neq. intros E.
    apply Hnot. rewrite <- E. now apply in_map.
  - destruct (String.eqb_spec (g x) (g a)) as [E|_]; [|now rewrite IH].
    exfalso. apply Hnot. rewrite E. now apply in_map.
Qed.

Lemma count_iflat_singletons {A B : Type} (p : B -> bool) (q : A -> bool)
    (f : nat -> A -> B) (l : list A) :
  (forall i x, p (f i x) = q x) ->
  forall k, count p (iflat_from (fun i x => [f i x]) k l) = count q l.
Proof.
  intros H. induction l as [|a l IH]; intros k; [reflexivity|].
  cbn [iflat_from app]. now rewrite !count_cons, H, IH.
Qed.

Lemma In_lookup {A : Type} (l : list A) (x : A) : In x l <-> exists i, l !! i = Some x.
Proof. rewrite <- list_elem_of_In. apply list_elem_of_lookup. Qed.

(** On a healthy store the query returns the rows with the asked topic,
    or all rows for the empty topic. *)
Lemma GetSubscriptionsByTopic_healthy db topic :
  fault db = None ->
  exists subs,
    GetSubscriptionsByTopic db topic = Ok subs /\
    (forall s, In s subs <-> In s (subscriptions db) /\ (topic = "" \/ Topic s = topic)) /\
    (schema_ok (subscriptions db) -> schema_ok subs).
Proof.
  intros Hf. unfold GetSubscriptionsByTopic. rewrite Hf.
  destruct (String.eqb_spec topic "") as [->|Hne].
  - exists (subscriptions db). split; [reflexivity|]. split; [|auto].
    intros s. tauto.
  - eexists. split; [reflexivity|]. split; [|apply schema_ok_filter].
    intros s. rewrite filter_In, String.eqb_eq. tauto.
Qed.

(** Topic selection, for a given complete run. *)
Lemma SendNotifications_topic_of_run
    (deliver : nat -> PushCall -> PushResponse) (sched : list choice) (db : DB)
    (clock : gotime) (req : NotifyRequest) (vapid : VAPID) (o : outcome) :
  fault db = None ->
  schema_ok (subscriptions db) ->
  SendNotifications deliver sched db clock req vapid = Some o ->
  forall s, In s (subscriptions db) ->
    (ReqTopic req <> "" ->
       (dispatched_to (out_trace o) s <-> Topic s = ReqTopic req)) /\
    (ReqTopic req = "" -> dispatched_to (out_trace o) s) /\
    count (fun ic => String.eqb (call_Endpoint (snd ic)) (Endpoint s))
          (pushes_of (out_trace o))
    = (if String.eqb (ReqTopic req) "" || String.eqb (Topic s) (ReqTopic req)
       then 1 else 0).
Proof.
  intros Hf Hschema Hsend s Hs.
  destruct (pushPayload_total req) as (payload & Hpay).
  pose proof (SendNotifications_pushes _ _ _ _ _ _ _ _ Hpay Hsend) as Hpushes.
  destruct (GetSubscriptionsByTopic_healthy db (ReqTopic req) Hf)
    as (subs & Hget & Hsubs & Hsch).
  specialize (Hsch Hschema).
  assert (Hdisp : dispatched_to (out_trace o) s <-> In s subs).
  { unfold dispatched_to. split.
    - intros (i & call & Hin & Hep).
      apply Hpushes in Hin as (subs' & s' & Hget' & Hi & ->).
      assert (subs' = subs) as -> by congruence.
      assert (Hs' : In s' subs) by (apply In_lookup; eauto).
      assert (s' = s) as ->; [|assumption].
      apply (NoDup_map_In_inj Endpoint (subscriptions db)); auto.
      + apply Hschema.
      + now apply Hsubs in Hs'.
    - intros Hin. apply In_lookup in Hin as (i & Hi).
      exists i, (mk_call payload vapid s). split; [|reflexivity].
      apply Hpushes. exists subs, s. auto. }
  split; [|split].
  - intros Hne. rewrite Hdisp, Hsubs. tauto.
  - intros He. apply Hdisp, Hsubs. auto.
  - destruct (SendNotifications_inv _ _ _ _ _ _ _ Hsend)
      as [(e & Hget' & _)|(subs' & o' & Hget' & Hsub & ->)]; [congruence|].
    assert (subs' = subs) as -> by congruence.
    destruct (sendToSubscriptions_inv _ _ _ _ _ _ _ _ Hsub)
      as (payload' & st & Hpay' & Hrun & Hfin & ->).
    destruct (fo_run_complete _ _ _ _ _ _ _ _ Hrun Hfin) as (_ & Hpush & _).
    cbn [out_trace].
    rewrite pushes_of_wrapped.
    rewrite (count_perm _ _ _ Hpush).
    rewrite (count_iflat_singletons _ (fun x => String.eqb (Endpoint x) (Endpoint s)))
      by reflexivity.
    destruct (String.eqb_spec (ReqTopic req) "") as [He|Hne]; cbn [orb].
    + apply count_unique; [apply Hsch | apply Hsubs; auto].
    + destruct (String.eqb_spec (Topic s) (ReqTopic req)) as [Ht|Ht].
      * apply count_unique; [apply Hsch | apply Hsubs; auto].
      * apply count_none. intros x Hx. apply String.eqb_neq. intros E.
        apply Hsubs in Hx as [Hx Hxt].
        assert (x = s) as -> by
          (apply (NoDup_map_In_inj Endpoint (subscriptions db)); auto; apply Hschema).
        tauto.
Qed.

(** C8.  On a healthy store satisfying the schema, [SendNotifications]
    has a complete run, and every complete run dispatches to a stored
    subscriber exactly when the request's topic is empty or equals the
    subscriber's stored topic; a subscriber so selected receives one push
    call and any other subscriber none. *)
Theorem SendNotifications_topic
    (deliver : nat -> PushCall -> PushResponse) (db : DB)
    (clock : gotime) (req : NotifyRequest) (vapid : VAPID) :
  fault db = None ->
  schema_ok (subscriptions db) ->
  (exists sched o, SendNotifications deliver sched db clock req vapid = Some o) /\
  forall sched o,
    SendNotifications deliver sched db clock req vapid = Some o ->
    forall s, In s (subscriptions db) ->
      (ReqTopic req <> "" ->
         (dispatched_to (out_trace o) s <-> Topic s = ReqTopic req)) /\
      (ReqTopic req = "" -> dispatched_to (out_trace o) s) /\
      count (fun ic => String.eqb (call_Endpoint (snd ic)) (Endpoint s))
            (pushes_of (out_trace o))
      = (if String.eqb (ReqTopic req) "" || String.eqb (Topic s) (ReqTopic req)
         then 1 else 0).
Proof.
  intros Hf Hschema. split; [apply SendNotifications_returns|].
  intros sched o Hsend. eapply SendNotifications_topic_of_run; eassumption.
Qed.

Lemma SendNotifications_topic_witness :
  exists o,
    SendNotifications sample_deliver (sequential 2) sample_db sample_now
      alerts_req sample_vapid = Some o /\
    dispatched_to (out_trace o) sub_alice /\
    ~ dispatched_to (out_trace o) sub_bob.
Proof.
  destruct (SendNotifications sample_deliver (sequential 2) sample_db sample_now
              alerts_req sample_vapid) as [o|] eqn:E;
    [|vm_compute in E; discriminate E].
  exists o. split; [reflexivity|].
  pose proof (proj2 (SendNotifications_topic sample_deliver sample_db sample_now
                       alerts_req sample_vapid eq_refl sample_db_schema_ok)
                (sequential 2) o E) as H.
  assert (Hne : ReqTopic alerts_req <> "") by (cbn; discriminate).
  split.
  - destruct (H sub_alice) as (Hiff & _); [cbn; tauto|].
    apply (Hiff Hne). reflexivity.
  - destruct (H sub_bob) as (Hiff & _); [cbn; tauto|].
    intros Hd. apply (Hiff Hne) in Hd. discriminate Hd.
Defined.

(** *** The payload *)

Lemma DecodeRuneInString_split (s rune rest : string) :
  DecodeRuneInString s = Some (rune, rest) ->
  s = (rune ++ rest)%string /\ (String.length rest < String.length s)%nat.
Proof.
  unfold DecodeRuneInString.
  destruct s as [|c0 r0]; [discriminate|].
  destruct (byte_of c0 <? 128); [intros [= <- <-]; split; [reflexivity | simpl; lia]|].
  destruct (first (byte_of c0)) as [[[sz lo] hi]|]; [|discriminate].
  destruct r0 as [|c1 r1]; [discriminate|].
  destruct (between lo hi c1); [|discriminate].
  destruct (sz <=? 2)%nat; [intros [= <- <-]; split; [reflexivity | simpl; lia]|].
  destruct r1 as [|c2 r2]; [discriminate|].
  destruct (between 128 191 c2); [|discriminate].
  destruct (sz <=? 3)%nat; [intros [= <- <-]; split; [reflexivity | simpl; lia]|].
  destruct r2 as [|c3 r3]; [discriminate|].
  destruct (between 128 191 c3); [|discriminate].
  intros [= <- <-]. split; [reflexivity | simpl; lia].
Qed.


(** The loop ends within one round per byte: more fuel changes nothing. *)
Lemma appendString_fuel (fuel : nat) : forall fuel' s,
  (String.length s <= fuel)%nat -> (String.length s <= fuel')%nat ->
  appendString fuel s = appendString fuel' s.
Proof.
  induction fuel as [|fuel IH]; intros fuel' s H H'.
  - destruct s; [now destruct fuel' | simpl in H; lia].
  - destruct s as [|c rest]; [now destruct fuel'|].
    destruct fuel' as [|fuel']; [simpl in H'; lia|].
    cbn [appendString].
    destruct (DecodeRuneInString (String c rest)) as [[rune rest']|] eqn:E.
    + destruct (DecodeRuneInString_split _ _ _ E) as [_ Hlt].
      f_equal. apply IH; simpl in *; lia.
    + f_equal. apply IH; simpl in *; lia.
Qed.



(** *** Logging and eviction *)



Lemma filter_andb {A : Type} (p q : A -> bool) (l : list A) :
  List.filter (fun x => p x && q x) l = List.filter q (List.filter p l).
Proof.
  induction l as [|a l IH]; simpl; [reflexivity|].
  destruct (p a); simpl; [destruct (q a); now rewrite IH | assumption].
Qed.








(** *** A failing read *)

Lemma SendNotifications_no_subscribers deliver db clock req vapid :
  GetSubscriptionsByTopic db (ReqTopic req) = Ok [] ->
  exists o,
    SendNotifications deliver [] db clock req vapid = Some o /\
    out_result o = NotifyResult_zero /\ out_db o = db.
Proof.
  intros Hget. unfold SendNotifications, sendToSubscriptions. rewrite Hget.
  destruct (pushPayload_total req) as (payload & ->). cbn.
  eexists. split; [reflexivity|]. split; reflexivity.
Qed.

(** C4 (amended).  When the read of the subscribers fails, whatever the
    schedule, [SendNotifications] logs the error, dispatches nothing, leaves
    the store as it is and returns the zero aggregate; [HandleNotify] then
    answers 200 with that aggregate, the very response it gives for a
    fan-out over a store whose query returns no subscriber. *)
Theorem SendNotifications_read_failure
    (deliver : nat -> PushCall -> PushResponse) (sched : list choice) (db : DB)
    (clock : gotime) (req : NotifyRequest) (vapid : VAPID) (e : error) :
  GetSubscriptionsByTopic db (ReqTopic req) = Err e ->
  SendNotifications deliver sched db clock req vapid
  = Some {| out_result := {| Sent := 0; Failed := 0; StaleRemoved := 0 |};
            out_db := db; out_clock := clock;
            out_trace := [EvWaitGroupAdd; EvLogFetchError e; EvWaitGroupDone] |} /\
  (Title req <> "" ->
   option_map fst (HandleNotify deliver sched db clock vapid (Some req))
   = Some {| status := StatusOK;
             payload_body := NotifyBody {| Sent := 0; Failed := 0; StaleRemoved := 0 |} |}) /\
  (forall db0,
     GetSubscriptionsByTopic db0 (ReqTopic req) = Ok [] ->
     option_map fst (HandleNotify deliver sched db clock vapid (Some req))
     = option_map fst (HandleNotify deliver [] db0 clock vapid (Some req))).
Proof.
  intros Hget.
  assert (Hsend : SendNotifications deliver sched db clock req vapid
                  = Some {| out_result := NotifyResult_zero; out_db := db; out_clock := clock;
                            out_trace := [EvWaitGroupAdd; EvLogFetchError e; EvWaitGroupDone] |}).
  { unfold SendNotifications. now rewrite Hget. }
  split; [exact Hsend|]. split.
  - intros Htitle. unfold HandleNotify.
    destruct (String.eqb_spec (Title req) ""); [contradiction|]. now rewrite Hsend.
  - intros db0 Hget0.
    destruct (SendNotifications_no_subscribers deliver db0 clock req vapid Hget0)
      as (o0 & Hsend0 & Hres0 & _).
    unfold HandleNotify. destruct (String.eqb (Title req) ""); [reflexivity|].
    rewrite Hsend, Hsend0. cbn. now rewrite Hres0.
Qed.

Lemma SendNotifications_read_failure_witness :
  option_map out_result
    (SendNotifications sample_deliver (sequential 4) broken_db sample_now
       sample_req sample_vapid)
  = Some {| Sent := 0; Failed := 0; StaleRemoved := 0 |}.
Proof.
  destruct (SendNotifications_read_failure sample_deliver (sequential 4) broken_db
              sample_now sample_req sample_vapid
              (Wrapped "query subscriptions" (StorageError "database is locked"))
              eq_refl) as (H & _).
  rewrite H. reflexivity.
Defined.

(** C4, as first stated, fails: with four subscribers behind a failing
    handle, the caller of notify gets the answer it gets from an empty
    healthy store, and nothing in it tells the two apart. *)
Lemma SendNotifications_read_failure_counterexample :
  GetSubscriptionsByTopic broken_db (ReqTopic sample_req)
    = Err (Wrapped "query subscriptions" (StorageError "database is locked")) /\
  GetSubscriptionsByTopic empty_db (ReqTopic sample_req) = Ok [] /\
  option_map out_result
    (SendNotifications sample_deliver [] broken_db sample_now sample_req sample_vapid)
  = option_map out_result
      (SendNotifications sample_deliver [] empty_db sample_now sample_req sample_vapid) /\
  option_map fst (HandleNotify sample_deliver [] broken_db sample_now sample_vapid
                    (Some sample_req))
  = option_map fst (HandleNotify sample_deliver [] empty_db sample_now sample_vapid
                      (Some sample_req)).
Proof. repeat split. Qed.

(** * Further properties *)

(** ** randomID *)

Lemma hexdigit_is_hex n : is_hex (hexdigit n) = true.
Proof.
  destruct n as [|p|p]; try reflexivity.
  do 4 (destruct p as [p|p|]; try reflexivity).
Qed.

(** X1.  An id is two lowercase hexadecimal digits per random byte, 32
    characters for the 16 bytes [randomID] reads, and different bytes give
    different ids. *)
Theorem randomID_format (entropy : list Z) :
  String.length (randomID entropy) = (2 * length entropy)%nat /\
  all_hex (randomID entropy) = true /\
  (length entropy = 16%nat -> String.length (randomID entropy) = 32%nat) /\
  forall entropy',
    Forall byte_ok entropy -> Forall byte_ok entropy' ->
    randomID entropy = randomID entropy' -> entropy = entropy'.
Proof.
  unfold randomID. split; [|split; [|split]].
  - induction entropy as [|x l IH]; simpl; [reflexivity | rewrite IH; lia].
  - induction entropy as [|x l IH]; simpl; [reflexivity|].
    now rewrite !hexdigit_is_hex, IH.
  - intros H16.
    assert (String.length (hex_EncodeToString entropy) = (2 * length entropy)%nat) as ->.
    { clear H16. induction entropy as [|x l IH]; simpl; [reflexivity | rewrite IH; lia]. }
    now rewrite H16.
  - induction entropy as [|x l IH]; intros [|y l'] H1 H2 Heq; simpl in Heq;
      try discriminate; [reflexivity|].
    inversion H1 as [|? ? Hx Hl]; inversion H2 as [|? ? Hy Hl']; subst.
    injection Heq as Hhi Hlo Hrest. unfold byte_ok in Hx, Hy.
    apply hexdigit_inj in Hhi; [| Z.div_mod_to_equations; lia | Z.div_mod_to_equations; lia].
    apply hexdigit_inj in Hlo; [| Z.div_mod_to_equations; lia | Z.div_mod_to_equations; lia].
    f_equal; [Z.div_mod_to_equations; lia | now apply IH].
Qed.

Lemma randomID_format_witness :
  String.length (randomID sample_entropy) = 32%nat /\
  randomID sample_entropy <> randomID other_entropy.
Proof.
  destruct (randomID_format sample_entropy) as (_ & _ & Hlen & Hinj).
  split; [apply Hlen; reflexivity|].
  intros Heq. apply (Hinj other_entropy) in Heq; [discriminate Heq | |];
    repeat constructor; unfold byte_ok; lia.
Defined.

(** ** Deleting subscriptions *)

Lemma set_subscriptions_same db : set_subscriptions db (subscriptions db) = db.
Proof. now destruct db. Qed.

Lemma filter_idempotent {A : Type} (f : A -> bool) (l : list A) :
  List.filter f (List.filter f l) = List.filter f l.
Proof.
  apply filter_all. intros x Hx. now apply filter_In in Hx.
Qed.

Lemma filter_length_partition {A : Type} (f : A -> bool) (l : list A) :
  length l = (length (List.filter f l) + length (List.filter (fun x => negb (f x)) l))%nat.
Proof.
  rewrite <- length_app. apply Permutation_length, filter_partition.
Qed.

(** Removing the rows that carry a key: what is left, in which order, and
    how many rows can go when the key is unique. *)
Lemma delete_rows_spec (g : Subscription -> string) (k : string) (rows : list Subscription) :
  let rows' := List.filter (fun r => negb (String.eqb (g r) k)) rows in
  (forall row, In row rows' <-> In row rows /\ g row <> k) /\
  sublist rows' rows /\
  List.filter (fun r => negb (String.eqb (g r) k)) rows' = rows' /\
  ((forall row, In row rows -> g row <> k) -> rows' = rows) /\
  (List.NoDup (map g rows) -> (length rows <= S (length rows'))%nat).
Proof.
  cbv zeta. split; [|split; [|split; [|split]]].
  - intros row. rewrite filter_In, negb_true_iff, String.eqb_neq. tauto.
  - apply filter_sublist.
  - apply filter_idempotent.
  - intros H. apply filter_all. intros x Hx. apply negb_true_iff, String.eqb_neq. auto.
  - intros Hnd.
    rewrite (filter_length_partition (fun r => String.eqb (g r) k) rows).
    assert (length (List.filter (fun r => String.eqb (g r) k) rows) <= 1)%nat; [|lia].
    destruct (List.filter (fun r => String.eqb (g r) k) rows) as [|a l] eqn:E; [simpl; lia|].
    assert (Ha : In a rows /\ String.eqb (g a) k = true)
      by (apply (filter_In (fun r => String.eqb (g r) k)); rewrite E; now left).
    destruct Ha as [Ha Hk]. apply String.eqb_eq in Hk. subst k.
    pose proof (count_unique g rows a Hnd Ha) as Hc. unfold count in Hc.
    rewrite E in Hc. simpl in *. lia.
Qed.

(** X2.  On a healthy store [DeleteSubscriptionByID] never fails, whether
    or not a row has the id.  It leaves exactly the rows with another id, in
    their order, and leaves the delivery log alone; deleting again changes
    nothing, and deleting an id that no row has changes nothing at all.  On
    a table satisfying the schema at most one row goes, and the schema still
    holds. *)
Theorem DeleteSubscriptionByID_spec (db : DB) (id : string) :
  fault db = None ->
  let '(db', err) := DeleteSubscriptionByID db id in
  err = None /\
  (forall row, In row (subscriptions db') <-> In row (subscriptions db) /\ ID row <> id) /\
  sublist (subscriptions db') (subscriptions db) /\
  delivery_log db' = delivery_log db /\
  DeleteSubscriptionByID db' id = (db', None) /\
  ((forall row, In row (subscriptions db) -> ID row <> id) -> db' = db) /\
  (schema_ok (subscriptions db) ->
   schema_ok (subscriptions db') /\
   (length (subscriptions db) <= S (length (subscriptions db')))%nat).
Proof.
  intros Hf. unfold DeleteSubscriptionByID. rewrite Hf.
  cbn [fault set_subscriptions subscriptions delivery_log]. rewrite Hf.
  destruct (delete_rows_spec ID id (subscriptions db)) as (Hin & Hsub & Hidem & Hnone & Hlen).
  split; [reflexivity|]. split; [exact Hin|]. split; [exact Hsub|]. split; [reflexivity|].
  split; [|split].
  - unfold set_subscriptions. cbn [subscriptions delivery_log delivery_log_seq fault].
    now rewrite Hidem.
  - intros H. rewrite (Hnone H). apply set_subscriptions_same.
  - intros Hs. split; [now apply schema_ok_filter | apply Hlen, Hs].
Qed.

Lemma DeleteSubscriptionByID_spec_witness :
  map ID (subscriptions (fst (DeleteSubscriptionByID sample_db (ID sub_bob))))
  = [ID sub_alice; ID sub_carol; ID sub_dave] /\
  fst (DeleteSubscriptionByID sample_db "no-such-id") = sample_db.
Proof.
  pose proof (DeleteSubscriptionByID_spec sample_db "no-such-id" eq_refl) as H.
  destruct (DeleteSubscriptionByID sample_db "no-such-id") as [db' err].
  destruct H as (_ & _ & _ & _ & _ & Hnone & _).
  split; [reflexivity|]. apply Hnone.
  intros row [<-|[<-|[<-|[<-|[]]]]]; discriminate.
Defined.

(** X3.  On a healthy store [DeleteSubscriptionByEndpoint] never fails,
    whether or not the endpoint is registered.  It leaves exactly the rows
    with another endpoint, in their order; deleting again changes nothing,
    and an unknown endpoint changes nothing at all.  On a table satisfying
    the schema at most one row goes, and the schema still holds. *)
Theorem DeleteSubscriptionByEndpoint_spec (db : DB) (endpoint : string) :
  fault db = None ->
  let '(db', err) := DeleteSubscriptionByEndpoint db endpoint in
  err = None /\
  (forall row, In row (subscriptions db') <->
               In row (subscriptions db) /\ Endpoint row <> endpoint) /\
  sublist (subscriptions db') (subscriptions db) /\
  delivery_log db' = delivery_log db /\
  DeleteSubscriptionByEndpoint db' endpoint = (db', None) /\
  ((forall row, In row (subscriptions db) -> Endpoint row <> endpoint) -> db' = db) /\
  (schema_ok (subscriptions db) ->
   schema_ok (subscriptions db') /\
   (length (subscriptions db) <= S (length (subscriptions db')))%nat).
Proof.
  intros Hf. unfold DeleteSubscriptionByEndpoint. rewrite Hf.
  cbn [fault set_subscriptions subscriptions delivery_log]. rewrite Hf.
  destruct (delete_rows_spec Endpoint endpoint (subscriptions db))
    as (Hin & Hsub & Hidem & Hnone & Hlen).
  split; [reflexivity|]. split; [exact Hin|]. split; [exact Hsub|]. split; [reflexivity|].
  split; [|split].
  - unfold set_subscriptions. cbn [subscriptions delivery_log delivery_log_seq fault].
    now rewrite Hidem.
  - intros H. rewrite (Hnone H). apply set_subscriptions_same.
  - intros Hs. split; [now apply schema_ok_filter | apply Hlen, Hs].
Qed.

Lemma DeleteSubscriptionByEndpoint_spec_witness :
  map ID (subscriptions (fst (DeleteSubscriptionByEndpoint sample_db (Endpoint sub_bob))))
  = [ID sub_alice; ID sub_carol; ID sub_dave] /\
  fst (DeleteSubscriptionByEndpoint sample_db new_endpoint) = sample_db.
Proof.
  pose proof (DeleteSubscriptionByEndpoint_spec sample_db new_endpoint eq_refl) as H.
  destruct (DeleteSubscriptionByEndpoint sample_db new_endpoint) as [db' err].
  destruct H as (_ & _ & _ & _ & _ & Hnone & _).
  split; [reflexivity|]. apply Hnone.
  intros row [<-|[<-|[<-|[<-|[]]]]]; discriminate.
Defined.

(** A failing handle: both deletions report the error and leave the store
    as it is. *)
Lemma Delete_faulty db key msg :
  fault db = Some msg ->
  DeleteSubscriptionByID db key = (db, Some (StorageError msg)) /\
  DeleteSubscriptionByEndpoint db key = (db, Some (StorageError msg)).
Proof.
  intros Hf. unfold DeleteSubscriptionByID, DeleteSubscriptionByEndpoint.
  now rewrite Hf.
Qed.

(** ** Registering, looking up and removing a subscription *)

(** The table after a registration: one row carries the endpoint, with the
    returned id and the given topic and keys, between the rows that were
    before and after it, none of which has the endpoint or the id. *)
Lemma UpsertSubscription_shape (db : DB) (entropy : list Z) (now : gotime)
    (topic endpoint p256dh auth : string) :
  fault db = None ->
  schema_ok (subscriptions db) ->
  ~ In (randomID entropy) (map ID (subscriptions db)) ->
  exists pre post id created c,
    UpsertSubscription db entropy now topic endpoint p256dh auth =
      (set_subscriptions db
         (pre ++ {| ID := id; Topic := topic; Endpoint := endpoint;
                    KeyP256dh := p256dh; KeyAuth := auth; CreatedAt := c |} :: post),
       Ok (id, created)) /\
    (forall x, In x (pre ++ post) -> Endpoint x <> endpoint /\ ID x <> id) /\
    schema_ok (pre ++ {| ID := id; Topic := topic; Endpoint := endpoint;
                         KeyP256dh := p256dh; KeyAuth := auth; CreatedAt := c |} :: post) /\
    (created = true ->
       subscriptions db = pre /\ post = [] /\ id = randomID entropy /\ c = datetime_now now) /\
    (created = false ->
       exists r, subscriptions db = pre ++ r :: post /\ Endpoint r = endpoint /\
                 ID r = id /\ CreatedAt r = c).
Proof.
  intros Hfault [Hids Heps] Hfresh.
  unfold UpsertSubscription. rewrite Hfault. unfold exec_upsert.
  set (newID := randomID entropy) in *.
  destruct (existsb (fun r => String.eqb (Endpoint r) endpoint) (subscriptions db)) eqn:Hex.
  - apply existsb_exists in Hex as (r0 & Hin0 & Heq0). apply String.eqb_eq in Heq0.
    destruct (endpoint_split _ _ Heps Hin0) as (pre & post & Hrows & Hpre & Hpost).
    rewrite Heq0 in Hpre, Hpost.
    assert (Hmap : map (fun r => if String.eqb (Endpoint r) endpoint
                                 then upsert_row topic p256dh auth r else r)
                       (subscriptions db)
                   = pre ++ upsert_row topic p256dh auth r0 :: post).
    { rewrite Hrows, map_app. simpl. rewrite Heq0, String.eqb_refl.
      now rewrite !map_if_skip by assumption. }
    rewrite Hmap. unfold query_id_by_endpoint.
    rewrite find_app_skip by assumption. simpl.
    rewrite Heq0, String.eqb_refl. simpl.
    assert (Hne : String.eqb (ID r0) newID = false).
    { apply String.eqb_neq. intros E. apply Hfresh. rewrite <- E. now apply in_map. }
    rewrite Hne. simpl.
    assert (Hrow : upsert_row topic p256dh auth r0 =
                   {| ID := ID r0; Topic := topic; Endpoint := endpoint;
                      KeyP256dh := p256dh; KeyAuth := auth; CreatedAt := CreatedAt r0 |}).
    { unfold upsert_row. now rewrite Heq0. }
    rewrite Hrow.
    exists pre, post, (ID r0), false, (CreatedAt r0).
    split; [reflexivity|]. split; [|split; [|split]].
    + intros x Hx. split.
      * apply String.eqb_neq. apply in_app_iff in Hx as [Hx|Hx]; auto.
      * intros E. rewrite Hrows, map_app in Hids. simpl in Hids.
        apply NoDup_remove_2 in Hids. apply Hids. rewrite <- E, <- map_app.
        now apply in_map.
    + split.
      * replace (map ID _) with (map ID (subscriptions db)); [assumption|].
        rewrite Hrows, !map_app. reflexivity.
      * replace (map Endpoint _) with (map Endpoint (subscriptions db)); [assumption|].
        rewrite Hrows, !map_app. simpl. now rewrite Heq0.
    + discriminate.
    + intros _. exists r0. auto.
  - pose proof (proj1 (existsb_false_In _ _) Hex) as Hnone.
    assert (Hid : existsb (fun r => String.eqb (ID r) newID) (subscriptions db) = false).
    { apply existsb_false_In. intros x Hx. apply String.eqb_neq. intros E.
      apply Hfresh. rewrite <- E. now apply in_map. }
    rewrite Hid. unfold query_id_by_endpoint.
    rewrite find_app_skip by assumption. simpl.
    rewrite !String.eqb_refl. simpl.
    exists (subscriptions db), [], newID, true, (datetime_now now).
    split; [reflexivity|]. split; [|split; [|split]].
    + intros x Hx. rewrite app_nil_r in Hx. split.
      * apply String.eqb_neq. auto.
      * intros E. apply Hfresh. rewrite <- E. now apply in_map.
    + split; rewrite map_app; simpl.
      * apply NoDup_app_snoc; assumption.
      * apply NoDup_app_snoc; [assumption|].
        intros Hin. apply in_map_iff in Hin as (x & Hx & Hxin).
        apply Hnone in Hxin. apply String.eqb_neq in Hxin. contradiction.
    + auto.
    + discriminate.
Qed.

Lemma sample_entropy_fresh : ~ In (randomID sample_entropy) (map ID (subscriptions sample_db)).
Proof. apply mem_false. reflexivity. Qed.

(** X4.  A registration is what a delivery then reads.  After
    [UpsertSubscription] succeeded with an id, [GetSubscriptionsByTopic]
    returns the record with that id and the given endpoint, topic and keys
    for the given topic and for the empty topic (everyone), and for no other
    topic: registering again under another topic moves the subscriber.  No
    other record with that endpoint is ever returned. *)
Theorem UpsertSubscription_then_query (db : DB) (entropy : list Z) (now : gotime)
    (topic endpoint p256dh auth : string) :
  fault db = None ->
  schema_ok (subscriptions db) ->
  ~ In (randomID entropy) (map ID (subscriptions db)) ->
  let '(db', res) := UpsertSubscription db entropy now topic endpoint p256dh auth in
  exists id created c,
    res = Ok (id, created) /\
    let row := {| ID := id; Topic := topic; Endpoint := endpoint;
                  KeyP256dh := p256dh; KeyAuth := auth; CreatedAt := c |} in
    forall t, exists subs,
      GetSubscriptionsByTopic db' t = Ok subs /\
      (In row subs <-> t = "" \/ t = topic) /\
      (forall r, In r subs -> Endpoint r = endpoint -> r = row).
Proof.
  intros Hf Hs Hfresh.
  destruct (UpsertSubscription_shape db entropy now topic endpoint p256dh auth Hf Hs Hfresh)
    as (pre & post & id & created & c & -> & Hother & _ & _ & _).
  exists id, created, c. split; [reflexivity|]. cbv zeta. intros t.
  set (row := {| ID := id; Topic := topic; Endpoint := endpoint;
                 KeyP256dh := p256dh; KeyAuth := auth; CreatedAt := c |}).
  assert (Hin : forall r, In r (pre ++ row :: post) -> Endpoint r = endpoint -> r = row).
  { intros r Hr He. apply in_app_iff in Hr as [Hr|[Hr|Hr]]; [|now symmetry|].
    - destruct (Hother r); [apply in_app_iff; now left | contradiction].
    - destruct (Hother r); [apply in_app_iff; now right | contradiction]. }
  unfold GetSubscriptionsByTopic. cbn [fault set_subscriptions subscriptions]. rewrite Hf.
  destruct (String.eqb_spec t "") as [->|Ht].
  - eexists. split; [reflexivity|]. split; [|exact Hin].
    split; [now left | intros _; apply in_app_iff; right; now left].
  - eexists. split; [reflexivity|]. split.
    + rewrite filter_In. cbn [Topic row]. rewrite String.eqb_eq. split.
      * intros [_ ->]. now right.
      * intros [-> | ->]; [contradiction|].
        split; [apply in_app_iff; right; now left | reflexivity].
    + intros r Hr. apply filter_In in Hr as [Hr _]. now apply Hin.
Qed.

Lemma UpsertSubscription_then_query_witness :
  exists id created c,
    snd (UpsertSubscription sample_db sample_entropy sample_now
           "sports" (Endpoint sub_bob) "pk-rotated" "auth-rotated") = Ok (id, created) /\
    exists subs,
      GetSubscriptionsByTopic
        (fst (UpsertSubscription sample_db sample_entropy sample_now
                "sports" (Endpoint sub_bob) "pk-rotated" "auth-rotated")) "sports" = Ok subs /\
      In {| ID := id; Topic := "sports"; Endpoint := Endpoint sub_bob;
            KeyP256dh := "pk-rotated"; KeyAuth := "auth-rotated"; CreatedAt := c |} subs.
Proof.
  pose proof (UpsertSubscription_then_query sample_db sample_entropy sample_now
                "sports" (Endpoint sub_bob) "pk-rotated" "auth-rotated"
                eq_refl sample_db_schema_ok sample_entropy_fresh) as H.
  destruct (UpsertSubscription sample_db sample_entropy sample_now
              "sports" (Endpoint sub_bob) "pk-rotated" "auth-rotated") as [db' res].
  destruct H as (id & created & c & Hres & H).
  exists id, created, c. split; [exact Hres|].
  destruct (H "sports") as (subs & Hget & Hin & _).
  exists subs. split; [exact Hget|]. apply Hin. now right.
Defined.

Lemma filter_middle {A : Type} (f : A -> bool) (pre post : list A) (r : A) :
  (forall x, In x (pre ++ post) -> f x = true) -> f r = false ->
  List.filter f (pre ++ r :: post) = pre ++ post.
Proof.
  intros Hall Hr. rewrite List.filter_app. simpl. rewrite Hr.
  rewrite !filter_all; [reflexivity| |]; intros x Hx; apply Hall, in_app_iff; auto.
Qed.

(** X5.  Registering an endpoint a second time is an update, never a second
    record.  On a healthy store that satisfies the schema, and when neither
    call draws an id that is the id of a record stored at that time, the
    second call returns the id of the first with [created = false], and the
    table keeps its length, its ids and its creation times.  With the same
    topic and keys the second call changes nothing. *)
Theorem UpsertSubscription_again (db : DB) (e1 e2 : list Z) (now1 now2 : gotime)
    (endpoint t1 k1 a1 t2 k2 a2 : string) :
  fault db = None ->
  schema_ok (subscriptions db) ->
  ~ In (randomID e1) (map ID (subscriptions db)) ->
  let '(db1, res1) := UpsertSubscription db e1 now1 t1 endpoint k1 a1 in
  ~ In (randomID e2) (map ID (subscriptions db1)) ->
  let '(db2, res2) := UpsertSubscription db1 e2 now2 t2 endpoint k2 a2 in
  exists id created,
    res1 = Ok (id, created) /\ res2 = Ok (id, false) /\
    length (subscriptions db2) = length (subscriptions db1) /\
    map ID (subscriptions db2) = map ID (subscriptions db1) /\
    map CreatedAt (subscriptions db2) = map CreatedAt (subscriptions db1) /\
    (t2 = t1 -> k2 = k1 -> a2 = a1 -> db2 = db1).
Proof.
  intros Hf Hs Hfresh.
  destruct (UpsertSubscription_shape db e1 now1 t1 endpoint k1 a1 Hf Hs Hfresh)
    as (pre & post & id & created & c & -> & Hother & Hs1 & _ & _).
  intros Hfresh2.
  set (row1 := {| ID := id; Topic := t1; Endpoint := endpoint;
                  KeyP256dh := k1; KeyAuth := a1; CreatedAt := c |}) in *.
  set (db1 := set_subscriptions db (pre ++ row1 :: post)) in *.
  assert (Hf1 : fault db1 = None) by exact Hf.
  destruct (UpsertSubscription_shape db1 e2 now2 t2 endpoint k2 a2 Hf1 Hs1 Hfresh2)
    as (pre' & post' & id' & created' & c' & -> & Hother' & _ & Hnew & Hold).
  assert (Hrow1 : In row1 (subscriptions db1)).
  { cbn [db1 set_subscriptions subscriptions]. apply in_app_iff. right. now left. }
  destruct created'.
  - exfalso. destruct (Hnew eq_refl) as (Hpre & _).
    destruct (Hother' row1) as [Hne _]; [|now apply Hne].
    apply in_app_iff. left. now rewrite <- Hpre.
  - destruct (Hold eq_refl) as (r & Hrows & Hep & Hid & Hc).
    assert (r = row1) as ->.
    { assert (Hr : In r (subscriptions db1)).
      { rewrite Hrows. apply in_app_iff. right. now left. }
      cbn [db1 set_subscriptions subscriptions] in Hr.
      apply in_app_iff in Hr as [Hr|[Hr|Hr]]; [|now symmetry|].
      - destruct (Hother r); [apply in_app_iff; now left | contradiction].
      - destruct (Hother r); [apply in_app_iff; now right | contradiction]. }
    cbn [row1 ID CreatedAt] in Hid, Hc. subst id' c'.
    exists id, created. split; [reflexivity|]. split; [reflexivity|].
    cbn [set_subscriptions subscriptions]. fold db1. rewrite Hrows.
    split; [|split; [|split]].
    + now rewrite !length_app.
    + now rewrite !map_app.
    + now rewrite !map_app.
    + intros -> -> ->. fold row1. rewrite <- Hrows. apply set_subscriptions_same.
Qed.

Lemma UpsertSubscription_again_witness :
  let db1 := fst (UpsertSubscription sample_db sample_entropy sample_now
                    "news" new_endpoint "pk-erin" "auth-erin") in
  exists id created,
    snd (UpsertSubscription sample_db sample_entropy sample_now
           "news" new_endpoint "pk-erin" "auth-erin") = Ok (id, created) /\
    snd (UpsertSubscription db1 other_entropy (sample_now + Hour)
           "news" new_endpoint "pk-erin" "auth-erin") = Ok (id, false) /\
    fst (UpsertSubscription db1 other_entropy (sample_now + Hour)
           "news" new_endpoint "pk-erin" "auth-erin") = db1.
Proof.
  cbv zeta.
  pose proof (UpsertSubscription_again sample_db sample_entropy other_entropy
                sample_now (sample_now + Hour) new_endpoint
                "news" "pk-erin" "auth-erin" "news" "pk-erin" "auth-erin"
                eq_refl sample_db_schema_ok sample_entropy_fresh) as H.
  destruct (UpsertSubscription sample_db sample_entropy sample_now
              "news" new_endpoint "pk-erin" "auth-erin") as [db1 res1] eqn:E1.
  assert (Hfresh : ~ In (randomID other_entropy) (map ID (subscriptions db1))).
  { apply mem_false. inversion E1. reflexivity. }
  specialize (H Hfresh). cbn [fst snd].
  destruct (UpsertSubscription db1 other_entropy (sample_now + Hour)
              "news" new_endpoint "pk-erin" "auth-erin") as [db2 res2].
  destruct H as (id & created & H1 & H2 & _ & _ & _ & Hsame).
  exists id, created. cbn [fst snd]. auto.
Defined.

(** X6.  Removing what was registered.  On a healthy store that satisfies
    the schema, after a registration whose drawn id is not the id of a
    stored record, [DeleteSubscriptionByEndpoint] with the endpoint and
    [DeleteSubscriptionByID] with the returned id both leave the table the
    store had before, less any record of that endpoint; when the
    registration created the record, the store is back where it was. *)
Theorem UpsertSubscription_then_delete (db : DB) (entropy : list Z) (now : gotime)
    (topic endpoint p256dh auth : string) :
  fault db = None ->
  schema_ok (subscriptions db) ->
  ~ In (randomID entropy) (map ID (subscriptions db)) ->
  let '(db1, res) := UpsertSubscription db entropy now topic endpoint p256dh auth in
  let rest := set_subscriptions db
                (List.filter (fun r => negb (String.eqb (Endpoint r) endpoint))
                             (subscriptions db)) in
  exists id created,
    res = Ok (id, created) /\
    DeleteSubscriptionByEndpoint db1 endpoint = (rest, None) /\
    DeleteSubscriptionByID db1 id = (rest, None) /\
    (created = true -> rest = db).
Proof.
  intros Hf Hs Hfresh.
  destruct (UpsertSubscription_shape db entropy now topic endpoint p256dh auth Hf Hs Hfresh)
    as (pre & post & id & created & c & -> & Hother & _ & Hnew & Hold).
  cbv zeta. exists id, created. split; [reflexivity|].
  assert (Hrest : List.filter (fun r => negb (String.eqb (Endpoint r) endpoint))
                              (subscriptions db) = pre ++ post).
  { destruct created.
    - destruct (Hnew eq_refl) as (-> & -> & _). rewrite app_nil_r.
      apply filter_all. intros x Hx. apply negb_true_iff, String.eqb_neq.
      apply Hother. now rewrite app_nil_r.
    - destruct (Hold eq_refl) as (r & -> & Hep & _).
      apply filter_middle.
      + intros x Hx. apply negb_true_iff, String.eqb_neq. now apply Hother.
      + rewrite Hep, String.eqb_refl. reflexivity. }
  rewrite Hrest.
  unfold DeleteSubscriptionByEndpoint, DeleteSubscriptionByID.
  cbn [fault set_subscriptions subscriptions delivery_log delivery_log_seq]. rewrite Hf.
  rewrite !filter_middle.
  - split; [reflexivity|]. split; [reflexivity|].
    intros ->. destruct (Hnew eq_refl) as (<- & -> & _). rewrite app_nil_r.
    apply set_subscriptions_same.
  - intros x Hx. apply negb_true_iff, String.eqb_neq. now apply Hother.
  - cbn [ID]. now rewrite String.eqb_refl.
  - intros x Hx. apply negb_true_iff, String.eqb_neq. now apply Hother.
  - cbn [Endpoint]. now rewrite String.eqb_refl.
Qed.

Lemma UpsertSubscription_then_delete_witness :
  DeleteSubscriptionByEndpoint
    (fst (UpsertSubscription sample_db sample_entropy sample_now
            "news" new_endpoint "pk-erin" "auth-erin")) new_endpoint
  = (sample_db, None).
Proof.
  pose proof (UpsertSubscription_then_delete sample_db sample_entropy sample_now
                "news" new_endpoint "pk-erin" "auth-erin"
                eq_refl sample_db_schema_ok sample_entropy_fresh) as H.
  destruct (UpsertSubscription sample_db sample_entropy sample_now
              "news" new_endpoint "pk-erin" "auth-erin") as [db1 res].
  destruct H as (id & created & _ & Hdel & _). exact Hdel.
Defined.

(** ** The delivery log *)

Lemma ids_increase_weaken (l : list Z) (b b' : Z) :
  b' <= b -> ids_increase b l = true -> ids_increase b' l = true.
Proof.
  destruct l as [|x l]; simpl; intros Hb H; [reflexivity|].
  apply andb_true_iff in H as [Hx Hl]. apply andb_true_iff. split; [|assumption].
  apply Z.ltb_lt in Hx. apply Z.ltb_lt. lia.
Qed.

Lemma ids_increase_filter {A : Type} (g : A -> Z) (f : A -> bool) (l : list A) :
  forall b, ids_increase b (map g l) = true ->
            ids_increase b (map g (List.filter f l)) = true.
Proof.
  induction l as [|a l IH]; simpl; intros b H; [reflexivity|].
  apply andb_true_iff in H as [Ha Hl]. destruct (f a); simpl.
  - rewrite Ha. simpl. now apply IH.
  - apply ids_increase_weaken with (b := g a); [apply Z.ltb_lt in Ha; lia | now apply IH].
Qed.

Lemma ids_increase_snoc (l : list Z) (x : Z) :
  forall b, ids_increase b l = true -> (forall y, In y l -> y < x) -> b < x ->
            ids_increase b (l ++ [x]) = true.
Proof.
  induction l as [|a l IH]; simpl; intros b H Hall Hb.
  - apply andb_true_iff. split; [now apply Z.ltb_lt | reflexivity].
  - apply andb_true_iff in H as [Ha Hl]. rewrite Ha. simpl.
    apply IH; [assumption | intros y Hy; apply Hall; now right | apply Hall; now left].
Qed.

Lemma ids_increase_NoDup (l : list Z) :
  forall b, ids_increase b l = true -> List.NoDup l /\ forall y, In y l -> b < y.
Proof.
  induction l as [|a l IH]; simpl; intros b H.
  - split; [constructor | intros y []].
  - apply andb_true_iff in H as [Ha Hl]. apply Z.ltb_lt in Ha.
    destruct (IH a Hl) as [Hnd Hgt]. split.
    + constructor; [|assumption]. intros Hin. apply Hgt in Hin. lia.
    + intros y [<-|Hy]; [assumption|]. apply Hgt in Hy. lia.
Qed.

Lemma LogDelivery_log_ok (db : DB) (now : gotime) (subscriptionID : string)
    (statusCode : Z) (errMsg : string) :
  log_ok db -> log_ok (fst (LogDelivery db now subscriptionID statusCode errMsg)).
Proof.
  intros (Hinc & Hseq & Hpos). rewrite List.Forall_forall in Hseq.
  unfold LogDelivery. destruct (fault db).
  { repeat split; [assumption | now apply List.Forall_forall | assumption]. }
  cbn [fst]. repeat split; cbn [set_delivery_log delivery_log delivery_log_seq].
  - rewrite map_app. simpl. apply ids_increase_snoc; [assumption| |lia].
    intros y Hy. apply in_map_iff in Hy as (e & <- & He).
    specialize (Hseq e He). simpl in Hseq. lia.
  - apply List.Forall_forall. intros e He. apply in_app_iff in He as [He|[<-|[]]].
    + specialize (Hseq e He). simpl in Hseq. lia.
    + simpl. lia.
  - lia.
Qed.

Lemma PurgeDeliveryLog_log_ok (db : DB) (now : gotime) (olderThan : Z) :
  log_ok db -> log_ok (fst (PurgeDeliveryLog db now olderThan)).
Proof.
  intros (Hinc & Hseq & Hpos). rewrite List.Forall_forall in Hseq.
  unfold PurgeDeliveryLog. destruct (fault db).
  { repeat split; [assumption | now apply List.Forall_forall | assumption]. }
  cbn [fst]. repeat split; cbn [set_delivery_log delivery_log delivery_log_seq].
  - now apply ids_increase_filter.
  - apply List.Forall_forall. intros e He. apply filter_In in He as [He _]. now apply Hseq.
  - assumption.
Qed.

(** X7.  The ids of the delivery log are those of an AUTOINCREMENT column.
    Starting from the empty store, [LogDelivery] and [PurgeDeliveryLog] keep
    them positive, distinct and increasing along the table, and bounded by
    the counter.  On a healthy store [LogDelivery] appends one entry, stamped
    with the current second, whose id is larger than every id in the log;
    purging does not touch the counter, so an entry logged after a purge
    still gets an id larger than every id the log had before it: ids are
    not reused. *)
Theorem delivery_log_ids (db : DB) (now now' : gotime) (subscriptionID : string)
    (statusCode : Z) (errMsg : string) (olderThan : Z) :
  log_ok db ->
  log_ok empty_db /\
  log_ok (fst (LogDelivery db now subscriptionID statusCode errMsg)) /\
  log_ok (fst (PurgeDeliveryLog db now olderThan)) /\
  List.NoDup (map log_id (delivery_log db)) /\
  (fault db = None ->
   forall db0, db0 = db \/ db0 = fst (PurgeDeliveryLog db now olderThan) ->
   exists e,
     LogDelivery db0 now' subscriptionID statusCode errMsg =
       (set_delivery_log db0 (delivery_log db0 ++ [e]) (log_id e), None) /\
     subscription_id e = subscriptionID /\ status_code e = statusCode /\
     log_error e = errMsg /\ sent_at e = Format now' /\
     forall e', In e' (delivery_log db) -> log_id e' < log_id e).
Proof.
  intros Hok. pose proof Hok as (Hinc & Hseq & Hpos). rewrite List.Forall_forall in Hseq.
  split; [|split; [|split; [|split]]].
  - repeat split; [constructor | simpl; lia].
  - now apply LogDelivery_log_ok.
  - now apply PurgeDeliveryLog_log_ok.
  - apply (ids_increase_NoDup _ _ Hinc).
  - intros Hf db0 Hdb0.
    assert (Hf0 : fault db0 = None /\ delivery_log_seq db0 = delivery_log_seq db).
    { destruct Hdb0 as [->| ->]; [now split|].
      unfold PurgeDeliveryLog. rewrite Hf. now split. }
    destruct Hf0 as [Hf0 Hseq0].
    unfold LogDelivery. rewrite Hf0.
    exists {| log_id := delivery_log_seq db0 + 1; subscription_id := subscriptionID;
              sent_at := datetime_now now'; status_code := statusCode;
              log_error := errMsg |}.
    split; [reflexivity|].
    cbn [subscription_id status_code log_error sent_at log_id]. repeat split.
    intros e' He'. specialize (Hseq e' He'). simpl in Hseq. lia.
Qed.

Lemma delivery_log_ids_witness :
  log_ok aged_db /\
  List.NoDup (map log_id (delivery_log aged_db)) /\
  log_ok (fst (LogDelivery aged_db sample_now (ID sub_alice) 201 "")).
Proof.
  assert (H : log_ok aged_db).
  { repeat split; [repeat constructor; vm_compute; discriminate | vm_compute; discriminate]. }
  split; [exact H|].
  destruct (delivery_log_ids aged_db sample_now sample_now (ID sub_alice) 201 "" 0 H)
    as (_ & Hlog & _ & Hnd & _).
  split; assumption.
Defined.

Lemma filter_none {A : Type} (f : A -> bool) (l : list A) :
  (forall x, In x l -> f x = false) -> List.filter f l = [].
Proof.
  induction l as [|a l IH]; simpl; intros H; [reflexivity|].
  rewrite (H a) by now left. apply IH. intros x Hx. apply H. now right.
Qed.

Lemma Format_mono (a b : gotime) : a <= b -> Format a <= Format b.
Proof. intros H. unfold Format, Second. apply Z.div_le_mono; lia. Qed.

Lemma PurgeDeliveryLog_healthy db now olderThan :
  fault db = None ->
  PurgeDeliveryLog db now olderThan =
    (set_delivery_log db
       (List.filter (fun e => negb (sent_at e <? Format (purge_cutoff now olderThan)))
                    (delivery_log db))
       (delivery_log_seq db),
     Ok (Z.of_nat (length (List.filter
                             (fun e => sent_at e <? Format (purge_cutoff now olderThan))
                             (delivery_log db))))).
Proof. intros Hf. unfold PurgeDeliveryLog. now rewrite Hf. Qed.

(** X8.  Purging twice on a healthy store.  The cut-off of a purge is the
    instant [purge_cutoff] the code computes: the present plus the negation,
    taken in [int64], of the duration.  After a purge, a second purge whose
    cut-off is not later deletes nothing and reports 0; a second purge with
    a later cut-off leaves the log a single purge with that cut-off leaves,
    and the two counts add up to the count of that single purge. *)
Theorem PurgeDeliveryLog_twice (db : DB) (now1 d1 now2 d2 : Z) :
  fault db = None ->
  let db1 := fst (PurgeDeliveryLog db now1 d1) in
  exists n1 n2 n,
    snd (PurgeDeliveryLog db now1 d1) = Ok n1 /\
    snd (PurgeDeliveryLog db1 now2 d2) = Ok n2 /\
    snd (PurgeDeliveryLog db now2 d2) = Ok n /\
    0 <= n1 /\ 0 <= n2 /\
    (purge_cutoff now2 d2 <= purge_cutoff now1 d1 ->
       n2 = 0 /\ fst (PurgeDeliveryLog db1 now2 d2) = db1) /\
    (purge_cutoff now1 d1 <= purge_cutoff now2 d2 ->
       n1 + n2 = n /\
       fst (PurgeDeliveryLog db1 now2 d2) = fst (PurgeDeliveryLog db now2 d2)).
Proof.
  intros Hf. cbv zeta. rewrite (PurgeDeliveryLog_healthy db now1 d1 Hf).
  rewrite (PurgeDeliveryLog_healthy db now2 d2 Hf). cbn [fst snd].
  rewrite PurgeDeliveryLog_healthy by exact Hf.
  cbn [fst snd set_delivery_log subscriptions delivery_log delivery_log_seq fault].
  set (c1 := Format (purge_cutoff now1 d1)). set (c2 := Format (purge_cutoff now2 d2)).
  set (l := delivery_log db).
  do 3 eexists. split; [reflexivity|]. split; [reflexivity|]. split; [reflexivity|].
  split; [lia|]. split; [lia|]. split.
  - intros Hle. apply Format_mono in Hle. fold c1 c2 in Hle.
    assert (Hkept : forall e, In e (List.filter (fun e => negb (sent_at e <? c1)) l) ->
                              (sent_at e <? c2) = false).
    { intros e He. apply filter_In in He as [_ He]. apply negb_true_iff in He.
      apply Z.ltb_ge in He. apply Z.ltb_ge. lia. }
    rewrite filter_none by exact Hkept.
    rewrite (filter_all (fun e => negb (sent_at e <? c2))
               (List.filter (fun e => negb (sent_at e <? c1)) l));
      [split; reflexivity|].
    intros e He. apply negb_true_iff. now apply Hkept.
  - intros Hle. apply Format_mono in Hle. fold c1 c2 in Hle. split.
    + rewrite (filter_length_partition (fun e => sent_at e <? c1)
                 (List.filter (fun e => sent_at e <? c2) l)).
      rewrite <- !filter_andb. rewrite Nat2Z.inj_add. f_equal; do 2 f_equal.
      * apply List.filter_ext. intros e.
        destruct (Z.ltb_spec (sent_at e) c1), (Z.ltb_spec (sent_at e) c2); try reflexivity; lia.
      * apply List.filter_ext. intros e. apply andb_comm.
    + f_equal. rewrite <- filter_andb. apply List.filter_ext. intros e.
      destruct (Z.ltb_spec (sent_at e) c1), (Z.ltb_spec (sent_at e) c2); try reflexivity; lia.
Qed.

Lemma PurgeDeliveryLog_twice_witness :
  let db1 := fst (PurgeDeliveryLog aged_db sample_now (30 * (24 * Hour))) in
  exists n1 n2 n,
    snd (PurgeDeliveryLog aged_db sample_now (30 * (24 * Hour))) = Ok n1 /\
    snd (PurgeDeliveryLog db1 sample_now (20 * (24 * Hour))) = Ok n2 /\
    snd (PurgeDeliveryLog aged_db sample_now (20 * (24 * Hour))) = Ok n /\
    n1 + n2 = n.
Proof.
  destruct (PurgeDeliveryLog_twice aged_db sample_now (30 * (24 * Hour))
              sample_now (20 * (24 * Hour)) eq_refl)
    as (n1 & n2 & n & H1 & H2 & H3 & _ & _ & _ & Hlater).
  exists n1, n2, n. repeat split; try assumption.
  apply Hlater. vm_compute. discriminate.
Defined.

(** X9.  What the purge handler answers.  An absent [older_than] is read
    as [30d].  The answer is 400 when the parameter is no purge-age token,
    500 when it is one and the store fails, and otherwise 200 with a count
    that is the number of entries the log lost.  The handler never touches
    the subscriptions, only removes log entries, and leaves the store as it
    was unless it answers 200. *)
Theorem HandlePurgeDeliveryLog_outcomes (db : DB) (now : gotime) (older_than : string) :
  let '(db', resp) := HandlePurgeDeliveryLog db now older_than in
  let s := if String.eqb older_than "" then "30d" else older_than in
  HandlePurgeDeliveryLog db now "" = HandlePurgeDeliveryLog db now "30d" /\
  subscriptions db' = subscriptions db /\
  sublist (delivery_log db') (delivery_log db) /\
  ((status resp = StatusBadRequest /\ db' = db /\ ~ (exists ds u, duration_token s ds u)) \/
   (status resp = StatusInternalServerError /\ db' = db /\ fault db <> None /\
    exists ds u, duration_token s ds u) \/
   (status resp = StatusOK /\ fault db = None /\
    (exists ds u, duration_token s ds u) /\
    payload_body resp =
      DeletedBody (Z.of_nat (length (delivery_log db)) - Z.of_nat (length (delivery_log db'))))).
Proof.
  unfold HandlePurgeDeliveryLog at 1.
  set (s := if String.eqb older_than "" then "30d" else older_than).
  destruct (durationRe_FindStringSubmatch s) as [[m1 m2]|] eqn:Hm.
  - apply durationRe_match_iff in Hm as (u & _ & Htok).
    rewrite (parseDuration_token _ _ _ Htok).
    set (dur := if Ascii.eqb u "d" then _ else _).
    destruct (fault db) as [msg|] eqn:Hf.
    + unfold PurgeDeliveryLog. rewrite Hf. cbv zeta.
      split; [reflexivity|]. split; [reflexivity|]. split; [reflexivity|].
      right. left. repeat split; [congruence | eauto].
    + rewrite (PurgeDeliveryLog_healthy db now dur Hf). cbv zeta.
      cbn [set_delivery_log subscriptions delivery_log status payload_body].
      split; [reflexivity|]. split; [reflexivity|]. split; [apply filter_sublist|].
      right. right. repeat split; [eauto|]. f_equal.
      rewrite (filter_length_partition
                 (fun e => sent_at e <? Format (purge_cutoff now dur)) (delivery_log db)).
      lia.
  - unfold parseDuration. rewrite Hm. cbv zeta.
    split; [reflexivity|]. split; [reflexivity|]. split; [reflexivity|].
    left. repeat split. now apply durationRe_no_match.
Qed.

(** ** The admin listing *)

(** X10.  The admin listing shows the records a notification to the same
    topic would be sent to, in the same order, with their id, topic,
    endpoint and creation time, and with both keys blank; it fails when and
    only when that read fails, and the handler then answers 500 instead of
    200. *)
Theorem HandleListSubscriptions_spec (db : DB) (topic : string) :
  match GetSubscriptionsByTopic db topic with
  | Ok subs =>
    exists shown,
      ListSubscriptionsAdmin db topic = Ok shown /\
      HandleListSubscriptions db topic = writeJSON StatusOK (JSONSubscriptions shown) /\
      map ID shown = map ID subs /\
      map Topic shown = map Topic subs /\
      map Endpoint shown = map Endpoint subs /\
      map CreatedAt shown = map CreatedAt subs /\
      Forall (fun r => KeyP256dh r = "" /\ KeyAuth r = "") shown
  | Err e =>
    ListSubscriptionsAdmin db topic = Err e /\
    reply_status (HandleListSubscriptions db topic) = StatusInternalServerError
  end.
Proof.
  unfold HandleListSubscriptions, ListSubscriptionsAdmin, GetSubscriptionsByTopic.
  destruct (fault db); [split; reflexivity|].
  assert (H : forall subs,
             map ID (map redact subs) = map ID subs /\
             map Topic (map redact subs) = map Topic subs /\
             map Endpoint (map redact subs) = map Endpoint subs /\
             map CreatedAt (map redact subs) = map CreatedAt subs /\
             Forall (fun r => KeyP256dh r = "" /\ KeyAuth r = "") (map redact subs)).
  { intros subs. rewrite !map_map. repeat split.
    apply List.Forall_forall. intros r Hr. apply in_map_iff in Hr as (x & <- & _).
    now split. }
  destruct (String.eqb topic ""); eexists; (split; [reflexivity|]);
    (split; [reflexivity|]); apply H.
Qed.

(** ** VAPID key strings *)

Lemma EncodeToString_length (src : list Z) :
  String.length (EncodeToString src) = ((4 * length src + 2) / 3)%nat.
Proof.
  induction src as [| a | a b | a b c l IH] using list_ind3; try reflexivity.
  cbn [EncodeToString String.length length]. rewrite IH.
  replace (4 * S (S (S (length l))) + 2)%nat with (4 * length l + 2 + 4 * 3)%nat by lia.
  rewrite Nat.div_add by lia. lia.
Qed.

Lemma all_base64url_sextet x rest :
  all_base64url (String (encodeURL (Z.land x 63)) rest) = all_base64url rest.
Proof.
  cbn [all_base64url]. now rewrite decodeURL_encodeURL by apply sextet_range.
Qed.

Lemma EncodeToString_alphabet (src : list Z) : all_base64url (EncodeToString src) = true.
Proof.
  induction src as [| a | a b | a b c l IH] using list_ind3;
    cbn [EncodeToString]; rewrite ?all_base64url_sextet; auto.
Qed.

(** X11.  The strings [GenerateVAPIDKeys] returns for a generated key: the
    public key is 87 characters and begins with [B], the private key is 43
    characters, and both are written in the URL-safe alphabet only, so
    neither has padding. *)
Theorem GenerateVAPIDKeys_format (priv : PrivateKey) :
  generated_ok priv ->
  exists publicKey privateKey rest,
    GenerateVAPIDKeys (Ok priv) = Ok (publicKey, privateKey) /\
    String.length publicKey = 87%nat /\
    String.length privateKey = 43%nat /\
    all_base64url publicKey = true /\
    all_base64url privateKey = true /\
    publicKey = String "B" rest.
Proof.
  intros [Hon HD]. destruct (Unmarshal_Marshal _ _ Hon) as [Hm _].
  pose proof P256_N_fits as Hn.
  unfold GenerateVAPIDKeys. rewrite Hm. rewrite FillBytes_fits by lia.
  set (pubBytes := 4 :: be_bytes 32 (X priv) ++ be_bytes 32 (Y priv)).
  assert (Hfirst : exists rest, EncodeToString pubBytes = String "B" rest).
  { unfold pubBytes. change 32%nat with (S (S 30)). cbn [be_bytes app].
    cbn [EncodeToString]. eexists. f_equal.
    set (b0 := (X priv / 256 ^ Z.of_nat 31) mod 256).
    set (b1 := (X priv / 256 ^ Z.of_nat 30) mod 256).
    assert (byte_ok b0) by (apply Z.mod_pos_bound; lia).
    assert (byte_ok b1) by (apply Z.mod_pos_bound; lia).
    rewrite pack3 by (assumption || (unfold byte_ok; lia)).
    unfold byte_ok in *. arith_bits.
    replace ((4 * 65536 + b0 * 256 + b1) / 262144 mod 64) with 1
      by (Z.div_mod_to_equations; lia).
    reflexivity. }
  destruct Hfirst as [rest Hrest].
  exists (EncodeToString pubBytes), (EncodeToString (be_bytes 32 (D priv))), rest.
  split; [reflexivity|]. rewrite !EncodeToString_length, !EncodeToString_alphabet.
  unfold pubBytes. cbn [length]. rewrite length_app, !be_bytes_length.
  repeat split; try reflexivity. exact Hrest.
Qed.

Lemma GenerateVAPIDKeys_format_witness :
  exists publicKey privateKey rest,
    GenerateVAPIDKeys (Ok sample_key) = Ok (publicKey, privateKey) /\
    String.length publicKey = 87%nat /\
    String.length privateKey = 43%nat /\
    all_base64url publicKey = true /\
    all_base64url privateKey = true /\
    publicKey = String "B" rest.
Proof.
  apply (GenerateVAPIDKeys_format sample_key).
  split; [vm_compute; reflexivity | unfold P256_N; simpl; lia].
Defined.

(** *** Parsing *)

Lemma list_ind4 {A : Type} (P : list A -> Prop) :
  P [] -> (forall a, P [a]) -> (forall a b, P [a; b]) -> (forall a b c, P [a; b; c]) ->
  (forall a b c d l, P l -> P (a :: b :: c :: d :: l)) ->
  forall l, P l.
Proof.
  intros H0 H1 H2 H3 H4 l.
  assert (P l /\ (forall a, P (a :: l)) /\ (forall a b, P (a :: b :: l)) /\
          (forall a b c, P (a :: b :: c :: l))) as [H _].
  { induction l as [|x l (IH0 & IH1 & IH2 & IH3)]; repeat split; auto. }
  exact H.
Qed.

Lemma byte_is_byte x : byte_ok (byte x).
Proof. rewrite byte_mod. apply Z.mod_pos_bound. lia. Qed.

(** Whatever [DecodeString] returns is a slice of bytes. *)
Lemma decode_quanta_bytes (d : list Z) :
  forall l, decode_quanta d = Some l -> Forall byte_ok l.
Proof.
  induction d as [| a | a b | a b c | a b c e d IH] using list_ind4;
    cbn [decode_quanta]; intros l H.
  - injection H as <-. constructor.
  - discriminate.
  - injection H as <-. repeat constructor; apply byte_is_byte.
  - injection H as <-. repeat constructor; apply byte_is_byte.
  - destruct (decode_quanta d) as [tl|]; [|discriminate].
    injection H as <-. repeat (constructor; [apply byte_is_byte|]). now apply IH.
Qed.

Lemma DecodeString_bytes (s : string) (l : list Z) :
  DecodeString s = Some l -> Forall byte_ok l.
Proof.
  unfold DecodeString. destruct (decode_chars s); [apply decode_quanta_bytes | discriminate].
Qed.

Lemma fold_SetBytes (l : list Z) : forall acc,
  fold_left (fun a b => a * 256 + b) l acc = acc * 256 ^ Z.of_nat (length l) + SetBytes l.
Proof.
  unfold SetBytes. induction l as [|x l IH]; intros acc.
  - simpl. lia.
  - cbn [fold_left length]. rewrite IH, (IH (0 * 256 + x)).
    replace (Z.of_nat (S (length l))) with (Z.of_nat (length l) + 1) by lia.
    rewrite Z.pow_add_r, Z.pow_1_r by lia. ring.
Qed.

Lemma SetBytes_cons (x : Z) (l : list Z) :
  SetBytes (x :: l) = x * 256 ^ Z.of_nat (length l) + SetBytes l.
Proof.
  unfold SetBytes at 1. cbn [fold_left]. rewrite fold_SetBytes. ring.
Qed.

Lemma SetBytes_range (l : list Z) :
  Forall byte_ok l -> 0 <= SetBytes l < 256 ^ Z.of_nat (length l).
Proof.
  induction 1 as [|x l Hx Hl IH].
  - cbn. lia.
  - rewrite SetBytes_cons. cbn [length].
    replace (Z.of_nat (S (length l))) with (Z.of_nat (length l) + 1) by lia.
    rewrite Z.pow_add_r, Z.pow_1_r by lia. unfold byte_ok in Hx. nia.
Qed.

Lemma be_bytes_mod (n : nat) : forall q r,
  be_bytes n (q * 256 ^ Z.of_nat n + r) = be_bytes n r.
Proof.
  induction n as [|k IH]; intros q r; [reflexivity|].
  cbn [be_bytes].
  assert (Hk : 0 < 256 ^ Z.of_nat k) by (apply Z.pow_pos_nonneg; lia).
  replace (q * 256 ^ Z.of_nat (S k)) with (q * 256 * 256 ^ Z.of_nat k).
  - rewrite IH. f_equal. rewrite Z.div_add_l by lia.
    rewrite Z.add_comm. apply Z.mod_add. lia.
  - replace (Z.of_nat (S k)) with (Z.of_nat k + 1) by lia.
    rewrite Z.pow_add_r, Z.pow_1_r by lia. ring.
Qed.

(** [FillBytes] undoes [SetBytes]. *)
Lemma be_bytes_SetBytes (l : list Z) :
  Forall byte_ok l -> be_bytes (length l) (SetBytes l) = l.
Proof.
  induction 1 as [|x l Hx Hl IH]; [reflexivity|].
  cbn [length be_bytes]. rewrite SetBytes_cons.
  pose proof (SetBytes_range l Hl) as Hr.
  rewrite be_bytes_mod, IH. f_equal.
  rewrite Z.div_add_l by lia. rewrite Z.div_small by lia.
  unfold byte_ok in Hx. rewrite Z.add_0_r. apply Z.mod_small. lia.
Qed.

(** What [elliptic.Unmarshal] accepts is what [elliptic.Marshal] writes. *)
Lemma Marshal_Unmarshal (data : list Z) (x y : Z) :
  Forall byte_ok data ->
  elliptic_Unmarshal data = Some (x, y) ->
  IsOnCurve x y = true /\ elliptic_Marshal x y = Some data /\ length data = 65%nat.
Proof.
  intros Hb H. unfold elliptic_Unmarshal in H.
  destruct data as [|z rest]; [discriminate|].
  assert (z = 4) as ->.
  { destruct z as [|p|p]; try discriminate.
    destruct p as [p|p|]; try discriminate.
    destruct p as [p|p|]; try discriminate.
    destruct p; try discriminate. reflexivity. }
  destruct (Nat.eqb_spec (length rest) 64) as [Hlen|]; [|discriminate].
  destruct (IsOnCurve _ _) eqn:Hon; [|discriminate].
  injection H as <- <-. split; [exact Hon|].
  pose proof (IsOnCurve_range _ _ Hon) as [Hx Hy]. pose proof P256_P_fits as Hp.
  inversion Hb as [|? ? _ Hrest]; subst.
  assert (H1 : length (firstn 32 rest) = 32%nat) by (rewrite length_firstn; lia).
  assert (H2 : length (skipn 32 rest) = 32%nat) by (rewrite length_skipn; lia).
  split; [|cbn [length]; lia].
  rewrite List.Forall_forall in Hrest.
  assert (F1 : Forall byte_ok (firstn 32 rest)).
  { apply List.Forall_forall. intros b Hin.
    apply Hrest. rewrite <- (firstn_skipn 32 rest). apply in_app_iff. now left. }
  assert (F2 : Forall byte_ok (skipn 32 rest)).
  { apply List.Forall_forall. intros b Hin.
    apply Hrest. rewrite <- (firstn_skipn 32 rest). apply in_app_iff. now right. }
  pose proof (be_bytes_SetBytes _ F1) as E1. rewrite H1 in E1.
  pose proof (be_bytes_SetBytes _ F2) as E2. rewrite H2 in E2.
  unfold elliptic_Marshal. rewrite !FillBytes_fits by lia.
  rewrite E1, E2. now rewrite firstn_skipn.
Qed.

(** What an accepted pair of key strings decodes to. *)
Lemma ParseVAPIDKeys_inv (publicKeyB64 privateKeyB64 : string) (key : PrivateKey) :
  ParseVAPIDKeys publicKeyB64 privateKeyB64 = Ok key ->
  exists pubBytes privBytes,
    DecodeString publicKeyB64 = Some pubBytes /\
    DecodeString privateKeyB64 = Some privBytes /\
    length pubBytes = 65%nat /\
    elliptic_Marshal (X key) (Y key) = Some pubBytes /\
    IsOnCurve (X key) (Y key) = true /\
    D key = SetBytes privBytes /\
    0 <= D key < 256 ^ Z.of_nat (length privBytes).
Proof.
  unfold ParseVAPIDKeys.
  destruct (DecodeString publicKeyB64) as [pubBytes|] eqn:Hpub; [|discriminate].
  destruct (elliptic_Unmarshal pubBytes) as [[x y]|] eqn:Hun; [|discriminate].
  destruct (DecodeString privateKeyB64) as [privBytes|] eqn:Hprv; [|discriminate].
  intros [= <-]. cbn [X Y D].
  destruct (Marshal_Unmarshal pubBytes x y (DecodeString_bytes _ _ Hpub) Hun)
    as (Hon & Hm & Hlen).
  exists pubBytes, privBytes. repeat split; try assumption;
    apply (SetBytes_range privBytes (DecodeString_bytes _ _ Hprv)).
Qed.

(** X12.  What [ParseVAPIDKeys] accepts.  When it returns a key, the
    public string decodes to 65 bytes that are the uncompressed encoding
    [elliptic.Marshal] writes for the returned point, and that point is on
    the curve with canonical coordinates; the private string decodes too,
    and the returned scalar is the non-negative number its bytes spell.
    Conversely such a pair of strings is accepted. *)
Theorem ParseVAPIDKeys_sound (publicKeyB64 privateKeyB64 : string) (key : PrivateKey) :
  ParseVAPIDKeys publicKeyB64 privateKeyB64 = Ok key <->
  exists pubBytes privBytes,
    DecodeString publicKeyB64 = Some pubBytes /\
    DecodeString privateKeyB64 = Some privBytes /\
    length pubBytes = 65%nat /\
    elliptic_Marshal (X key) (Y key) = Some pubBytes /\
    IsOnCurve (X key) (Y key) = true /\
    D key = SetBytes privBytes /\
    0 <= D key < 256 ^ Z.of_nat (length privBytes).
Proof.
  split; [apply ParseVAPIDKeys_inv|].
  intros (pubBytes & privBytes & Hpub & Hprv & _ & Hm & Hon & HD & _).
  destruct (Unmarshal_Marshal _ _ Hon) as [Hm' Hun].
  rewrite Hm in Hm'. injection Hm' as ->.
  rewrite (ParseVAPIDKeys_accepts _ _ _ _ _ _ Hpub Hun Hprv).
  rewrite <- HD. now destruct key.
Qed.

Lemma ParseVAPIDKeys_sound_witness :
  exists pubBytes privBytes,
    DecodeString sample_public = Some pubBytes /\
    DecodeString private_of_two = Some privBytes /\
    length pubBytes = 65%nat /\
    elliptic_Marshal P256_Gx P256_Gy = Some pubBytes /\
    IsOnCurve P256_Gx P256_Gy = true /\
    2 = SetBytes privBytes /\
    0 <= 2 < 256 ^ Z.of_nat (length privBytes).
Proof.
  apply (proj1 (ParseVAPIDKeys_sound sample_public private_of_two
                  {| X := P256_Gx; Y := P256_Gy; D := 2 |})).
  vm_compute. reflexivity.
Defined.

(** ** The public handlers *)

Lemma existsb_true_In {A : Type} (f : A -> bool) (l : list A) (x : A) :
  In x l -> f x = true -> existsb f l = true.
Proof. intros Hin Hx. apply existsb_exists. eauto. Qed.

(** X13.  [HandlePostSubscription] on a healthy store that satisfies the
    schema, when the id drawn by [randomID] is not the id of a stored
    record.  A body that does not decode, or that lacks the endpoint or one of the keys, is answered
    400 and changes nothing.  A complete body is answered with the id of the
    record that then holds the endpoint, topic and keys of the request: 201
    with the fresh id when the endpoint was not registered, 200 with the id
    it already had otherwise.  A welcome delivery is started exactly when a
    record was created and the server has a welcome message; it goes to the
    new subscription alone and carries the welcome message as its title and
    nothing else. *)
Theorem HandlePostSubscription_spec (s : Server) (db : DB) (entropy : list Z)
    (now : gotime) (decoded : option SubscriptionBody) :
  fault db = None ->
  schema_ok (subscriptions db) ->
  ~ In (randomID entropy) (map ID (subscriptions db)) ->
  let '(db', rep, w) := HandlePostSubscription s db entropy now decoded in
  match decoded with
  | None => reply_status rep = StatusBadRequest /\ db' = db /\ w = None
  | Some b =>
    (body_Endpoint b = "" \/ body_P256dh b = "" \/ body_Auth b = "" ->
     reply_status rep = StatusBadRequest /\ db' = db /\ w = None) /\
    (body_Endpoint b <> "" -> body_P256dh b <> "" -> body_Auth b <> "" ->
     let known := existsb (fun r => String.eqb (Endpoint r) (body_Endpoint b))
                          (subscriptions db) in
     exists id c,
       rep = writeJSON (if known then StatusOK else StatusCreated) (JSONId id) /\
       In {| ID := id; Topic := body_Topic b; Endpoint := body_Endpoint b;
             KeyP256dh := body_P256dh b; KeyAuth := body_Auth b; CreatedAt := c |}
          (subscriptions db') /\
       length (subscriptions db') =
         (if known then length (subscriptions db) else S (length (subscriptions db))) /\
       (if known
        then exists r, In r (subscriptions db) /\ Endpoint r = body_Endpoint b /\ ID r = id
        else id = randomID entropy) /\
       w = if known || String.eqb (WelcomeMessage s) "" then None
           else Some {| welcome_subs :=
                          [ {| ID := id; Topic := ""; Endpoint := body_Endpoint b;
                               KeyP256dh := body_P256dh b; KeyAuth := body_Auth b;
                               CreatedAt := 0 |} ];
                        welcome_req :=
                          {| ReqTopic := ""; Title := WelcomeMessage s; Body := "";
                             Icon := ""; Badge := ""; Tag := ""; URL := "" |} |})
  end.
Proof.
  intros Hf Hs Hfresh. unfold HandlePostSubscription.
  destruct decoded as [b|]; [|repeat split].
  destruct (String.eqb_spec (body_Endpoint b) "") as [He|He];
    [cbn [orb]; split; [repeat split | contradiction]|].
  destruct (String.eqb_spec (body_P256dh b) "") as [Hp|Hp];
    [cbn [orb]; split; [repeat split | contradiction]|].
  destruct (String.eqb_spec (body_Auth b) "") as [Ha|Ha];
    [cbn [orb]; split; [repeat split | contradiction]|].
  cbn [orb].
  destruct (UpsertSubscription_shape db entropy now (body_Topic b) (body_Endpoint b)
              (body_P256dh b) (body_Auth b) Hf Hs Hfresh)
    as (pre & post & id & created & c & -> & Hother & _ & Hnew & Hold).
  split; [intros [H|[H|H]]; contradiction|]. intros _ _ _. cbv zeta.
  exists id, c. cbn [set_subscriptions subscriptions].
  assert (Hin : In {| ID := id; Topic := body_Topic b; Endpoint := body_Endpoint b;
                      KeyP256dh := body_P256dh b; KeyAuth := body_Auth b; CreatedAt := c |}
                   (pre ++ {| ID := id; Topic := body_Topic b; Endpoint := body_Endpoint b;
                              KeyP256dh := body_P256dh b; KeyAuth := body_Auth b;
                              CreatedAt := c |} :: post))
    by (apply in_app_iff; right; now left).
  destruct created.
  - destruct (Hnew eq_refl) as (Hpre & -> & Hid & _).
    assert (Hk : existsb (fun r => String.eqb (Endpoint r) (body_Endpoint b))
                         (subscriptions db) = false).
    { apply existsb_false_In. intros x Hx. apply String.eqb_neq.
      apply Hother. rewrite app_nil_r, <- Hpre. exact Hx. }
    rewrite Hk. cbn [andb orb negb].
    split; [reflexivity|]. split; [exact Hin|].
    split; [rewrite Hpre, length_app; simpl; lia|]. split; [exact Hid|].
    now destruct (String.eqb (WelcomeMessage s) "").
  - destruct (Hold eq_refl) as (r & Hrows & Hep & Hid & _).
    assert (Hk : existsb (fun r => String.eqb (Endpoint r) (body_Endpoint b))
                         (subscriptions db) = true).
    { apply existsb_true_In with (x := r).
      - rewrite Hrows. apply in_app_iff. right. now left.
      - now apply String.eqb_eq. }
    rewrite Hk. cbn [andb orb].
    split; [reflexivity|]. split; [exact Hin|].
    split; [rewrite Hrows, !length_app; reflexivity|].
    split; [|reflexivity].
    exists r. repeat split; try assumption. rewrite Hrows. apply in_app_iff. right. now left.
Qed.

Lemma HandlePostSubscription_spec_witness :
  let s := {| srv_VAPID := sample_vapid; AdminKey := "secret"; WelcomeMessage := "Welcome!" |} in
  let b := {| body_Topic := "news"; body_Endpoint := new_endpoint;
              body_P256dh := "pk-erin"; body_Auth := "auth-erin" |} in
  exists id c,
    snd (fst (HandlePostSubscription s sample_db sample_entropy sample_now (Some b)))
      = writeJSON StatusCreated (JSONId id) /\
    In {| ID := id; Topic := "news"; Endpoint := new_endpoint;
          KeyP256dh := "pk-erin"; KeyAuth := "auth-erin"; CreatedAt := c |}
       (subscriptions
          (fst (fst (HandlePostSubscription s sample_db sample_entropy sample_now (Some b))))).
Proof.
  cbv zeta.
  pose proof (HandlePostSubscription_spec
                {| srv_VAPID := sample_vapid; AdminKey := "secret";
                   WelcomeMessage := "Welcome!" |}
                sample_db sample_entropy sample_now
                (Some {| body_Topic := "news"; body_Endpoint := new_endpoint;
                         body_P256dh := "pk-erin"; body_Auth := "auth-erin" |})
                eq_refl sample_db_schema_ok sample_entropy_fresh) as H.
  destruct (HandlePostSubscription _ sample_db sample_entropy sample_now _)
    as [[db' rep] w].
  destruct H as [_ H].
  destruct H as (id & c & Hrep & Hin & _); try discriminate.
  exists id, c. split; [exact Hrep | exact Hin].
Defined.

(** X14.  The two deletion handlers.  An empty key (and, for the public
    handler, a body that does not decode) is answered 400 and changes
    nothing.  On a healthy store every other request is answered 204 with
    no body, whether or not a record had the key; afterwards no record has
    it and every other record is still there.  On a failing store the
    answer is 500. *)
Theorem HandleDeleteSubscription_spec (db : DB) (key : string) :
  HandleDeleteSubscriptionByEndpoint db None = (db, writeError StatusBadRequest "invalid JSON") /\
  reply_status (snd (HandleDeleteSubscriptionByEndpoint db (Some ""))) = StatusBadRequest /\
  fst (HandleDeleteSubscriptionByEndpoint db (Some "")) = db /\
  reply_status (snd (HandleDeleteSubscriptionByID db "")) = StatusBadRequest /\
  fst (HandleDeleteSubscriptionByID db "") = db /\
  (key <> "" ->
   let '(db1, rep1) := HandleDeleteSubscriptionByEndpoint db (Some key) in
   let '(db2, rep2) := HandleDeleteSubscriptionByID db key in
   match fault db with
   | None =>
     rep1 = WriteHeader StatusNoContent /\
     rep2 = WriteHeader StatusNoContent /\
     (forall r, In r (subscriptions db1) <-> In r (subscriptions db) /\ Endpoint r <> key) /\
     (forall r, In r (subscriptions db2) <-> In r (subscriptions db) /\ ID r <> key) /\
     delivery_log db1 = delivery_log db /\ delivery_log db2 = delivery_log db
   | Some _ =>
     reply_status rep1 = StatusInternalServerError /\ db1 = db /\
     reply_status rep2 = StatusInternalServerError /\ db2 = db
   end).
Proof.
  repeat (split; [reflexivity|]).
  intros Hkey. unfold HandleDeleteSubscriptionByEndpoint, HandleDeleteSubscriptionByID.
  destruct (String.eqb_spec key ""); [contradiction|].
  unfold DeleteSubscriptionByEndpoint, DeleteSubscriptionByID.
  destruct (fault db) eqn:Hf; [repeat split|].
  cbn [set_subscriptions subscriptions delivery_log].
  split; [reflexivity|]. split; [reflexivity|].
  split; [|split; [|split; reflexivity]]; intros r;
    rewrite filter_In, negb_true_iff, String.eqb_neq; tauto.
Qed.

Lemma HandleDeleteSubscription_spec_witness :
  snd (HandleDeleteSubscriptionByEndpoint sample_db (Some new_endpoint))
    = WriteHeader StatusNoContent /\
  snd (HandleDeleteSubscriptionByID sample_db (ID sub_carol))
    = WriteHeader StatusNoContent.
Proof.
  destruct (HandleDeleteSubscription_spec sample_db new_endpoint)
    as (_ & _ & _ & _ & _ & H1).
  destruct (HandleDeleteSubscription_spec sample_db (ID sub_carol))
    as (_ & _ & _ & _ & _ & H2).
  specialize (H1 ltac:(discriminate)). specialize (H2 ltac:(discriminate)).
  destruct (HandleDeleteSubscriptionByEndpoint sample_db (Some new_endpoint)) as [d1 r1].
  destruct (HandleDeleteSubscriptionByID sample_db new_endpoint) as [d2 r2].
  destruct (HandleDeleteSubscriptionByEndpoint sample_db (Some (ID sub_carol))) as [d3 r3].
  destruct (HandleDeleteSubscriptionByID sample_db (ID sub_carol)) as [d4 r4].
  simpl in H1, H2. split; [apply H1 | apply H2].
Defined.

(** ** Bearer authentication *)

Lemma append_cons (c : ascii) (p s : string) :
  (String c p ++ s)%string = String c (p ++ s)%string.
Proof. reflexivity. Qed.

Lemma append_cancel (p a b : string) : (p ++ a)%string = (p ++ b)%string -> a = b.
Proof.
  induction p as [|c p IH]; [trivial|]. rewrite !append_cons. intros [= E]. now apply IH.
Qed.

Lemma substring_all (s : string) : String.substring 0 (String.length s) s = s.
Proof. induction s as [|d s IH]; [reflexivity|]. cbn [String.length String.substring]. now rewrite IH. Qed.

Lemma prefix_split (p s : string) :
  String.prefix p s = true ->
  s = (p ++ String.substring (String.length p) (String.length s - String.length p) s)%string.
Proof.
  revert s. induction p as [|c p IH]; intros s H.
  - cbn [String.length]. rewrite Nat.sub_0_r, substring_all. reflexivity.
  - destruct s as [|d s]; [discriminate|]. cbn [String.prefix] in H.
    destruct (Ascii.ascii_dec c d) as [->|]; [|discriminate].
    rewrite append_cons. cbn [String.length Nat.sub String.substring].
    f_equal. now apply IH.
Qed.

Lemma prefix_append (p s : string) : String.prefix p (p ++ s)%string = true.
Proof.
  induction p as [|c p IH].
  - now destruct s.
  - rewrite append_cons. cbn [String.prefix].
    destruct (Ascii.ascii_dec c c); [exact IH | contradiction].
Qed.

Lemma substring_append (p s : string) :
  String.substring (String.length p)
    (String.length (p ++ s)%string - String.length p) (p ++ s)%string = s.
Proof.
  induction p as [|c p IH].
  - cbn [String.length]. rewrite Nat.sub_0_r. apply substring_all.
  - rewrite append_cons. cbn [String.length Nat.sub String.substring]. exact IH.
Qed.

Lemma requireAuth_pass {A : Type} (s : Server) (next : A) :
  requireAuth s ("Bearer " ++ AdminKey s)%string next = inr next.
Proof.
  unfold requireAuth, TrimPrefix, HasPrefix.
  rewrite prefix_append. cbn [negb orb].
  rewrite substring_append, String.eqb_refl. reflexivity.
Qed.

Lemma requireAuth_reject {A : Type} (s : Server) (auth : string) (next : A) :
  auth <> ("Bearer " ++ AdminKey s)%string ->
  requireAuth s auth next = inl (writeError StatusUnauthorized "unauthorized").
Proof.
  intros Hne. unfold requireAuth, TrimPrefix, HasPrefix.
  destruct (String.prefix "Bearer " auth) eqn:Hp; [|reflexivity].
  cbn [negb orb].
  destruct (String.eqb_spec
              (String.substring (String.length "Bearer ")
                 (String.length auth - String.length "Bearer ") auth) (AdminKey s))
    as [E|E]; [|reflexivity].
  exfalso. apply Hne. rewrite (prefix_split _ _ Hp) at 1. now rewrite E.
Qed.

Lemma requireAuth_needs_key {A : Type} (s : Server) (next : A) :
  AdminKey s <> "" ->
  requireAuth s "" next <> inr next /\ requireAuth s "Bearer " next <> inr next.
Proof.
  intros Hkey. split.
  - rewrite requireAuth_reject; discriminate.
  - rewrite requireAuth_reject; [discriminate|].
    intros E. apply Hkey.
    assert (E' : ("Bearer " ++ "")%string = ("Bearer " ++ AdminKey s)%string) by exact E.
    apply append_cancel in E'. now symmetry.
Qed.

(** X15.  [requireAuth] lets a request through to the wrapped handler
    exactly when its [Authorization] header is the text [Bearer], one
    space, and the admin key, byte for byte; every other header, the absent
    (empty) one included, is answered 401 and the handler does not run.
    With a non-empty admin key, a header [Bearer] without a key is among
    those refused. *)
Theorem requireAuth_spec {A : Type} (s : Server) (auth : string) (next : A) :
  (auth = ("Bearer " ++ AdminKey s)%string -> requireAuth s auth next = inr next) /\
  (auth <> ("Bearer " ++ AdminKey s)%string ->
   requireAuth s auth next = inl (writeError StatusUnauthorized "unauthorized")) /\
  (AdminKey s <> "" -> requireAuth s "" next <> inr next /\
                       requireAuth s "Bearer " next <> inr next).
Proof.
  split; [intros ->; apply requireAuth_pass|].
  split; [apply requireAuth_reject | apply requireAuth_needs_key].
Qed.

Lemma requireAuth_spec_witness :
  let s := {| srv_VAPID := sample_vapid; AdminKey := "secret"; WelcomeMessage := "" |} in
  requireAuth s "Bearer secret" tt = inr tt /\
  requireAuth s "bearer secret" tt = inl (writeError StatusUnauthorized "unauthorized").
Proof.
  cbv zeta.
  destruct (requireAuth_spec
              {| srv_VAPID := sample_vapid; AdminKey := "secret"; WelcomeMessage := "" |}
              "Bearer secret" tt) as (H1 & _ & _).
  destruct (requireAuth_spec
              {| srv_VAPID := sample_vapid; AdminKey := "secret"; WelcomeMessage := "" |}
              "bearer secret" tt) as (_ & H2 & _).
  split; [apply H1; reflexivity | apply H2; discriminate].
Defined.

(** ** Start-up *)

(** X16.  [main] serves only with a complete configuration.  When it gets
    as far as building the server, the admin key and the VAPID contact are
    the non-empty values of [ADMIN_KEY] and [VAPID_CONTACT], the VAPID
    strings are those of the environment and [ParseVAPIDKeys] accepts them
    (so the public key is a point of the curve), the database is the one
    [OpenDB] opened at [DB_PATH] or at the default path, and the address and
    the CORS origin are those of [PORT] and [CORS_ORIGIN] or the defaults
    8080 and [*].  [HandleGetVAPIDPublicKey] then serves the public key of
    the environment.  The server is built without a welcome message, so its
    subscription handler never starts a welcome delivery, and since its
    admin key is not empty a header [Bearer] without a key does not pass
    [requireAuth]. *)
Theorem main_serving (args : list string) (getenv : string -> string)
    (generated : result PrivateKey) (OpenDB : string -> result DB)
    (srv : Server) (db : DB) (addr corsOrigin : string) :
  main args getenv generated OpenDB = Serving srv db addr corsOrigin ->
  AdminKey srv = getenv "ADMIN_KEY" /\ AdminKey srv <> "" /\
  vapidContact (srv_VAPID srv) = getenv "VAPID_CONTACT" /\
  vapidContact (srv_VAPID srv) <> "" /\
  vapidPublicKey (srv_VAPID srv) = getenv "VAPID_PUBLIC_KEY" /\
  vapidPrivateKey (srv_VAPID srv) = getenv "VAPID_PRIVATE_KEY" /\
  (exists key,
     ParseVAPIDKeys (vapidPublicKey (srv_VAPID srv)) (vapidPrivateKey (srv_VAPID srv)) = Ok key /\
     IsOnCurve (X key) (Y key) = true) /\
  OpenDB (if String.eqb (getenv "DB_PATH") "" then "./data/notify.db" else getenv "DB_PATH")
    = Ok db /\
  addr = (":" ++ (if String.eqb (getenv "PORT") "" then "8080" else getenv "PORT"))%string /\
  corsOrigin = (if String.eqb (getenv "CORS_ORIGIN") "" then "*" else getenv "CORS_ORIGIN") /\
  WelcomeMessage srv = "" /\
  HandleGetVAPIDPublicKey srv = writeJSON StatusOK (JSONVapidKey (getenv "VAPID_PUBLIC_KEY")) /\
  (forall db0 entropy now decoded,
     snd (HandlePostSubscription srv db0 entropy now decoded) = None) /\
  (forall next : unit, requireAuth srv "Bearer " next <> inr next).
Proof.
  unfold main. intros H.
  destruct (match args with _ :: a :: _ => String.eqb a "generate-vapid" | _ => false end).
  { destruct (GenerateVAPIDKeys generated) as [[pub priv]|]; discriminate. }
  destruct (String.eqb_spec (getenv "VAPID_PUBLIC_KEY") ""); [discriminate|].
  destruct (String.eqb_spec (getenv "VAPID_PRIVATE_KEY") ""); [discriminate|].
  cbn [orb] in H.
  destruct (String.eqb_spec (getenv "VAPID_CONTACT") "") as [|Hc]; [discriminate|].
  destruct (String.eqb_spec (getenv "ADMIN_KEY") "") as [|Ha]; [discriminate|].
  destruct (ParseVAPIDKeys (getenv "VAPID_PUBLIC_KEY") (getenv "VAPID_PRIVATE_KEY"))
    as [key|] eqn:Hparse; [|discriminate].
  destruct (OpenDB _) as [db'|] eqn:Hopen; [|discriminate].
  injection H as <- <- <- <-.
  cbn [AdminKey srv_VAPID vapidContact vapidPublicKey vapidPrivateKey WelcomeMessage].
  repeat (split; [reflexivity || assumption|]).
  split.
  { exists key. split; [exact Hparse|].
    apply ParseVAPIDKeys_inv in Hparse as (? & ? & _ & _ & _ & _ & Hon & _). exact Hon. }
  repeat (split; [reflexivity || assumption|]).
  split.
  - intros db0 entropy now decoded. unfold HandlePostSubscription.
    destruct decoded as [b|]; [|reflexivity].
    destruct (_ || _ || _); [reflexivity|].
    destruct (UpsertSubscription _ _ _ _ _ _ _) as [db1 [[id created]|]]; [|reflexivity].
    cbn [snd WelcomeMessage]. now rewrite andb_false_r.
  - intros next. now apply requireAuth_needs_key.
Qed.

Lemma main_serving_witness :
  let getenv := fun name : string =>
    if String.eqb name "VAPID_PUBLIC_KEY" then sample_public
    else if String.eqb name "VAPID_PRIVATE_KEY" then private_of_two
    else if String.eqb name "VAPID_CONTACT" then "mailto:admin@example.com"
    else if String.eqb name "ADMIN_KEY" then "secret"
    else "" in
  exists srv,
    main ["go-notify-server"] getenv (Err (Panic "unused")) (fun _ => Ok empty_db)
      = Serving srv empty_db ":8080" "*" /\
    AdminKey srv = "secret" /\ WelcomeMessage srv = "".
Proof.
  cbv zeta. eexists. split; [vm_compute; reflexivity|].
  match goal with
  | |- AdminKey ?srv = _ /\ _ =>
    pose proof (main_serving ["go-notify-server"]
      (fun name : string =>
         if String.eqb name "VAPID_PUBLIC_KEY" then sample_public
         else if String.eqb name "VAPID_PRIVATE_KEY" then private_of_two
         else if String.eqb name "VAPID_CONTACT" then "mailto:admin@example.com"
         else if String.eqb name "ADMIN_KEY" then "secret"
         else "")
      (Err (Panic "unused")) (fun _ => Ok empty_db) srv empty_db ":8080" "*") as H
  end.
  destruct H as (Hk & _ & _ & _ & _ & _ & _ & _ & _ & _ & Hw & _);
    [vm_compute; reflexivity|].
  split; [exact Hk | exact Hw].
Defined.

Lemma nonempty_length (s : string) : (0 < String.length s)%nat -> s <> "".
Proof. destruct s; [simpl; lia | discriminate]. Qed.

(** The strings written for a generated key are not empty and parse back
    to that key. *)
Lemma generated_keys_parse (priv : PrivateKey) :
  generated_ok priv ->
  exists publicKey privateKey,
    GenerateVAPIDKeys (Ok priv) = Ok (publicKey, privateKey) /\
    publicKey <> "" /\ privateKey <> "" /\
    ParseVAPIDKeys publicKey privateKey = Ok priv.
Proof.
  intros [Hon HD]. destruct (Unmarshal_Marshal _ _ Hon) as [Hm Hu].
  pose proof P256_N_fits as Hn.
  exists (EncodeToString (4 :: be_bytes 32 (X priv) ++ be_bytes 32 (Y priv))),
         (EncodeToString (be_bytes 32 (D priv))).
  assert (Hbytes : Forall byte_ok (4 :: be_bytes 32 (X priv) ++ be_bytes 32 (Y priv))).
  { constructor; [unfold byte_ok; lia|]. apply Forall_app; split; apply be_bytes_ok. }
  split; [|split; [|split]].
  - unfold GenerateVAPIDKeys. rewrite Hm. now rewrite FillBytes_fits by lia.
  - apply nonempty_length. rewrite EncodeToString_length. cbn [length].
    rewrite length_app, !be_bytes_length. cbn. lia.
  - apply nonempty_length. rewrite EncodeToString_length, be_bytes_length. cbn. lia.
  - unfold ParseVAPIDKeys.
    rewrite DecodeString_EncodeToString by assumption. rewrite Hu.
    rewrite DecodeString_EncodeToString by apply be_bytes_ok.
    rewrite SetBytes_be_bytes by lia. now destruct priv.
Qed.

(** X17.  The keys the [generate-vapid] subcommand prints are keys the
    server starts with.  For a key as [ecdsa.GenerateKey] returns them,
    [main] run with the subcommand prints two strings and opens no
    database; a later run without the subcommand, with these two strings in
    [VAPID_PUBLIC_KEY] and [VAPID_PRIVATE_KEY], a contact, an admin key and
    a database that opens, builds the server with exactly these
    credentials. *)
Theorem main_generate_then_serve (priv : PrivateKey) (prog : string) (rest : list string)
    (getenv getenv' : string -> string) (OpenDB OpenDB' : string -> result DB)
    (generated' : result PrivateKey) (db : DB) :
  generated_ok priv ->
  getenv' "VAPID_CONTACT" <> "" ->
  getenv' "ADMIN_KEY" <> "" ->
  OpenDB' (if String.eqb (getenv' "DB_PATH") "" then "./data/notify.db"
           else getenv' "DB_PATH") = Ok db ->
  exists publicKey privateKey,
    main (prog :: "generate-vapid" :: rest) getenv (Ok priv) OpenDB
      = PrintedKeys publicKey privateKey /\
    (getenv' "VAPID_PUBLIC_KEY" = publicKey ->
     getenv' "VAPID_PRIVATE_KEY" = privateKey ->
     main [prog] getenv' generated' OpenDB' =
       Serving {| srv_VAPID := {| vapidPublicKey := publicKey;
                                  vapidPrivateKey := privateKey;
                                  vapidContact := getenv' "VAPID_CONTACT" |};
                  AdminKey := getenv' "ADMIN_KEY";
                  WelcomeMessage := "" |}
               db
               (":" ++ (if String.eqb (getenv' "PORT") "" then "8080"
                        else getenv' "PORT"))%string
               (if String.eqb (getenv' "CORS_ORIGIN") "" then "*"
                else getenv' "CORS_ORIGIN")).
Proof.
  intros Hgen Hc Ha Hopen.
  destruct (generated_keys_parse priv Hgen) as (pub & prv & Hg & Hpub & Hprv & Hparse).
  exists pub, prv. split.
  - unfold main. cbn [String.eqb Ascii.eqb Bool.eqb]. now rewrite Hg.
  - intros Ep Es. unfold main. rewrite Ep, Es.
    destruct (String.eqb_spec pub ""); [contradiction|].
    destruct (String.eqb_spec prv ""); [contradiction|].
    destruct (String.eqb_spec (getenv' "VAPID_CONTACT") ""); [contradiction|].
    destruct (String.eqb_spec (getenv' "ADMIN_KEY") ""); [contradiction|].
    cbn [orb]. rewrite Hparse. now rewrite Hopen.
Qed.

Lemma main_generate_then_serve_witness :
  let getenv' := fun name : string =>
    if String.eqb name "VAPID_PUBLIC_KEY" then sample_public
    else if String.eqb name "VAPID_PRIVATE_KEY" then EncodeToString (be_bytes 32 1)
    else if String.eqb name "VAPID_CONTACT" then "mailto:admin@example.com"
    else if String.eqb name "ADMIN_KEY" then "secret" else "" in
  exists publicKey privateKey srv,
    main ["go-notify-server"; "generate-vapid"] (fun _ => "") (Ok sample_key)
         (fun _ => Err (StorageError "unused"))
      = PrintedKeys publicKey privateKey /\
    getenv' "VAPID_PUBLIC_KEY" = publicKey /\
    getenv' "VAPID_PRIVATE_KEY" = privateKey /\
    main ["go-notify-server"] getenv' (Err (Panic "unused")) (fun _ => Ok empty_db)
      = Serving srv empty_db ":8080" "*".
Proof.
  cbv zeta.
  destruct (main_generate_then_serve sample_key "go-notify-server" []
              (fun _ => "")
              (fun name : string =>
                 if String.eqb name "VAPID_PUBLIC_KEY" then sample_public
                 else if String.eqb name "VAPID_PRIVATE_KEY" then EncodeToString (be_bytes 32 1)
                 else if String.eqb name "VAPID_CONTACT" then "mailto:admin@example.com"
                 else if String.eqb name "ADMIN_KEY" then "secret" else "")
              (fun _ => Err (StorageError "unused")) (fun _ => Ok empty_db)
              (Err (Panic "unused")) empty_db)
    as (pub & prv & Hmain & Hserve).
  - split; [vm_compute; reflexivity | unfold P256_N; simpl; lia].
  - discriminate.
  - discriminate.
  - reflexivity.
  - assert (E : sample_public = pub /\ EncodeToString (be_bytes 32 1) = prv).
    { vm_compute in Hmain. injection Hmain as <- <-. split; vm_compute; reflexivity. }
    destruct E as [E1 E2].
    exists pub, prv. eexists. split; [exact Hmain|]. split; [exact E1|]. split; [exact E2|].
    apply (Hserve E1 E2).
Defined.

(** ** More on the fan-out *)

(** Replacing an entry that accounted for [v] by one that accounts for
    nothing removes [v]. *)
Lemma iflat_from_insert_gone {A B : Type} (f : nat -> A -> list B) (l : list A) k i x y v :
  l !! i = Some x -> f (k + i)%nat x = [v] -> f (k + i)%nat y = [] ->
  Permutation (iflat_from f k (<[i := y]> l) ++ [v]) (iflat_from f k l).
Proof.
  intros Hi Hx Hy. destruct (iflat_from_insert f l k i x y Hi) as (pre & post & E1 & E2).
  rewrite E1, E2, Hx, Hy. simpl.
  rewrite <- app_assoc. apply Permutation_app_head.
  symmetry. apply Permutation_cons_append.
Qed.

Lemma mem_app (x : string) (l1 l2 : list string) : mem x (l1 ++ l2) = mem x l1 || mem x l2.
Proof. unfold mem. apply existsb_app. Qed.

Lemma mem_perm (x : string) (l l' : list string) : Permutation l l' -> mem x l = mem x l'.
Proof.
  intros Hp. destruct (mem x l) eqn:E1, (mem x l') eqn:E2; try reflexivity.
  - apply mem_In in E1. apply (Permutation_in _ Hp) in E1. apply mem_In in E1. congruence.
  - apply mem_In in E2. apply (Permutation_in _ (Permutation_sym Hp)) in E2.
    apply mem_In in E2. congruence.
Qed.

Lemma ids_from_S (start : Z) (n : nat) :
  ids_from start (S n) = ids_from start n ++ [start + Z.of_nat (S n)].
Proof. unfold ids_from. rewrite seq_S, map_app. reflexivity. Qed.

Lemma ids_from_length (start : Z) (n : nat) : length (ids_from start n) = n.
Proof. unfold ids_from. now rewrite length_map, length_seq. Qed.

(** The seven ways a scheduling decision can move the state on, with the
    test of the semaphore kept. *)
Ltac fan_cases H i s r E db' e EL Hst Hsem :=
  match type of H with
  | fo_step _ _ _ ?c ?st = Some _ =>
    unfold fo_step in H;
    destruct c as [| i | ?d]; cbv beta iota in H;
    [ destruct (fo_sem st <? pushConcurrency)%nat eqn:Hsem; [|discriminate H];
      destruct (fo_tasks st !! fo_next st) as [[s [| | r | r | r | r]]|] eqn:E;
      try discriminate H
    | destruct (fo_tasks st !! i) as [[s [| | r | r | r | r]]|] eqn:E;
      try discriminate H;
      [ | destruct (LogDelivery (fo_db st) (fo_clock st) (ID s) (statusCode r) (errMsg r))
            as [db' e] eqn:EL
        | destruct (stale r) eqn:Hst;
          [ destruct (DeleteSubscriptionByID (fo_db st) (ID s)) as [db' e] eqn:EL | ]
        | ]
    | ];
    injection H as <-; cbn [advance fo_db fo_clock fo_tasks fo_next fo_sem fo_results fo_trace]
  end.

Section FanOutBounds.
Variable deliver : nat -> PushCall -> PushResponse.
Variable payload : blob.
Variable vapid : VAPID.

Lemma step_semaphore c st st' :
  semaphore_ok st -> fo_step deliver payload vapid c st = Some st' -> semaphore_ok st'.
Proof.
  intros [Hsem Hcap] H. unfold semaphore_ok, workers_in_flight in *.
  fan_cases H i s r E db' e EL Hst Hlt.
  - (* spawn *)
    apply Nat.ltb_lt in Hlt. split; [|lia].
    rewrite <- (Permutation_length
                  (iflat_from_insert_new in_flight_at (fo_tasks st) 0 (fo_next st)
                     (s, Waiting) (s, Spawned) tt E eq_refl eq_refl)).
    rewrite length_app. simpl. lia.
  - split; [|assumption].
    erewrite iflat_from_insert_same; [eassumption | eassumption | reflexivity].
  - split; [|assumption].
    erewrite iflat_from_insert_same; [eassumption | eassumption | reflexivity].
  - split; [|assumption].
    erewrite iflat_from_insert_same; [eassumption | eassumption | reflexivity].
  - split; [|assumption].
    erewrite iflat_from_insert_same; [eassumption | eassumption | reflexivity].
  - (* report and release *)
    pose proof (Permutation_length
                  (iflat_from_insert_gone in_flight_at (fo_tasks st) 0 i
                     (s, Cleaned r) (s, Finished r) tt E eq_refl eq_refl)) as Hlen.
    rewrite length_app in Hlen. simpl in Hlen. split; lia.
  - split; assumption.
Qed.

Lemma step_spawn_order c st st' :
  spawned_in_order st -> fo_step deliver payload vapid c st = Some st' ->
  spawned_in_order st'.
Proof.
  intros [Hlen Hord] H. unfold spawned_in_order in *.
  fan_cases H i s r E db' e EL Hst Hlt;
    rewrite ?length_insert; try (split; assumption).
  - (* spawn *)
    pose proof (lookup_lt_Some _ _ _ E) as Hlt'. split; [lia|].
    intros j s' ph' Hj. destruct (decide (j = fo_next st)) as [->|Hne].
    + rewrite list_lookup_insert_eq in Hj by assumption. injection Hj as <- <-.
      split; [discriminate | lia].
    + rewrite list_lookup_insert_ne in Hj by congruence.
      rewrite (Hord j s' ph' Hj). lia.
  - split; [assumption|]. intros j s' ph' Hj. destruct (decide (j = i)) as [->|Hne].
    + rewrite list_lookup_insert_eq in Hj by (eapply lookup_lt_Some; eassumption).
      injection Hj as <- <-. pose proof (Hord i s Spawned E) as Hi.
      split; [discriminate | intros Hle; apply Hi in Hle; discriminate].
    + rewrite list_lookup_insert_ne in Hj by congruence. exact (Hord j s' ph' Hj).
  - split; [assumption|]. intros j s' ph' Hj. destruct (decide (j = i)) as [->|Hne].
    + rewrite list_lookup_insert_eq in Hj by (eapply lookup_lt_Some; eassumption).
      injection Hj as <- <-. pose proof (Hord i s (Responded r) E) as Hi.
      split; [discriminate | intros Hle; apply Hi in Hle; discriminate].
    + rewrite list_lookup_insert_ne in Hj by congruence. exact (Hord j s' ph' Hj).
  - split; [assumption|]. intros j s' ph' Hj. destruct (decide (j = i)) as [->|Hne].
    + rewrite list_lookup_insert_eq in Hj by (eapply lookup_lt_Some; eassumption).
      injection Hj as <- <-. pose proof (Hord i s (Logged r) E) as Hi.
      split; [discriminate | intros Hle; apply Hi in Hle; discriminate].
    + rewrite list_lookup_insert_ne in Hj by congruence. exact (Hord j s' ph' Hj).
  - split; [assumption|]. intros j s' ph' Hj. destruct (decide (j = i)) as [->|Hne].
    + rewrite list_lookup_insert_eq in Hj by (eapply lookup_lt_Some; eassumption).
      injection Hj as <- <-. pose proof (Hord i s (Logged r) E) as Hi.
      split; [discriminate | intros Hle; apply Hi in Hle; discriminate].
    + rewrite list_lookup_insert_ne in Hj by congruence. exact (Hord j s' ph' Hj).
  - split; [assumption|]. intros j s' ph' Hj. destruct (decide (j = i)) as [->|Hne].
    + rewrite list_lookup_insert_eq in Hj by (eapply lookup_lt_Some; eassumption).
      injection Hj as <- <-. pose proof (Hord i s (Cleaned r) E) as Hi.
      split; [discriminate | intros Hle; apply Hi in Hle; discriminate].
    + rewrite list_lookup_insert_ne in Hj by congruence. exact (Hord j s' ph' Hj).
Qed.

Lemma fo_run_tasks sched db clock subs st :
  fo_run deliver payload vapid sched (fo_init db clock subs) = Some st ->
  map fst (fo_tasks st) = subs.
Proof.
  intros Hrun.
  apply (fo_run_invariant deliver payload vapid
           (fun st => map fst (fo_tasks st) = subs)) in Hrun; [assumption| |].
  - intros c s1 s2 H1 H2. now rewrite (step_tasks _ _ _ _ _ _ H2).
  - simpl. rewrite map_map. simpl. apply map_id.
Qed.

Lemma fo_run_responses sched db clock subs st :
  fo_run deliver payload vapid sched (fo_init db clock subs) = Some st ->
  responses_agree deliver payload vapid st.
Proof.
  intros Hrun.
  apply (fo_run_invariant deliver payload vapid
           (responses_agree deliver payload vapid)) in Hrun; [assumption| |].
  - intros c s1 s2. apply step_responses.
  - intros i s ph r Hi Hph. apply lookup_waiting in Hi. subst. discriminate.
Qed.

(** X18.  The semaphore bounds the fan-out.  In every state a schedule can
    reach, the semaphore counts the workers that have been spawned and have
    not yet reported, and there are at most [pushConcurrency] = 10 of them;
    with ten in flight the range loop cannot spawn another.  Workers are
    spawned in slice order.  When every worker has finished, the loop has
    been through the whole slice and every slot is free again. *)
Theorem fanout_concurrency_bound (sched : list choice) (db : DB) (clock : gotime)
    (subs : list Subscription) (st : FanOut) :
  fo_run deliver payload vapid sched (fo_init db clock subs) = Some st ->
  fo_sem st = workers_in_flight st /\
  (workers_in_flight st <= 10)%nat /\
  (workers_in_flight st = 10%nat -> fo_step deliver payload vapid Spawn st = None) /\
  spawned_in_order st /\
  (forallb is_finished (fo_tasks st) = true ->
   fo_sem st = 0%nat /\ fo_next st = length subs).
Proof.
  intros Hrun.
  assert (Hsem : semaphore_ok st).
  { apply (fo_run_invariant deliver payload vapid semaphore_ok) in Hrun; [assumption| |].
    - intros c s1 s2. apply step_semaphore.
    - split; [|unfold pushConcurrency; simpl; lia].
      unfold workers_in_flight. simpl. now rewrite waiting_accounts_for_nothing. }
  assert (Hord : spawned_in_order st).
  { apply (fo_run_invariant deliver payload vapid spawned_in_order) in Hrun; [assumption| |].
    - intros c s1 s2. apply step_spawn_order.
    - split; [simpl; lia|]. intros i s ph Hi. apply lookup_waiting in Hi. subst.
      simpl. split; [lia | reflexivity]. }
  destruct Hsem as [Hsem Hcap]. unfold pushConcurrency in Hcap.
  split; [exact Hsem|]. split; [lia|]. split; [|split; [exact Hord|]].
  - intros Hfull. unfold fo_step. rewrite Hsem, Hfull. reflexivity.
  - intros Hfin. split.
    + rewrite Hsem. unfold workers_in_flight. rewrite iflat_from_nil; [reflexivity|].
      intros i [s ph] Hx. rewrite forallb_forall in Hfin. specialize (Hfin _ Hx).
      unfold in_flight_at, in_flight. simpl in *. now destruct ph.
    + destruct Hord as [Hlen Hord].
      rewrite <- (fo_run_tasks _ _ _ _ _ Hrun), length_map.
      destruct (Nat.eq_dec (fo_next st) (length (fo_tasks st))) as [|Hne]; [assumption|].
      exfalso. assert (Hlt : (fo_next st < length (fo_tasks st))%nat) by lia.
      apply lookup_lt_is_Some in Hlt as [[s ph] Hi].
      assert (Hw : ph = Waiting) by (apply (Hord _ _ _ Hi); lia). subst ph.
      rewrite forallb_forall in Hfin.
      assert (Hin : In (s, Waiting) (fo_tasks st)).
      { apply list_elem_of_In. eapply list_elem_of_lookup_2. eassumption. }
      specialize (Hfin _ Hin). discriminate.
Qed.
End FanOutBounds.

Lemma fanout_concurrency_bound_witness :
  exists st,
    fo_run sample_deliver (VInt 0) sample_vapid [Spawn; Spawn; Run 0%nat; Spawn]
           (fo_init sample_db sample_now (subscriptions sample_db)) = Some st /\
    fo_sem st = workers_in_flight st /\ (workers_in_flight st <= 10)%nat.
Proof.
  eexists. split; [reflexivity|].
  destruct (fanout_concurrency_bound sample_deliver (VInt 0) sample_vapid
              [Spawn; Spawn; Run 0%nat; Spawn] sample_db sample_now
              (subscriptions sample_db) _ eq_refl) as (H1 & H2 & _).
  split; [exact H1 | exact H2].
Defined.

Section FanOutStore.
Variable deliver : nat -> PushCall -> PushResponse.
Variable payload : blob.
Variable vapid : VAPID.

Lemma step_table db0 c st st' :
  table_exact db0 st -> fo_step deliver payload vapid c st = Some st' -> table_exact db0 st'.
Proof.
  intros (Hf & Hrows) H. unfold table_exact, rows_without in *.
  fan_cases H i s r E db' e EL Hst Hlt.
  - split; [assumption|].
    erewrite iflat_from_insert_same; [eassumption | eassumption | reflexivity].
  - split; [assumption|].
    erewrite iflat_from_insert_same; [eassumption | eassumption | reflexivity].
  - (* LogDelivery *)
    unfold LogDelivery in EL. rewrite Hf in EL. injection EL as <- <-.
    split; [assumption|]. cbn [subscriptions set_delivery_log].
    erewrite iflat_from_insert_same; [eassumption | eassumption | reflexivity].
  - (* DeleteSubscriptionByID *)
    unfold DeleteSubscriptionByID in EL. rewrite Hf in EL. injection EL as <- <-.
    split; [assumption|]. cbn [subscriptions set_subscriptions].
    assert (Hp : Permutation (iflat_from evicted_at 0 (fo_tasks st) ++ [ID s])
                   (iflat_from evicted_at 0 (<[i := (s, Cleaned r)]> (fo_tasks st)))).
    { eapply iflat_from_insert_new; [eassumption | reflexivity |].
      unfold evicted_at. simpl. now rewrite Hst. }
    rewrite Hrows, <- filter_andb. apply List.filter_ext. intros row.
    rewrite <- (mem_perm _ _ _ Hp), mem_app. unfold mem at 2. simpl.
    now rewrite orb_false_r, negb_orb.
  - (* not stale *)
    split; [assumption|].
    erewrite iflat_from_insert_same; [eassumption | eassumption |].
    unfold evicted_at. simpl. now rewrite Hst.
  - split; [assumption|].
    erewrite iflat_from_insert_same; [eassumption | eassumption | reflexivity].
  - split; assumption.
Qed.

Lemma step_numbered db0 c st st' :
  log_numbered db0 st -> fo_step deliver payload vapid c st = Some st' ->
  log_numbered db0 st'.
Proof.
  intros (Hf & appended & Hlog & Hids & Hseq) H. unfold log_numbered.
  fan_cases H i s r E db' e EL Hst Hlt;
    try (split; [assumption|]; exists appended; repeat split; assumption).
  - (* LogDelivery *)
    unfold LogDelivery in EL. rewrite Hf in EL. injection EL as <- <-.
    split; [assumption|]. cbn [delivery_log delivery_log_seq set_delivery_log].
    eexists. split; [rewrite Hlog, <- app_assoc; reflexivity|].
    rewrite map_app, length_app. cbn [map length log_id].
    replace (length appended + 1)%nat with (S (length appended)) by lia.
    rewrite ids_from_S, Hids, Hseq. split; [f_equal; f_equal; lia | lia].
  - (* DeleteSubscriptionByID *)
    unfold DeleteSubscriptionByID in EL. rewrite Hf in EL. injection EL as <- <-.
    split; [assumption|]. exists appended. repeat split; assumption.
Qed.

Lemma step_log_ok c st st' :
  log_ok (fo_db st) -> fo_step deliver payload vapid c st = Some st' -> log_ok (fo_db st').
Proof.
  intros Hok H.
  fan_cases H i s r E db' e EL Hst Hlt; try assumption.
  - replace db' with (fst (LogDelivery (fo_db st) (fo_clock st) (ID s) (statusCode r) (errMsg r)))
      by now rewrite EL.
    now apply LogDelivery_log_ok.
  - unfold DeleteSubscriptionByID in EL. destruct (fault (fo_db st)); injection EL as <- <-;
      assumption.
Qed.

Lemma step_failures db0 msg c st st' :
  fault db0 = Some msg ->
  failures_reported db0 msg st -> fo_step deliver payload vapid c st = Some st' ->
  failures_reported db0 msg st'.
Proof.
  intros Hf (Hdb & Hrep) H. unfold failures_reported in *.
  assert (Hkeep : forall i0 s0 ph0 evs,
             (forall r, ph0 <> Logged r) ->
             fo_tasks st !! i0 = Some (s0, ph0) ->
             forall ph1,
               (forall r, (ph1 = Logged r \/ ph1 = Cleaned r \/ ph1 = Finished r) ->
                          ph0 = Logged r \/ ph0 = Cleaned r \/ ph0 = Finished r
                          \/ In (EvLogLoggingError (ID s0) (StorageError msg)) evs) ->
               forall i s ph r,
                 <[i0 := (s0, ph1)]> (fo_tasks st) !! i = Some (s, ph) ->
                 (ph = Logged r \/ ph = Cleaned r \/ ph = Finished r) ->
                 In (EvLogLoggingError (ID s) (StorageError msg)) (fo_trace st ++ evs)).
  { intros i0 s0 ph0 evs _ H0 ph1 Hph1 j s' ph' r' Hj Hph.
    apply in_app_iff. destruct (decide (j = i0)) as [->|Hne].
    - rewrite list_lookup_insert_eq in Hj by (eapply lookup_lt_Some; eassumption).
      injection Hj as <- <-.
      destruct (Hph1 r' Hph) as [H1|[H1|[H1|H1]]]; [left | left | left | now right];
        eapply (Hrep i0 s0 ph0 r'); eauto.
    - rewrite list_lookup_insert_ne in Hj by congruence. left. eapply Hrep; eassumption. }
  fan_cases H i s r E db' e EL Hst Hlt.
  - split; [assumption|]. intros j s' ph' r' Hj Hph.
    rewrite <- (app_nil_r (fo_trace st)).
    eapply (Hkeep (fo_next st) s Waiting [] ltac:(discriminate) E Spawned); [|eassumption..].
    intros r0 [H0|[H0|H0]]; discriminate.
  - split; [assumption|].
    eapply (Hkeep i s Spawned _ ltac:(discriminate) E).
    intros r0 [H0|[H0|H0]]; discriminate.
  - (* LogDelivery fails *)
    unfold LogDelivery in EL. rewrite Hdb, Hf in EL. injection EL as <- <-.
    split; [reflexivity|].
    eapply (Hkeep i s (Responded r) _ ltac:(discriminate) E).
    intros r0 _. right. right. right. simpl. right. now left.
  - (* DeleteSubscriptionByID fails *)
    unfold DeleteSubscriptionByID in EL. rewrite Hdb, Hf in EL. injection EL as <- <-.
    split; [reflexivity|]. intros j s' ph' r' Hj Hph.
    apply in_app_iff. left.
    destruct (decide (j = i)) as [->|Hne].
    + rewrite list_lookup_insert_eq in Hj by (eapply lookup_lt_Some; eassumption).
      injection Hj as <- <-. eapply (Hrep i s (Logged r) r); eauto.
    + rewrite list_lookup_insert_ne in Hj by congruence. eapply Hrep; eassumption.
  - split; [assumption|]. intros j s' ph' r' Hj Hph. rewrite app_nil_r.
    destruct (decide (j = i)) as [->|Hne].
    + rewrite list_lookup_insert_eq in Hj by (eapply lookup_lt_Some; eassumption).
      injection Hj as <- <-. eapply (Hrep i s (Logged r) r); eauto.
    + rewrite list_lookup_insert_ne in Hj by congruence. eapply Hrep; eassumption.
  - split; [assumption|]. intros j s' ph' r' Hj Hph.
    destruct (decide (j = i)) as [->|Hne].
    + rewrite list_lookup_insert_eq in Hj by (eapply lookup_lt_Some; eassumption).
      injection Hj as <- <-. eapply (Hrep i s (Cleaned r) r); eauto.
    + rewrite list_lookup_insert_ne in Hj by congruence. eapply Hrep; eassumption.
  - split; assumption.
Qed.

(** The store a complete fan-out leaves behind, whatever the schedule. *)
Lemma fo_run_store (sched : list choice) (db : DB) (clock : gotime)
    (subs : list Subscription) (st : FanOut) :
  fo_run deliver payload vapid sched (fo_init db clock subs) = Some st ->
  forallb is_finished (fo_tasks st) = true ->
  (log_ok db -> log_ok (fo_db st)) /\
  (fault db = None ->
   fault (fo_db st) = None /\
   subscriptions (fo_db st)
     = rows_without (evicted_ids deliver payload vapid subs) (subscriptions db) /\
   exists appended,
     delivery_log (fo_db st) = delivery_log db ++ appended /\
     length appended = length subs /\
     map log_id appended = ids_from (delivery_log_seq db) (length subs) /\
     delivery_log_seq (fo_db st) = delivery_log_seq db + Z.of_nat (length subs) /\
     Permutation (map log_key appended)
       (iflat_from (fun i s => [(ID s, statusCode (answer deliver payload vapid i s),
                                 errMsg (answer deliver payload vapid i s))]) 0 subs)) /\
  (forall msg, fault db = Some msg ->
     fo_db st = db /\
     forall s, In s subs -> In (EvLogLoggingError (ID s) (StorageError msg)) (fo_trace st)).
Proof.
  intros Hrun Hfin.
  pose proof (fo_run_tasks deliver payload vapid _ _ _ _ _ Hrun) as Htasks.
  pose proof (fo_run_responses deliver payload vapid _ _ _ _ _ Hrun) as Hresp.
  pose proof (fun B f => @finished_accounts deliver payload vapid B f st Hresp Hfin) as Hacc.
  rewrite Htasks in Hacc.
  split; [|split].
  - intros Hok.
    apply (fo_run_invariant deliver payload vapid (fun st => log_ok (fo_db st))) in Hrun;
      [assumption | | assumption].
    intros c s1 s2. apply step_log_ok.
  - intros Hf.
    assert (Htab : table_exact db st).
    { apply (fo_run_invariant deliver payload vapid (table_exact db)) in Hrun; [assumption| |].
      - intros c s1 s2. apply step_table.
      - split; [assumption|]. unfold rows_without. simpl.
        rewrite waiting_accounts_for_nothing by reflexivity.
        symmetry. apply filter_all. reflexivity. }
    assert (Hnum : log_numbered db st).
    { apply (fo_run_invariant deliver payload vapid (log_numbered db)) in Hrun; [assumption| |].
      - intros c s1 s2. apply step_numbered.
      - split; [assumption|]. exists []. simpl. rewrite app_nil_r.
        repeat split. lia. }
    destruct (fo_run_complete deliver payload vapid _ _ _ _ _ Hrun Hfin)
      as (_ & _ & _ & Hlog).
    destruct (Hlog Hf) as (_ & (appended' & Hlog' & Hperm) & _).
    destruct Htab as (Hf' & Hrows). destruct Hnum as (_ & appended & Hlog1 & Hids & Hseq).
    assert (appended' = appended) as ->.
    { rewrite Hlog1 in Hlog'. now apply app_inv_head in Hlog'. }
    assert (Hlen : length appended = length subs).
    { rewrite <- (length_map log_key), (Permutation_length Hperm).
      apply iflat_from_singletons. }
    split; [assumption|]. split.
    + rewrite Hrows, Hacc. reflexivity.
    + exists appended. rewrite <- Hlen. repeat split; assumption.
  - intros msg Hf.
    assert (Hrep : failures_reported db msg st).
    { apply (fo_run_invariant deliver payload vapid (failures_reported db msg)) in Hrun;
        [assumption| |].
      - intros c s1 s2. now apply step_failures.
      - split; [reflexivity|]. intros i s ph r Hi Hph. apply lookup_waiting in Hi. subst.
        destruct Hph as [?|[?|?]]; discriminate. }
    destruct Hrep as [Hdb Hrep]. split; [assumption|].
    intros s Hs. rewrite <- Htasks in Hs. apply in_map_iff in Hs as ([s' ph] & <- & Hin).
    apply In_lookup in Hin as (i & Hi).
    assert (Hph : is_finished (s', ph) = true).
    { rewrite forallb_forall in Hfin. apply Hfin.
      apply list_elem_of_In. eapply list_elem_of_lookup_2. eassumption. }
    destruct ph; try discriminate. eapply (Hrep i s' (Finished r) r); eauto.
Qed.
End FanOutStore.

Lemma collect_perm (l l' : list dispatch) : Permutation l l' -> collect l = collect l'.
Proof.
  intros Hp. unfold collect. rewrite !fold_tally.
  now rewrite (count_perm d_sent _ _ Hp), (count_perm d_staleRemoved _ _ Hp),
    (count_perm (fun d => negb (d_sent d) && negb (d_staleRemoved d)) _ _ Hp).
Qed.

Lemma pushes_of_summary (trace : list event) topic nr :
  pushes_of (trace ++ [EvPrintSummary topic nr]) = pushes_of trace.
Proof. rewrite pushes_of_app. simpl. apply app_nil_r. Qed.

(** X19.  The store after a fan-out over a healthy store, whatever the
    schedule.  The subscriptions are those of the start without the
    subscribers whose push was answered 404 or 410: nothing else is removed,
    nothing is added, and the order is kept.  The delivery log has grown by
    one entry per subscriber; the new entries continue the AUTOINCREMENT
    counter without a gap, the ids of the log stay well-formed, and the
    table still satisfies the schema. *)
Theorem fanout_store (deliver : nat -> PushCall -> PushResponse) (sched : list choice)
    (db : DB) (clock : gotime) (subs : list Subscription) (req : NotifyRequest)
    (vapid : VAPID) (o : outcome) :
  fault db = None ->
  sendToSubscriptions deliver sched db clock subs req vapid = Some o ->
  exists payload appended,
    pushPayload req = Ok payload /\
    fault (out_db o) = None /\
    subscriptions (out_db o)
      = rows_without (evicted_ids deliver payload vapid subs) (subscriptions db) /\
    sublist (subscriptions (out_db o)) (subscriptions db) /\
    delivery_log (out_db o) = delivery_log db ++ appended /\
    length appended = length subs /\
    map log_id appended = ids_from (delivery_log_seq db) (length subs) /\
    delivery_log_seq (out_db o) = delivery_log_seq db + Z.of_nat (length subs) /\
    (log_ok db -> log_ok (out_db o)) /\
    (schema_ok (subscriptions db) -> schema_ok (subscriptions (out_db o))).
Proof.
  intros Hf Hsend.
  destruct (sendToSubscriptions_inv _ _ _ _ _ _ _ _ Hsend)
    as (payload & st & Hpay & Hrun & Hfin & ->).
  destruct (fo_run_store deliver payload vapid _ _ _ _ _ Hrun Hfin) as (Hok & Hstore & _).
  destruct (Hstore Hf) as (Hf' & Hrows & appended & Hlog & Hlen & Hids & Hseq & _).
  exists payload, appended. cbn [out_db].
  split; [assumption|]. split; [assumption|]. split; [assumption|].
  split; [rewrite Hrows; apply filter_sublist|].
  split; [assumption|]. split; [assumption|]. split; [assumption|].
  split; [assumption|]. split; [assumption|].
  intros Hs. rewrite Hrows. now apply schema_ok_filter.
Qed.

Lemma fanout_store_witness :
  exists o,
    sendToSubscriptions sample_deliver (sequential 4) sample_db sample_now
      (subscriptions sample_db) sample_req sample_vapid = Some o /\
    subscriptions (out_db o) = [sub_alice; sub_bob; sub_dave] /\
    map log_id (delivery_log (out_db o)) = [1; 2; 3; 4].
Proof.
  destruct (sendToSubscriptions_returns sample_deliver sample_db sample_now
              (subscriptions sample_db) sample_req sample_vapid) as (o & Ho).
  exists o. split; [exact Ho|].
  destruct (fanout_store sample_deliver (sequential 4) sample_db sample_now
              (subscriptions sample_db) sample_req sample_vapid o eq_refl Ho)
    as (payload & appended & _ & _ & Hrows & _ & Hlog & _ & Hids & _).
  split; [rewrite Hrows; reflexivity | rewrite Hlog, map_app, Hids; reflexivity].
Defined.

(** X20.  The outcome of a fan-out does not depend on the interleaving.
    Two complete schedules of the same call return the same counts and make
    the same push calls; on a healthy store they leave the same
    subscriptions, the same counter and the same log ids, and log entries
    that differ by their order (and time stamps) only. *)
Theorem fanout_schedule_independent (deliver : nat -> PushCall -> PushResponse)
    (sched1 sched2 : list choice) (db : DB) (clock : gotime) (subs : list Subscription)
    (req : NotifyRequest) (vapid : VAPID) (o1 o2 : outcome) :
  sendToSubscriptions deliver sched1 db clock subs req vapid = Some o1 ->
  sendToSubscriptions deliver sched2 db clock subs req vapid = Some o2 ->
  out_result o1 = out_result o2 /\
  Permutation (pushes_of (out_trace o1)) (pushes_of (out_trace o2)) /\
  (fault db = None ->
   subscriptions (out_db o1) = subscriptions (out_db o2) /\
   delivery_log_seq (out_db o1) = delivery_log_seq (out_db o2) /\
   map log_id (delivery_log (out_db o1)) = map log_id (delivery_log (out_db o2)) /\
   Permutation (map log_key (delivery_log (out_db o1)))
               (map log_key (delivery_log (out_db o2)))).
Proof.
  intros H1 H2.
  destruct (sendToSubscriptions_inv _ _ _ _ _ _ _ _ H1)
    as (payload & st1 & Hpay & Hrun1 & Hfin1 & ->).
  destruct (sendToSubscriptions_inv _ _ _ _ _ _ _ _ H2)
    as (payload' & st2 & Hpay' & Hrun2 & Hfin2 & ->).
  rewrite Hpay in Hpay'. injection Hpay' as <-.
  destruct (fo_run_complete deliver payload vapid _ _ _ _ _ Hrun1 Hfin1)
    as (Hres1 & Hpush1 & _).
  destruct (fo_run_complete deliver payload vapid _ _ _ _ _ Hrun2 Hfin2)
    as (Hres2 & Hpush2 & _).
  cbn [out_result out_trace out_db]. split; [|split].
  - apply collect_perm. now rewrite Hres1, Hres2.
  - rewrite !pushes_of_summary. now rewrite Hpush1, Hpush2.
  - intros Hf.
    destruct (fo_run_store deliver payload vapid _ _ _ _ _ Hrun1 Hfin1) as (_ & Hs1 & _).
    destruct (fo_run_store deliver payload vapid _ _ _ _ _ Hrun2 Hfin2) as (_ & Hs2 & _).
    destruct (Hs1 Hf) as (_ & Hrows1 & a1 & Hlog1 & _ & Hids1 & Hseq1 & Hk1).
    destruct (Hs2 Hf) as (_ & Hrows2 & a2 & Hlog2 & _ & Hids2 & Hseq2 & Hk2).
    split; [congruence|]. split; [congruence|].
    rewrite Hlog1, Hlog2, !map_app. split; [congruence|].
    apply Permutation_app_head. now rewrite Hk1, Hk2.
Qed.

Lemma fanout_schedule_independent_witness :
  exists o1 o2,
    sendToSubscriptions sample_deliver (sequential 4) sample_db sample_now
      (subscriptions sample_db) sample_req sample_vapid = Some o1 /\
    sendToSubscriptions sample_deliver
      ([Spawn; Spawn; Spawn; Spawn; Run 3; Run 2; Run 1; Run 0; Tick Second;
        Run 2; Run 3; Run 2; Run 0; Run 0; Run 1; Run 1; Run 1; Run 3; Run 3; Run 2; Run 0])%nat
      sample_db sample_now (subscriptions sample_db) sample_req sample_vapid = Some o2 /\
    out_result o1 = out_result o2 /\
    subscriptions (out_db o1) = subscriptions (out_db o2).
Proof.
  destruct (sendToSubscriptions_returns sample_deliver sample_db sample_now
              (subscriptions sample_db) sample_req sample_vapid) as (o1 & H1).
  destruct (sendToSubscriptions sample_deliver
              ([Spawn; Spawn; Spawn; Spawn; Run 3; Run 2; Run 1; Run 0; Tick Second;
                Run 2; Run 3; Run 2; Run 0; Run 0; Run 1; Run 1; Run 1; Run 3; Run 3;
                Run 2; Run 0])%nat
              sample_db sample_now (subscriptions sample_db) sample_req sample_vapid)
    as [o2|] eqn:H2; [|vm_compute in H2; discriminate H2].
  exists o1, o2. split; [exact H1|]. split; [reflexivity|].
  destruct (fanout_schedule_independent _ _ _ _ _ _ _ _ _ _ H1 H2) as (Hres & _ & Hdb).
  split; [exact Hres | apply (Hdb eq_refl)].
Defined.

(** X21.  A fan-out over a store whose statements fail.  Every subscriber
    still gets its push call and the counts are those of the answers, but
    the store is left exactly as it was: each failed [LogDelivery] is
    reported, and the subscribers answered 404 or 410 are counted in
    [StaleRemoved] although their records are not removed. *)
Theorem fanout_failing_store (deliver : nat -> PushCall -> PushResponse)
    (sched : list choice) (db : DB) (clock : gotime) (subs : list Subscription)
    (req : NotifyRequest) (vapid : VAPID) (o : outcome) (msg : string) :
  fault db = Some msg ->
  sendToSubscriptions deliver sched db clock subs req vapid = Some o ->
  exists payload,
    pushPayload req = Ok payload /\
    out_db o = db /\
    Permutation (pushes_of (out_trace o))
                (iflat_from (fun i s => [(i, mk_call payload vapid s)]) 0 subs) /\
    (forall s, In s subs ->
       In (EvLogLoggingError (ID s) (StorageError msg)) (out_trace o)) /\
    StaleRemoved (out_result o) = count gone (responses deliver payload vapid subs) /\
    Sent (out_result o) = count successful (responses deliver payload vapid subs).
Proof.
  intros Hf Hsend.
  destruct (sendToSubscriptions_inv _ _ _ _ _ _ _ _ Hsend)
    as (payload & st & Hpay & Hrun & Hfin & ->).
  destruct (fo_run_complete deliver payload vapid _ _ _ _ _ Hrun Hfin) as (Hres & Hpush & _).
  destruct (fo_run_store deliver payload vapid _ _ _ _ _ Hrun Hfin) as (_ & _ & Hfail).
  destruct (Hfail msg Hf) as (Hdb & Hrep).
  exists payload. cbn [out_db out_trace out_result].
  split; [assumption|]. split; [assumption|]. split; [now rewrite pushes_of_summary|].
  split; [intros s Hs; apply in_app_iff; left; now apply Hrep|].
  rewrite (collect_perm _ _ Hres). unfold collect. rewrite fold_tally.
  cbn [StaleRemoved Sent NotifyResult_zero]. rewrite !count_map. split.
  - rewrite Z.add_0_l. apply count_ext. intros r. apply stale_gone.
  - rewrite Z.add_0_l. apply count_ext. intros r. apply sent_successful.
Qed.

Lemma fanout_failing_store_witness :
  exists o,
    sendToSubscriptions sample_deliver (sequential 4) broken_db sample_now
      (subscriptions broken_db) sample_req sample_vapid = Some o /\
    out_db o = broken_db /\ StaleRemoved (out_result o) = 1.
Proof.
  destruct (sendToSubscriptions_returns sample_deliver broken_db sample_now
              (subscriptions broken_db) sample_req sample_vapid) as (o & Ho).
  exists o. split; [exact Ho|].
  destruct (fanout_failing_store sample_deliver (sequential 4) broken_db sample_now
              (subscriptions broken_db) sample_req sample_vapid o "database is locked"
              eq_refl Ho)
    as (payload & _ & Hdb & _ & _ & Hstale & _).
  split; [exact Hdb | rewrite Hstale; reflexivity].
Defined.

(** ** The public notify handler *)

(** X22.  [HandleTopicNotify] cannot broadcast.  Without a topic in the
    path, without a decodable body or without a title it answers 400, sends
    nothing and leaves the store alone.  Otherwise it answers 200, and every
    push call of the fan-out goes to a stored subscriber of the topic of the
    path, with that subscriber's keys, whatever topic the body names (the
    empty topic, which means everyone to the admin handler, included).
    Some schedule completes the call. *)
Theorem HandleTopicNotify_scope (deliver : nat -> PushCall -> PushResponse) (db : DB)
    (clock : gotime) (vapid : VAPID) (topic : string) (decoded : option NotifyRequest) :
  (exists sched resp o,
     HandleTopicNotify deliver sched db clock vapid topic decoded = Some (resp, o)) /\
  forall sched resp o,
    HandleTopicNotify deliver sched db clock vapid topic decoded = Some (resp, o) ->
    (status resp = StatusBadRequest <->
     topic = "" \/ decoded = None \/ exists req, decoded = Some req /\ Title req = "") /\
    (status resp = StatusBadRequest \/
     status resp = StatusOK /\ payload_body resp = NotifyBody (out_result o)) /\
    (status resp = StatusBadRequest -> out_trace o = [] /\ out_db o = db) /\
    (forall i call, In (EvPush i call) (out_trace o) ->
       exists s, In s (subscriptions db) /\ Topic s = topic /\ topic <> "" /\
                 call_Endpoint call = Endpoint s /\ call_P256dh call = KeyP256dh s /\
                 call_Auth call = KeyAuth s).
Proof.
  split.
  - unfold HandleTopicNotify. destruct (String.eqb topic ""); [exists []; eauto|].
    destruct decoded as [req|]; [|exists []; eauto].
    destruct (String.eqb (Title req) ""); [exists []; eauto|]. cbv zeta.
    set (req' := {| ReqTopic := topic; Title := Title req; Body := Body req;
                    Icon := Icon req; Badge := Badge req; Tag := Tag req; URL := URL req |}).
    destruct (SendNotifications_returns deliver db clock req' vapid) as (sched & o & Ho).
    exists sched. do 2 eexists. rewrite Ho. reflexivity.
  - intros sched resp o. unfold HandleTopicNotify.
    destruct (String.eqb_spec topic "") as [Ht|Ht].
    { intros [= <- <-]. cbn [status out_trace out_db payload_body].
      repeat split; auto. intros i call []. }
    destruct decoded as [req|].
    2:{ intros [= <- <-]. cbn [status out_trace out_db payload_body].
        repeat split; auto. intros i call []. }
    destruct (String.eqb_spec (Title req) "") as [Hti|Hti].
    { intros [= <- <-]. cbn [status out_trace out_db payload_body].
      repeat split; eauto. intros i call []. }
    cbv zeta.
    set (req' := {| ReqTopic := topic; Title := Title req; Body := Body req;
                    Icon := Icon req; Badge := Badge req; Tag := Tag req; URL := URL req |}).
    destruct (SendNotifications deliver sched db clock req' vapid) as [o'|] eqn:Hsend;
      [|discriminate].
    intros [= <- <-]. cbn [status payload_body].
    split; [|split; [|split]].
    + split; [discriminate|].
      intros [H|[H|(r & [= <-] & H)]]; [contradiction | discriminate | contradiction].
    + right. split; reflexivity.
    + discriminate.
    + intros i call Hin.
      destruct (pushPayload_total req') as (payload & Hpay).
      destruct (proj1 (SendNotifications_pushes _ _ _ _ _ _ _ _ Hpay Hsend i call) Hin)
        as (subs & s & Hget & Hi & Hcall).
      subst call.
      unfold GetSubscriptionsByTopic in Hget. cbn [ReqTopic req'] in Hget.
      destruct (fault db); [discriminate|].
      destruct (String.eqb_spec topic ""); [contradiction|].
      injection Hget as <-.
      assert (Hs : In s (List.filter (fun r => String.eqb (Topic r) topic) (subscriptions db))).
      { apply In_lookup. eauto. }
      apply filter_In in Hs as [Hs Htop]. apply String.eqb_eq in Htop.
      exists s. repeat split; assumption.
Qed.

Lemma HandleTopicNotify_scope_witness :
  exists resp o,
    HandleTopicNotify sample_deliver (sequential 2) sample_db sample_now sample_vapid
      "alerts" (Some sample_req) = Some (resp, o) /\
    status resp = StatusOK /\
    forall i call, In (EvPush i call) (out_trace o) ->
      exists s, In s (subscriptions sample_db) /\ Topic s = "alerts" /\
                call_Endpoint call = Endpoint s.
Proof.
  destruct (HandleTopicNotify sample_deliver (sequential 2) sample_db sample_now sample_vapid
              "alerts" (Some sample_req)) as [[resp o]|] eqn:E;
    [|vm_compute in E; discriminate E].
  exists resp, o. split; [reflexivity|].
  destruct (HandleTopicNotify_scope sample_deliver sample_db sample_now sample_vapid
              "alerts" (Some sample_req)) as [_ H].
  destruct (H (sequential 2) resp o E) as (Hbad & Hst & _ & Hcalls).
  split.
  - destruct Hst as [Hst|[Hst _]]; [|exact Hst].
    apply Hbad in Hst. destruct Hst as [Hst|[Hst|(r & [= <-] & Hst)]]; discriminate.
  - intros i call Hin. destruct (Hcalls i call Hin) as (s & Hs & Ht & _ & He & _).
    exists s. auto.
Defined.

(** ** The welcome message *)

Lemma Permutation_singleton {A : Type} (l : list A) (x : A) : Permutation l [x] -> l = [x].
Proof. intros H. symmetry in H. now apply Permutation_length_1_inv in H. Qed.

Lemma rows_without_nil (rows : list Subscription) : rows_without [] rows = rows.
Proof. unfold rows_without. apply filter_all. reflexivity. Qed.

(** X23.  The welcome delivery of a new subscription.  On a healthy store
    that satisfies the schema, when the id drawn by [randomID] is not the id
    of a stored record and [HandlePostSubscription] starts a welcome
    delivery, it has answered 201 with the fresh id, and every complete run
    of the fan-out it starts, on the store the handler left, makes one push
    call: to the endpoint of the request, with the keys of the request,
    carrying a payload whose title is the welcome message as JSON holds it
    (U+FFFD in the place of every byte that starts no valid UTF-8 encoding)
    and which has no body.  It appends one entry for the new id to the
    delivery log, and when the push service answers 404 or 410 the record
    just created is removed again, so that the subscriptions are those the
    store had before the request. *)
Theorem welcome_delivery (s : Server) (db db' : DB) (entropy : list Z) (now : gotime)
    (b : SubscriptionBody) (rep : reply) (w : welcome)
    (deliver : nat -> PushCall -> PushResponse) (sched : list choice) (clock : gotime)
    (o : outcome) :
  fault db = None ->
  schema_ok (subscriptions db) ->
  ~ In (randomID entropy) (map ID (subscriptions db)) ->
  HandlePostSubscription s db entropy now (Some b) = (db', rep, Some w) ->
  sendToSubscriptions deliver sched db' clock (welcome_subs w) (welcome_req w) (srv_VAPID s)
    = Some o ->
  exists payload call e,
    rep = writeJSON StatusCreated (JSONId (randomID entropy)) /\
    pushPayload (welcome_req w) = Ok payload /\
    at_path ["notification"; "title"] payload
      = Some (VString (json_string (WelcomeMessage s))) /\
    at_path ["notification"; "body"] payload = None /\
    pushes_of (out_trace o) = [(0%nat, call)] /\
    call_payload call = payload /\
    call_Endpoint call = body_Endpoint b /\
    call_P256dh call = body_P256dh b /\
    call_Auth call = body_Auth b /\
    delivery_log (out_db o) = delivery_log db ++ [e] /\
    subscription_id e = randomID entropy /\
    status_code e = statusCode (deliver 0%nat call) /\
    subscriptions (out_db o)
      = (if stale (deliver 0%nat call) then subscriptions db else subscriptions db').
Proof.
  intros Hf Hs Hfresh Hpost Hsend.
  unfold HandlePostSubscription in Hpost.
  destruct (_ || _ || _); [discriminate|].
  destruct (UpsertSubscription_shape db entropy now (body_Topic b) (body_Endpoint b)
              (body_P256dh b) (body_Auth b) Hf Hs Hfresh)
    as (pre & post & id & created & c & Hup & Hother & _ & Hnew & _).
  rewrite Hup in Hpost. destruct created; [|discriminate].
  destruct (Hnew eq_refl) as (Hpre & -> & -> & ->). cbn [andb] in Hpost.
  destruct (String.eqb (WelcomeMessage s) ""); [discriminate|].
  cbn [negb] in Hpost. injection Hpost as <- <- <-.
  cbn [welcome_subs welcome_req] in *.
  set (sub := {| ID := randomID entropy; Topic := ""; Endpoint := body_Endpoint b;
                 KeyP256dh := body_P256dh b; KeyAuth := body_Auth b; CreatedAt := 0 |}) in *.
  set (db1 := set_subscriptions db _) in *.
  destruct (sendToSubscriptions_inv _ _ _ _ _ _ _ _ Hsend)
    as (payload & st & Hpay & Hrun & Hfin & ->).
  destruct (fo_run_complete _ _ _ _ _ _ _ _ Hrun Hfin) as (_ & Hpush & _).
  destruct (fo_run_store _ _ _ _ _ _ _ _ Hrun Hfin) as (_ & Hstore & _).
  destruct (Hstore Hf) as (_ & Hrows & appended & Hlog & Hlen & _ & _ & Hkeys).
  cbn [iflat_from app] in Hpush, Hkeys.
  apply Permutation_singleton in Hpush.
  destruct appended as [|e [|e' rest]]; try discriminate.
  apply Permutation_singleton in Hkeys. injection Hkeys as Hid Hcode _.
  exists payload, (mk_call payload (srv_VAPID s) sub), e.
  cbn [out_trace out_db]. rewrite pushes_of_summary.
  split; [reflexivity|]. split; [exact Hpay|].
  unfold pushPayload, json_Marshal in Hpay. cbn [Body Icon Badge Tag URL Title String.eqb] in Hpay.
  injection Hpay as <-.
  split; [reflexivity|]. split; [reflexivity|]. split; [exact Hpush|].
  split; [reflexivity|]. split; [reflexivity|]. split; [reflexivity|]. split; [reflexivity|].
  split; [exact Hlog|]. split; [exact Hid|]. split; [exact Hcode|].
  rewrite Hrows. unfold evicted_ids. cbn [iflat_from]. rewrite app_nil_r.
  unfold answer. destruct (stale _).
  - unfold rows_without, db1. cbn [set_subscriptions subscriptions].
    rewrite app_nil_r in Hother. rewrite List.filter_app. cbn [List.filter ID mem existsb].
    rewrite String.eqb_refl. cbn [orb negb]. rewrite app_nil_r, Hpre.
    apply filter_all. intros x Hx. apply negb_true_iff.
    cbn [mem existsb]. rewrite orb_false_r. apply String.eqb_neq.
    apply Hother. exact Hx.
  - apply rows_without_nil.
Qed.

Lemma welcome_delivery_witness :
  let s := {| srv_VAPID := sample_vapid; AdminKey := "secret"; WelcomeMessage := "Welcome!" |} in
  let b := {| body_Topic := "news"; body_Endpoint := new_endpoint;
              body_P256dh := "pk-erin"; body_Auth := "auth-erin" |} in
  exists db' rep w o,
    HandlePostSubscription s sample_db sample_entropy sample_now (Some b)
      = (db', rep, Some w) /\
    sendToSubscriptions (fun _ _ => HTTPResponse 410) (sequential 1) db' sample_now
      (welcome_subs w) (welcome_req w) (srv_VAPID s) = Some o /\
    subscriptions (out_db o) = subscriptions sample_db.
Proof.
  intros s b.
  destruct (HandlePostSubscription s sample_db sample_entropy sample_now (Some b))
    as [[db' rep] [w|]] eqn:Hpost; [|vm_compute in Hpost; discriminate].
  destruct (sendToSubscriptions (fun _ _ => HTTPResponse 410) (sequential 1) db' sample_now
              (welcome_subs w) (welcome_req w) (srv_VAPID s)) as [o|] eqn:Hsend.
  - exists db', rep, w, o. split; [reflexivity|]. split; [exact Hsend|].
    destruct (welcome_delivery s sample_db db' sample_entropy sample_now b rep w
                (fun _ _ => HTTPResponse 410) (sequential 1) sample_now o
                eq_refl sample_db_schema_ok sample_entropy_fresh Hpost Hsend)
      as (payload & call & e & _ & _ & _ & _ & _ & _ & _ & _ & _ & _ & _ & _ & Hrows).
    exact Hrows.
  - exfalso. vm_compute in Hpost. injection Hpost as <- <- <-.
    vm_compute in Hsend. discriminate.
Defined.

(** ** The wait group and the summary line *)

Section FanOutTrace.
Variable deliver : nat -> PushCall -> PushResponse.
Variable payload : blob.
Variable vapid : VAPID.

Lemma step_worker_events c st st' :
  Forall (fun e => worker_event e = true) (fo_trace st) ->
  fo_step deliver payload vapid c st = Some st' ->
  Forall (fun e => worker_event e = true) (fo_trace st').
Proof.
  intros Inv H.
  fan_cases H i s r E db' e EL Hst Hlt; try assumption;
    apply Forall_app; (split; [assumption|]);
    repeat constructor; destruct e; repeat constructor.
Qed.
End FanOutTrace.

(** X24.  Every [SendNotifications] brackets its work between one
    [wg.Add(1)] and one [wg.Done()], on the path where the read of the
    subscribers fails as on the others.  In between there is either the one
    line that reports the failed read, or the events of the workers (push
    calls, log writes, deletions and their error reports) followed by one
    summary line that prints the topic of the request and the counts the
    call returns. *)
Theorem SendNotifications_waitgroup (deliver : nat -> PushCall -> PushResponse)
    (sched : list choice) (db : DB) (clock : gotime) (req : NotifyRequest) (vapid : VAPID)
    (o : outcome) :
  SendNotifications deliver sched db clock req vapid = Some o ->
  exists middle,
    out_trace o = EvWaitGroupAdd :: middle ++ [EvWaitGroupDone] /\
    ~ In EvWaitGroupAdd middle /\ ~ In EvWaitGroupDone middle /\
    ((exists e, GetSubscriptionsByTopic db (ReqTopic req) = Err e /\
                middle = [EvLogFetchError e] /\ out_db o = db) \/
     (exists work,
        middle = work ++ [EvPrintSummary (ReqTopic req) (out_result o)] /\
        Forall (fun e => worker_event e = true) work)).
Proof.
  intros Hsend.
  destruct (SendNotifications_inv _ _ _ _ _ _ _ Hsend)
    as [(e & Hget & ->)|(subs & o' & Hget & Hsub & ->)].
  - exists [EvLogFetchError e]. cbn [out_trace out_db app].
    split; [reflexivity|]. split; [intros [H|[]]; discriminate|].
    split; [intros [H|[]]; discriminate|]. left. eauto.
  - destruct (sendToSubscriptions_inv _ _ _ _ _ _ _ _ Hsub)
      as (payload & st & Hpay & Hrun & Hfin & ->).
    assert (Hw : Forall (fun e => worker_event e = true) (fo_trace st)).
    { apply (fo_run_invariant deliver payload vapid
               (fun st => Forall (fun e => worker_event e = true) (fo_trace st))) in Hrun;
        [assumption| |constructor].
      intros c s1 s2. apply step_worker_events. }
    cbn [out_trace out_result].
    exists (fo_trace st ++ [EvPrintSummary (ReqTopic req) (collect (fo_results st))]).
    split; [reflexivity|].
    rewrite List.Forall_forall in Hw.
    split; [|split].
    + intros Hin. apply in_app_iff in Hin as [Hin|[Hin|[]]]; [|discriminate].
      apply Hw in Hin. discriminate.
    + intros Hin. apply in_app_iff in Hin as [Hin|[Hin|[]]]; [|discriminate].
      apply Hw in Hin. discriminate.
    + right. exists (fo_trace st). split; [reflexivity|]. now apply List.Forall_forall.
Qed.

Lemma SendNotifications_waitgroup_witness :
  exists o middle,
    SendNotifications sample_deliver (sequential 2) sample_db sample_now
      alerts_req sample_vapid = Some o /\
    out_trace o = EvWaitGroupAdd :: middle ++ [EvWaitGroupDone] /\
    ~ In EvWaitGroupDone middle.
Proof.
  destruct (SendNotifications sample_deliver (sequential 2) sample_db sample_now
              alerts_req sample_vapid) as [o|] eqn:Hsend; [|vm_compute in Hsend; discriminate].
  destruct (SendNotifications_waitgroup _ _ _ _ _ _ o Hsend) as (middle & Htrace & _ & Hdone & _).
  exists o, middle. split; [reflexivity|]. split; assumption.
Defined.

(** ** Registrations that fail *)

(** X25.  [HandlePostSubscription] when the store refuses.  With a
    complete body, a store whose statements fail is answered 500, and so is
    the case where the id drawn by [randomID] is already the id of a record
    while the endpoint is new: the insert violates the primary key and is
    not tried again with another id.  In both cases the store is left as it
    was and no welcome delivery is started. *)
Theorem HandlePostSubscription_failures (s : Server) (db : DB) (entropy : list Z)
    (now : gotime) (b : SubscriptionBody) :
  body_Endpoint b <> "" -> body_P256dh b <> "" -> body_Auth b <> "" ->
  fault db <> None \/
  (In (randomID entropy) (map ID (subscriptions db)) /\
   ~ In (body_Endpoint b) (map Endpoint (subscriptions db))) ->
  HandlePostSubscription s db entropy now (Some b)
  = (db, writeError StatusInternalServerError "failed to save subscription", None).
Proof.
  intros He Hp Ha Hcase. unfold HandlePostSubscription.
  destruct (String.eqb_spec (body_Endpoint b) ""); [contradiction|].
  destruct (String.eqb_spec (body_P256dh b) ""); [contradiction|].
  destruct (String.eqb_spec (body_Auth b) ""); [contradiction|].
  cbn [orb]. unfold UpsertSubscription.
  destruct (fault db) as [msg|] eqn:Hf; [reflexivity|].
  destruct Hcase as [Hcase|[Hid Hnew]]; [contradiction|].
  unfold exec_upsert.
  assert (H1 : existsb (fun r => String.eqb (Endpoint r) (body_Endpoint b)) (subscriptions db)
               = false).
  { apply existsb_false_In. intros x Hx. apply String.eqb_neq. intros E.
    apply Hnew. rewrite <- E. now apply in_map. }
  assert (H2 : existsb (fun r => String.eqb (ID r) (randomID entropy)) (subscriptions db)
               = true).
  { apply in_map_iff in Hid as (x & Hx & Hin).
    apply existsb_true_In with (x := x); [assumption | now apply String.eqb_eq]. }
  now rewrite H1, H2.
Qed.

Lemma HandlePostSubscription_failures_witness :
  HandlePostSubscription
    {| srv_VAPID := sample_vapid; AdminKey := "secret"; WelcomeMessage := "Welcome!" |}
    broken_db sample_entropy sample_now
    (Some {| body_Topic := "news"; body_Endpoint := new_endpoint;
             body_P256dh := "pk-erin"; body_Auth := "auth-erin" |})
  = (broken_db, writeError StatusInternalServerError "failed to save subscription", None).
Proof.
  apply HandlePostSubscription_failures; try discriminate.
  left. discriminate.
Defined.

(** ** The router *)

Lemma UpsertSubscription_log db entropy now topic endpoint p256dh auth :
  let db' := fst (UpsertSubscription db entropy now topic endpoint p256dh auth) in
  delivery_log db' = delivery_log db /\ delivery_log_seq db' = delivery_log_seq db /\
  fault db' = fault db.
Proof.
  unfold UpsertSubscription. destruct (fault db) eqn:Hf; [cbn; auto|].
  destruct (exec_upsert _ _ _ _ _ _ _) as [[rows' n]|e]; [|cbn; auto].
  destruct (query_id_by_endpoint rows' endpoint); cbn; auto.
Qed.

(** The public handlers leave the delivery log alone. *)
Lemma HandlePostSubscription_log s db entropy now decoded :
  let db' := fst (fst (HandlePostSubscription s db entropy now decoded)) in
  delivery_log db' = delivery_log db /\ delivery_log_seq db' = delivery_log_seq db.
Proof.
  unfold HandlePostSubscription. destruct decoded as [b|]; [|now split].
  destruct (_ || _ || _); [now split|].
  pose proof (UpsertSubscription_log db entropy now (body_Topic b) (body_Endpoint b)
                (body_P256dh b) (body_Auth b)) as H. cbv zeta in H.
  destruct (UpsertSubscription _ _ _ _ _ _ _) as [db1 [[id created]|e]];
    cbn [fst] in *; tauto.
Qed.

Lemma HandleDeleteSubscriptionByEndpoint_log db decoded :
  let db' := fst (HandleDeleteSubscriptionByEndpoint db decoded) in
  delivery_log db' = delivery_log db /\ delivery_log_seq db' = delivery_log_seq db.
Proof.
  unfold HandleDeleteSubscriptionByEndpoint. destruct decoded as [ep|]; [|now split].
  destruct (String.eqb ep ""); [now split|].
  unfold DeleteSubscriptionByEndpoint. destruct (fault db); now split.
Qed.

(** X26.  The middleware of [NewRouter].  Every response carries the three
    CORS headers, with the configured origin.  A request with the method
    OPTIONS is answered 204 at once: no handler runs, nothing is checked,
    the store is untouched and no access-log line is written.  Every other
    request writes exactly one access-log line, with its method, its path
    and the status that was sent.  A POST or DELETE that announces a body
    whose content type does not begin with [application/json] is answered
    415 before any handler or authentication runs; a request whose content
    length is unknown (-1) or zero is not subject to that check, and is
    answered by the handler the mux selects. *)
Theorem NewRouter_middleware (s : Server) (corsOrigin : string) (w : World)
    (r : Request) (db : DB) :
  (Method r = "OPTIONS" ->
   NewRouter s corsOrigin w r db =
     Some {| ex_headers := cors_headers corsOrigin; ex_reply := WriteHeader StatusNoContent;
             ex_db := db; ex_welcome := None; ex_fanout := None; ex_log := [] |}) /\
  forall ex,
    NewRouter s corsOrigin w r db = Some ex ->
    ex_headers ex = cors_headers corsOrigin /\
    (Method r <> "OPTIONS" ->
     ex_log ex = [(Method r, Path r, reply_status (ex_reply ex))]) /\
    (Method r = "POST" \/ Method r = "DELETE" ->
     0 < ContentLength r ->
     HasPrefix (ContentType r) "application/json" = false ->
     ex_reply ex = writeJSON StatusUnsupportedMediaType (JSONContentTypeError (ContentType r)) /\
     ex_db ex = db /\ ex_welcome ex = None /\ ex_fanout ex = None) /\
    (Method r <> "OPTIONS" ->
     ContentLength r <= 0 \/ HasPrefix (ContentType r) "application/json" = true \/
     (Method r <> "POST" /\ Method r <> "DELETE") ->
     exists ex0,
       ServeMux s w r db = Some ex0 /\
       ex_reply ex = ex_reply ex0 /\ ex_db ex = ex_db ex0 /\
       ex_welcome ex = ex_welcome ex0 /\ ex_fanout ex = ex_fanout ex0).
Proof.
  assert (Hmux : forall ex0, ServeMux s w r db = Some ex0 ->
                             ex_headers ex0 = [] /\ ex_log ex0 = []).
  { intros ex0. unfold ServeMux, guarded, respond.
    destruct (matched r); try (intros [= <-]; now split).
    - destruct (HandlePostSubscription _ _ _ _ _) as [[db' rep] wl].
      intros [= <-]. now split.
    - destruct (HandleDeleteSubscriptionByEndpoint _ _) as [db' rep].
      intros [= <-]. now split.
    - destruct (requireAuth _ _ _); intros [= <-]; now split.
    - destruct (requireAuth _ _ _) as [rep|[db' rep]]; intros [= <-]; now split.
    - destruct (requireAuth _ _ _) as [rep|[[resp o]|]]; try discriminate;
        intros [= <-]; now split.
    - destruct (requireAuth _ _ _) as [rep|[db' resp]]; intros [= <-]; now split. }
  unfold NewRouter, corsMiddleware, loggingMiddleware, contentTypeMiddleware,
    MethodOptions, MethodPost, MethodDelete.
  split.
  { intros ->. reflexivity. }
  intros ex.
  destruct (String.eqb_spec (Method r) "OPTIONS") as [Hopt|Hopt].
  { intros [= <-]. cbn [ex_headers ex_reply ex_db ex_welcome ex_fanout ex_log].
    split; [reflexivity|]. split; [contradiction|]. split; [|contradiction].
    intros [Hm|Hm]; rewrite Hm in Hopt; discriminate. }
  destruct ((String.eqb (Method r) "POST" || String.eqb (Method r) "DELETE")
            && (0 <? ContentLength r)) eqn:Hcheck.
  - apply andb_true_iff in Hcheck as [Hm Hlen]. apply Z.ltb_lt in Hlen.
    destruct (HasPrefix (ContentType r) "application/json") eqn:Hct; cbn [negb].
    + destruct (ServeMux s w r db) as [ex0|] eqn:E; [|discriminate].
      destruct (Hmux ex0 eq_refl) as [Hh Hl].
      intros [= <-]. cbn [ex_headers ex_reply ex_db ex_welcome ex_fanout ex_log].
      rewrite Hh, Hl. split; [reflexivity|]. split; [reflexivity|].
      split; [discriminate|]. intros _ _. exists ex0. repeat split; reflexivity.
    + intros [= <-]. cbn [ex_headers ex_reply ex_db ex_welcome ex_fanout ex_log respond].
      split; [reflexivity|]. split; [reflexivity|]. split; [repeat split|].
      intros _ [H|[H|[H1 H2]]]; [lia | discriminate |].
      apply orb_true_iff in Hm as [Hm|Hm]; apply String.eqb_eq in Hm; contradiction.
  - destruct (ServeMux s w r db) as [ex0|] eqn:E; [|discriminate].
    destruct (Hmux ex0 eq_refl) as [Hh Hl].
    intros [= <-]. cbn [ex_headers ex_reply ex_db ex_welcome ex_fanout ex_log].
    rewrite Hh, Hl. split; [reflexivity|]. split; [reflexivity|].
    split.
    + intros Hm Hlen Hct. exfalso.
      apply andb_false_iff in Hcheck as [Hc|Hc].
      * destruct Hm as [Hm|Hm]; rewrite Hm in Hc; discriminate.
      * apply Z.ltb_ge in Hc. lia.
    + intros _ _. exists ex0. repeat split; reflexivity.
Qed.

Lemma NewRouter_middleware_witness :
  let s := {| srv_VAPID := sample_vapid; AdminKey := "secret"; WelcomeMessage := "" |} in
  let w := {| w_entropy := sample_entropy; w_now := sample_now;
              w_deliver := sample_deliver; w_sched := [] |} in
  let r := {| Method := "POST"; Path := "/subscriptions"; ContentLength := 120;
              ContentType := "text/plain"; Authorization := "";
              matched := PostSubscriptions
                           (Some {| body_Topic := "news"; body_Endpoint := new_endpoint;
                                    body_P256dh := "pk-erin"; body_Auth := "auth-erin" |}) |} in
  exists ex,
    NewRouter s "*" w r sample_db = Some ex /\
    reply_status (ex_reply ex) = 415 /\ ex_db ex = sample_db /\
    ex_log ex = [("POST", "/subscriptions", 415)].
Proof.
  intros s w r.
  destruct (NewRouter s "*" w r sample_db) as [ex|] eqn:E; [|vm_compute in E; discriminate E].
  exists ex. split; [reflexivity|].
  destruct (NewRouter_middleware s "*" w r sample_db) as [_ H].
  destruct (H ex E) as (_ & Hlog & Hct & _).
  destruct Hct as (Hrep & Hdb & _); [now left | reflexivity | reflexivity|].
  split; [now rewrite Hrep|]. split; [exact Hdb|].
  rewrite Hlog by discriminate. now rewrite Hrep.
Defined.

(** What a welcome delivery is made of. *)
Lemma HandlePostSubscription_welcome s db entropy now decoded :
  let '(_, rep, w) := HandlePostSubscription s db entropy now decoded in
  (WelcomeMessage s = "" -> w = None) /\
  (forall wl, w = Some wl ->
     exists b id,
       decoded = Some b /\
       rep = writeJSON StatusCreated (JSONId id) /\
       welcome_subs wl =
         [ {| ID := id; Topic := ""; Endpoint := body_Endpoint b;
              KeyP256dh := body_P256dh b; KeyAuth := body_Auth b; CreatedAt := 0 |} ] /\
       welcome_req wl =
         {| ReqTopic := ""; Title := WelcomeMessage s; Body := ""; Icon := "";
            Badge := ""; Tag := ""; URL := "" |}).
Proof.
  unfold HandlePostSubscription. destruct decoded as [b|]; [|split; [reflexivity | discriminate]].
  destruct (_ || _ || _); [split; [reflexivity | discriminate]|].
  destruct (UpsertSubscription _ _ _ _ _ _ _) as [db1 [[id created]|e]];
    [|split; [reflexivity | discriminate]].
  destruct created; cbn [andb]; [|split; [reflexivity | discriminate]].
  split.
  - intros ->. reflexivity.
  - destruct (String.eqb (WelcomeMessage s) ""); cbn [negb]; [discriminate|].
    intros wl [= <-]. exists b, id. repeat split.
Qed.

(** A fan-out over one subscription. *)
Lemma sendToSubscriptions_single deliver sched db clock sub req vapid o :
  sendToSubscriptions deliver sched db clock [sub] req vapid = Some o ->
  (exists call,
     pushes_of (out_trace o) = [(0%nat, call)] /\
     call_Endpoint call = Endpoint sub /\
     call_P256dh call = KeyP256dh sub /\
     call_Auth call = KeyAuth sub) /\
  (fault db = None ->
   exists e,
     delivery_log (out_db o) = delivery_log db ++ [e] /\
     subscription_id e = ID sub /\
     delivery_log_seq (out_db o) = delivery_log_seq db + 1).
Proof.
  intros Hsend.
  destruct (sendToSubscriptions_inv _ _ _ _ _ _ _ _ Hsend)
    as (payload & st & Hpay & Hrun & Hfin & ->).
  destruct (fo_run_complete _ _ _ _ _ _ _ _ Hrun Hfin) as (_ & Hpush & _).
  destruct (fo_run_store _ _ _ _ _ _ _ _ Hrun Hfin) as (_ & Hstore & _).
  cbn [iflat_from app] in Hpush. apply Permutation_singleton in Hpush.
  cbn [out_trace out_db]. rewrite pushes_of_summary. split.
  - exists (mk_call payload vapid sub). repeat split. exact Hpush.
  - intros Hf. destruct (Hstore Hf) as (_ & _ & appended & Hlog & Hlen & _ & Hseq & Hkeys).
    cbn [iflat_from app] in Hkeys.
    destruct appended as [|e [|e' rest]]; try discriminate.
    apply Permutation_singleton in Hkeys. injection Hkeys as Hid _ _.
    exists e. split; [exact Hlog|]. split; [exact Hid|]. exact Hseq.
Qed.

(** X27.  Without the admin key.  A request whose [Authorization] header
    is not [Bearer] followed by the admin key is always answered; it never
    runs the fan-out of [/notify], never gets the list of subscriptions, and
    leaves the whole store as it is unless it is a POST or a DELETE on
    [/subscriptions], the two public operations on one's own subscription.
    When the handler returns, the delivery log and its counter are as they
    were.  The one delivery such a request can start is the welcome of a
    POST on [/subscriptions]: there is none when the server has no welcome
    message; when there is one, the request was answered 201, the delivery
    is a fan-out over the single record the request created, with the
    welcome message as its title, and every complete run of it makes exactly
    one push call, to the endpoint and keys of the request, and on a healthy
    store appends exactly one entry, for the new id, to the delivery log.
    On a pattern registered with [requireAuth] the answer is 401, unless the
    middleware answered before (204 to OPTIONS, 415 to a body of another
    content type). *)
Theorem NewRouter_needs_admin_key (s : Server) (corsOrigin : string) (w : World)
    (r : Request) (db : DB) :
  Authorization r <> ("Bearer " ++ AdminKey s)%string ->
  exists ex,
    NewRouter s corsOrigin w r db = Some ex /\
    ex_fanout ex = None /\
    delivery_log (ex_db ex) = delivery_log db /\
    delivery_log_seq (ex_db ex) = delivery_log_seq db /\
    (forall subs, reply_content (ex_reply ex) <> JSONSubscriptions subs) /\
    (ex_db ex <> db ->
     (exists b, matched r = PostSubscriptions (Some b)) \/
     (exists endpoint, matched r = DeleteSubscriptions (Some endpoint))) /\
    (WelcomeMessage s = "" -> ex_welcome ex = None) /\
    (forall wl, ex_welcome ex = Some wl ->
       exists b id,
         matched r = PostSubscriptions (Some b) /\
         ex_reply ex = writeJSON StatusCreated (JSONId id) /\
         welcome_subs wl =
           [ {| ID := id; Topic := ""; Endpoint := body_Endpoint b;
                KeyP256dh := body_P256dh b; KeyAuth := body_Auth b; CreatedAt := 0 |} ] /\
         welcome_req wl =
           {| ReqTopic := ""; Title := WelcomeMessage s; Body := ""; Icon := "";
              Badge := ""; Tag := ""; URL := "" |} /\
         forall (deliver : nat -> PushCall -> PushResponse) (sched : list choice)
                (db2 : DB) (clock : gotime) (o : outcome),
           sendToSubscriptions deliver sched db2 clock (welcome_subs wl) (welcome_req wl)
             (srv_VAPID s) = Some o ->
           (exists call,
              pushes_of (out_trace o) = [(0%nat, call)] /\
              call_Endpoint call = body_Endpoint b /\
              call_P256dh call = body_P256dh b /\
              call_Auth call = body_Auth b) /\
           (fault db2 = None ->
            exists e,
              delivery_log (out_db o) = delivery_log db2 ++ [e] /\
              subscription_id e = id /\
              delivery_log_seq (out_db o) = delivery_log_seq db2 + 1)) /\
    (admin_route (matched r) = true ->
     ex_db ex = db /\ ex_welcome ex = None /\
     (reply_status (ex_reply ex) = StatusUnauthorized \/
      reply_status (ex_reply ex) = StatusUnsupportedMediaType \/
      reply_status (ex_reply ex) = StatusNoContent /\ Method r = "OPTIONS")).
Proof.
  intros Hauth.
  unfold NewRouter, corsMiddleware, loggingMiddleware, contentTypeMiddleware,
    MethodOptions, MethodPost, MethodDelete.
  destruct (String.eqb_spec (Method r) "OPTIONS") as [Hopt|Hopt].
  { eexists. split; [reflexivity|].
    cbn [ex_fanout ex_db ex_reply ex_welcome reply_content reply_status WriteHeader].
    do 4 (split; [reflexivity || discriminate|]). split; [contradiction|].
    split; [reflexivity|]. split; [discriminate|].
    intros _. split; [reflexivity|]. split; [reflexivity|]. right. right. now split. }
  destruct ((String.eqb (Method r) "POST" || String.eqb (Method r) "DELETE")
            && (0 <? ContentLength r) && negb (HasPrefix (ContentType r) "application/json"))
    eqn:Hcheck.
  { apply andb_true_iff in Hcheck as [Hcheck Hct]. rewrite Hcheck, Hct.
    eexists. split; [reflexivity|].
    cbn [respond ex_fanout ex_db ex_reply ex_welcome reply_content reply_status writeJSON].
    do 4 (split; [reflexivity || discriminate|]). split; [contradiction|].
    split; [reflexivity|]. split; [discriminate|].
    intros _. split; [reflexivity|]. split; [reflexivity|]. right. now left. }
  assert (Hpass : (if (String.eqb (Method r) "POST" || String.eqb (Method r) "DELETE")
                      && (0 <? ContentLength r)
                   then if negb (HasPrefix (ContentType r) "application/json")
                        then respond (writeJSON StatusUnsupportedMediaType
                                        (JSONContentTypeError (ContentType r))) db
                        else ServeMux s w r db
                   else ServeMux s w r db) = ServeMux s w r db).
  { destruct ((String.eqb (Method r) "POST" || String.eqb (Method r) "DELETE")
              && (0 <? ContentLength r)); [|reflexivity].
    cbn [andb] in Hcheck. now rewrite Hcheck. }
  rewrite Hpass. clear Hpass Hcheck.
  unfold ServeMux, guarded, respond.
  destruct (matched r) as [|decoded|decoded|topic|id|decoded|older|st] eqn:Hroute;
    rewrite ?(requireAuth_reject s (Authorization r) _ Hauth).
  - eexists. split; [reflexivity|]. cbn.
    do 4 (split; [reflexivity || discriminate|]). split; [contradiction|].
    split; [reflexivity|]. split; discriminate.
  - pose proof (HandlePostSubscription_log s db (w_entropy w) (w_now w) decoded) as Hlog.
    pose proof (HandlePostSubscription_welcome s db (w_entropy w) (w_now w) decoded) as Hwel.
    assert (Hbody : forall subs,
               reply_content (snd (fst (HandlePostSubscription s db (w_entropy w) (w_now w)
                                          decoded))) <> JSONSubscriptions subs).
    { intros subs. unfold HandlePostSubscription. destruct decoded as [b|]; [|discriminate].
      destruct (_ || _ || _); [discriminate|].
      destruct (UpsertSubscription _ _ _ _ _ _ _) as [db1 [[id created]|e]]; discriminate. }
    assert (Hsame : decoded = None ->
               fst (fst (HandlePostSubscription s db (w_entropy w) (w_now w) decoded)) = db).
    { intros ->. reflexivity. }
    destruct (HandlePostSubscription s db (w_entropy w) (w_now w) decoded)
      as [[db' rep] wl0]. cbv zeta in Hlog. cbn [fst snd] in *.
    eexists. split; [reflexivity|]. cbn [ex_fanout ex_db ex_reply ex_welcome admin_route].
    destruct Hlog as [H1 H2]. destruct Hwel as [Hnone Hsome].
    split; [reflexivity|]. split; [assumption|]. split; [assumption|].
    split; [assumption|]. split; [|split; [assumption|split; [|discriminate]]].
    + intros Hne. destruct decoded as [b|]; [left; eauto|]. now destruct Hne; apply Hsame.
    + intros wl Hwl. destruct (Hsome wl Hwl) as (b & id & -> & Hrep & Hsubs & Hreq).
      exists b, id. split; [reflexivity|]. split; [assumption|].
      split; [assumption|]. split; [assumption|].
      intros deliver sched db2 clock o Hsend. rewrite Hsubs in Hsend.
      apply sendToSubscriptions_single in Hsend. exact Hsend.
  - pose proof (HandleDeleteSubscriptionByEndpoint_log db decoded) as Hlog.
    assert (Hbody : forall subs,
               reply_content (snd (HandleDeleteSubscriptionByEndpoint db decoded))
               <> JSONSubscriptions subs).
    { intros subs. unfold HandleDeleteSubscriptionByEndpoint.
      destruct decoded as [ep|]; [|discriminate].
      destruct (String.eqb ep ""); [discriminate|].
      destruct (DeleteSubscriptionByEndpoint db ep) as [db1 [e|]]; discriminate. }
    assert (Hsame : decoded = None -> fst (HandleDeleteSubscriptionByEndpoint db decoded) = db).
    { intros ->. reflexivity. }
    destruct (HandleDeleteSubscriptionByEndpoint db decoded) as [db' rep].
    cbv zeta in Hlog. cbn [fst snd] in *.
    eexists. split; [reflexivity|]. cbn [ex_fanout ex_db ex_reply ex_welcome admin_route].
    destruct Hlog as [H1 H2].
    split; [reflexivity|]. split; [assumption|]. split; [assumption|].
    split; [assumption|]. split; [|split; [reflexivity|split; discriminate]].
    intros Hne. destruct decoded as [ep|]; [right; eauto|]. now destruct Hne; apply Hsame.
  - eexists. split; [reflexivity|]. cbn.
    do 4 (split; [reflexivity || discriminate|]). split; [contradiction|].
    split; [reflexivity|]. split; [discriminate|].
    intros _. split; [reflexivity|]. split; [reflexivity|]. now left.
  - eexists. split; [reflexivity|]. cbn.
    do 4 (split; [reflexivity || discriminate|]). split; [contradiction|].
    split; [reflexivity|]. split; [discriminate|].
    intros _. split; [reflexivity|]. split; [reflexivity|]. now left.
  - eexists. split; [reflexivity|]. cbn.
    do 4 (split; [reflexivity || discriminate|]). split; [contradiction|].
    split; [reflexivity|]. split; [discriminate|].
    intros _. split; [reflexivity|]. split; [reflexivity|]. now left.
  - eexists. split; [reflexivity|]. cbn.
    do 4 (split; [reflexivity || discriminate|]). split; [contradiction|].
    split; [reflexivity|]. split; [discriminate|].
    intros _. split; [reflexivity|]. split; [reflexivity|]. now left.
  - eexists. split; [reflexivity|]. cbn.
    do 4 (split; [reflexivity || discriminate|]). split; [contradiction|].
    split; [reflexivity|]. split; discriminate.
Qed.

Lemma NewRouter_needs_admin_key_witness :
  let s := {| srv_VAPID := sample_vapid; AdminKey := "secret"; WelcomeMessage := "" |} in
  let w := {| w_entropy := sample_entropy; w_now := sample_now;
              w_deliver := sample_deliver; w_sched := sequential 4 |} in
  let r := {| Method := "POST"; Path := "/notify"; ContentLength := 40;
              ContentType := "application/json"; Authorization := "Bearer guess";
              matched := PostNotify (Some sample_req) |} in
  exists ex,
    NewRouter s "*" w r sample_db = Some ex /\
    ex_fanout ex = None /\ ex_db ex = sample_db /\
    reply_status (ex_reply ex) = StatusUnauthorized.
Proof.
  intros s w r.
  destruct (NewRouter_needs_admin_key s "*" w r sample_db)
    as (ex & Hex & Hfan & _ & _ & _ & _ & _ & _ & Hadmin); [discriminate|].
  exists ex. split; [exact Hex|]. split; [exact Hfan|].
  destruct (Hadmin eq_refl) as (Hdb & _ & Hst). split; [exact Hdb|].
  destruct Hst as [Hst|[Hst|[_ Hst]]]; [exact Hst | | discriminate Hst].
  exfalso. vm_compute in Hex. injection Hex as <-. discriminate Hst.
Defined.
